(** * Video frame extractor: sampler, window arithmetic and run coordinator

    A shallow embedding of [video_frame_extractor/extractor.py],
    [video_frame_extractor/player.py], [video_frame_extractor/utils.py] and
    the entry point of [video_frame_extractor/cli.py].

    Conventions of the embedding.
    - Python [float] values are binary64.  A finite double is given by the
      rational it denotes ([Q]); the times and the frame rate a run is
      given are finite doubles.  Every multiplication and division of the
      source rounds its exact result to the nearest double, ties to the
      even significand, subnormal numbers included, and gives an infinity
      where the result is too large ([Py.fl]); [int()] of an infinity
      raises [OverflowError].  These operations give no NaN on finite
      numbers, and the two zeros are not told apart.
    - Python [int] values are [Z].
    - Python [str] values are [string]: sequences of code points below 256.
    - The external collaborators (HTTP download, OpenCV decoding and encoding,
      the file system, the keyboard) are an oracle record [Env]; the program
      state they act on is the record [World].
    - Exceptions, logging and file effects are threaded by a small
      state-and-exception monad [M]; a call that does not return is the
      outcome [Diverge].
    - The two threads of a run with playback share no variable: their loop
      turns are interleaved by a schedule of the oracle, and the extraction
      thread runs to its end whatever the main thread does. *)

From Stdlib Require Import ZArith QArith Qround Qpower List Sorted Bool String.
From Stdlib Require Import Lia Lqa.
From Stdlib Require Import Ascii.
From Stdlib Require DecimalString.
Import ListNotations.

Open Scope Z_scope.

(** ** Python arithmetic *)

Module Py.

(** [int(x)] on a float: truncation toward zero. *)
Definition int (x : Q) : Z := Z.quot (Qnum x) (Z.pos (Qden x)).

(** [round(x)] on a float: nearest integer, ties to the even neighbour.
    The source never calls it; it is the rounding the specification names. *)
Definition round (x : Q) : Z :=
  let f := Qfloor x in
  match Qcompare (x - inject_Z f) (1 # 2) with
  | Lt => f
  | Gt => f + 1
  | Eq => if Z.even f then f else f + 1
  end.

(** [x > 0] on floats. *)
Definition gt0 (x : Q) : bool := negb (Qle_bool x 0).

(** [x <= y] on floats. *)
Definition le (x y : Q) : bool := Qle_bool x y.

(** Truthiness of an optional float ([None] and [0.0] are falsy). *)
Definition truthyQ (o : option Q) : bool :=
  match o with
  | Some x => negb (Qeq_bool x 0)
  | None => false
  end.

(** Truthiness of an optional int ([None] and [0] are falsy). *)
Definition truthyZ (o : option Z) : bool :=
  match o with
  | Some x => negb (x =? 0)
  | None => false
  end.

(** [max(0, x)]: the first maximal argument. *)
Definition max0 (x : Q) : Q := if gt0 x then x else 0%Q.

(** *** binary64 *)

(** [floor(log2(x))] of a positive [x]. *)
Definition ilog2 (x : Q) : Z :=
  let k := Z.log2 (Qnum x) - Z.log2 (Z.pos (Qden x)) in
  if Qle_bool (2 ^ k) x then k else k - 1.

(** The exponent of the last place of the doubles of the size of a positive
    [x]: 52 places below its leading bit, and not below the last place of
    the subnormal numbers. *)
Definition ulp_exp (x : Q) : Z := Z.max (ilog2 x - 52) (-1074).

(** The multiple of the last place nearest to a positive [x], the even one
    of two that are equally near. *)
Definition nearest_pos (x : Q) : Q :=
  (inject_Z (round (x / 2 ^ ulp_exp x)) * 2 ^ ulp_exp x)%Q.

(** Rounding to nearest, ties to even, without a largest exponent. *)
Definition nearest (x : Q) : Q :=
  match (x ?= 0)%Q with
  | Eq => 0%Q
  | Gt => nearest_pos x
  | Lt => (- nearest_pos (- x))%Q
  end.

(** A [float] that is not a NaN. *)
Inductive float : Type :=
| Fin (q : Q)
| Inf (negative : bool).

(** The double an exact result is rounded to: an infinity from [2 ** 1024]
    on, which is where the numbers at least half a last place above the
    largest double are rounded to. *)
Definition fl (x : Q) : float :=
  if Qle_bool (2 ^ 1024) (nearest x) then Inf false
  else if Qle_bool (nearest x) (- 2 ^ 1024) then Inf true
  else Fin (nearest x).

(** [x * y] and [x / y] on floats, for a [y] other than 0; [a / b] on two
    ints is the quotient of the two integers rounded once. *)
Definition mul (x y : Q) : float := fl (x * y).
Definition div (x y : Q) : float := fl (x / y).

(** [float(n)], the conversion of an int operand, for an int in the range
    of the doubles. *)
Definition of_int (n : Z) : Q := nearest (inject_Z n).

(** [n >= x] for an int and a float: the two are compared exactly. *)
Definition int_ge (n : Z) (x : float) : bool :=
  match x with
  | Fin q => Qle_bool q (inject_Z n)
  | Inf negative => negative
  end.

End Py.

(** ** Data model *)

(** Python exceptions that the modelled code can meet.  [KeyboardInterrupt]
    derives from [BaseException] only, the others from [Exception]. *)
Inductive exn : Type :=
| ZeroDivisionError
| OverflowError
| CvError
| RequestException
| OSError
| KeyboardInterrupt.

Definition is_Exception (e : exn) : bool :=
  match e with
  | KeyboardInterrupt => false
  | _ => true
  end.

(** A decoded frame: [frame.shape[0]] rows and [frame.shape[1]] columns. *)
Record Frame : Type := mkFrame { shape0 : Z; shape1 : Z }.

(** What a [cv2.VideoCapture] reports about an opened file, and the frames it
    can actually decode (the reported count is container metadata and need not
    equal the number of decodable frames).  The frame rate is the double
    [cap.get] returns; the three ints are the [int()] of one. *)
Record Video : Type := mkVideo {
  prop_fps : Q;
  prop_frame_count : Z;
  prop_width : Z;
  prop_height : Z;
  decodable : list Frame
}.

(** A decode handle: one video and its own read position. *)
Record Capture : Type := mkCapture { cap_video : Video; cap_pos : Z }.

(** [cap.set(cv2.CAP_PROP_POS_FRAMES, n)]. *)
Definition cap_set (c : Capture) (n : Z) : Capture :=
  mkCapture (cap_video c) n.

(** [cap.read()]: the frame at the read position, which then advances; no
    frame outside the decodable range. *)
Definition cap_read (c : Capture) : option Frame * Capture :=
  if (0 <=? cap_pos c) && (cap_pos c <? Z.of_nat (List.length (decodable (cap_video c))))
  then (nth_error (decodable (cap_video c)) (Z.to_nat (cap_pos c)),
        mkCapture (cap_video c) (cap_pos c + 1))
  else (None, c).

(** One call of [cv2.imwrite]: the path it is given and the image. The path
    [frame_{saved_count:04d}_time_{current_time:.1f}s.jpg] is kept as its two
    arguments; [frame_index] records which decoded frame the image comes
    from. *)
Record SavedFrame : Type := mkSaved {
  sequence_index : Z;
  timestamp : Py.float;
  frame_index : Z;
  saved_width : Z;
  saved_height : Z;
  jpeg_quality : Z
}.

(** The three ways a call of [cv2.imwrite] can end. *)
Inductive WriteResult : Type :=
| WriteOk        (* returns True, file written *)
| WriteFalse     (* returns False, nothing written *)
| WriteRaises.   (* raises cv2.error *)

Inductive LogLevel : Type := DEBUG | INFO | WARNING | ERROR.

Record LogEntry : Type := mkLog { log_level : LogLevel; log_text : string }.

(** Files of the run. *)
Inductive File : Type :=
| VideoFile (name : string)
| FrameFile (folder : string) (img : SavedFrame)
| MetadataFile (folder : string)
| ReportFile (folder : string).

(** [self.metadata], the entries the claims depend on. *)
Record Metadata : Type := mkMeta {
  meta_filled : bool;
  frames_extracted : option Z
}.

(** The mutable state a run acts on. *)
Record World : Type := mkWorld {
  files : list File;
  log : list LogEntry;
  imwrite_calls : list SavedFrame;
  metadata : Metadata;
  video_path : option string
}.

(** The constructor arguments kept on [self]. *)
Record VideoFrameExtractor : Type := mkExtractor {
  video_url : string;
  output_folder : string;
  interval : Q;
  quality : Z;
  max_width : option Z;
  start_time : Q;
  end_time : option Q
}.

(** [VideoFrameExtractor.__init__]. *)
Definition init (url folder : string) (interval : Q) (quality : Z)
    (max_width : option Z) (start_time : Q) (end_time : option Q)
  : VideoFrameExtractor :=
  {| video_url := url;
     output_folder := folder;
     interval := interval;
     quality := Z.max 1 (Z.min 100 quality);
     max_width := max_width;
     start_time := Py.max0 start_time;
     end_time := end_time |}.

(** ** The effect monad *)

Inductive result (A : Type) : Type :=
| Val (a : A)
| Exn (e : exn)
| Diverge.

Arguments Val {A} a.
Arguments Exn {A} e.
Arguments Diverge {A}.

Definition M (A : Type) : Type := World -> result A * World.

Definition ret {A} (a : A) : M A := fun w => (Val a, w).

Definition raise {A} (e : exn) : M A := fun w => (Exn e, w).

(** A computation that has no effect on the world. *)
Definition lift {A} (r : result A) : M A := fun w => (r, w).

(** The next expression is evaluated when this one has a value. *)
Definition and_then {A B} (r : result A) (k : A -> result B) : result B :=
  match r with
  | Val a => k a
  | Exn e => Exn e
  | Diverge => Diverge
  end.

(** [int(x)] of a float: truncation toward zero; an infinity has no
    integer. *)
Definition int_float (x : Py.float) : result Z :=
  match x with
  | Py.Fin q => Val (Py.int q)
  | Py.Inf _ => Exn OverflowError
  end.

(** The quotient of two ints that is too large for a float is not an
    infinity. *)
Definition int_quotient (x : Py.float) : result Q :=
  match x with
  | Py.Fin q => Val q
  | Py.Inf _ => Exn OverflowError
  end.

Definition bind {A B} (m : M A) (k : A -> M B) : M B :=
  fun w =>
    match m w with
    | (Val a, w') => k a w'
    | (Exn e, w') => (Exn e, w')
    | (Diverge, w') => (Diverge, w')
    end.

Declare Scope monad_scope.
Delimit Scope monad_scope with monad.
Notation "x <- m ;; k" := (bind m (fun x => k))
  (at level 61, m at next level, right associativity) : monad_scope.
Notation "m ;;; k" := (bind m (fun _ => k))
  (at level 61, right associativity) : monad_scope.
Open Scope monad_scope.

(** [try: m except Exception as e: h e]. *)
Definition try_except {A} (m : M A) (h : exn -> M A) : M A :=
  fun w =>
    match m w with
    | (Exn e, w') => if is_Exception e then h e w' else (Exn e, w')
    | r => r
    end.

(** [try: m finally: c]. *)
Definition try_finally {A} (m : M A) (c : M unit) : M A :=
  fun w =>
    match m w with
    | (Diverge, w') => (Diverge, w')
    | (r, w') =>
        match c w' with
        | (Val _, w'') => (r, w'')
        | (Exn e, w'') => (Exn e, w'')
        | (Diverge, w'') => (Diverge, w'')
        end
    end.

Definition logger (l : LogLevel) (s : string) : M unit :=
  fun w => (Val tt,
            mkWorld (files w) (log w ++ [mkLog l s]) (imwrite_calls w)
                    (metadata w) (video_path w)).

Definition write_file (f : File) : M unit :=
  fun w => (Val tt,
            mkWorld (files w ++ [f]) (log w) (imwrite_calls w)
                    (metadata w) (video_path w)).

Definition record_imwrite (s : SavedFrame) : M unit :=
  fun w => (Val tt,
            mkWorld (files w) (log w) (imwrite_calls w ++ [s])
                    (metadata w) (video_path w)).

Definition set_metadata (m : Metadata) : M unit :=
  fun w => (Val tt,
            mkWorld (files w) (log w) (imwrite_calls w) m (video_path w)).

Definition get_metadata : M Metadata := fun w => (Val (metadata w), w).

Definition set_video_path (p : string) : M unit :=
  fun w => (Val tt,
            mkWorld (files w) (log w) (imwrite_calls w) (metadata w) (Some p)).

Definition get_video_path : M (option string) :=
  fun w => (Val (video_path w), w).

(** [while]: the body returns [inl] to go round again and [inr] to leave. *)
Fixpoint while {S : Type} (fuel : nat) (body : S -> M (S + S)) (s : S) : M S :=
  match fuel with
  | O => fun w => (Diverge, w)
  | Datatypes.S n =>
      r <- body s ;;
      match r with
      | inl s' => while n body s'
      | inr s' => ret s'
      end
  end.

(** ** The oracle for the external collaborators *)

(** How [download_video] can end: the request or the transfer fails with an
    exception derived from [Exception] (before or after the file has been
    created), or the user interrupts, or the transfer completes. *)
Inductive DownloadOutcome : Type :=
| DownloadOk
| RequestFails
| TransferFails
| InterruptedInValidate
| InterruptedInRequest
| InterruptedInTransfer.

(** Points of [run] at which a [KeyboardInterrupt] can reach the main
    thread after the download. *)
Inductive Stage : Type :=
| AtMetadata
| AtExtraction
| AtPlayback
| AtJoin
| AtReport.

Definition Stage_eqb (a b : Stage) : bool :=
  match a, b with
  | AtMetadata, AtMetadata | AtExtraction, AtExtraction
  | AtPlayback, AtPlayback | AtJoin, AtJoin | AtReport, AtReport => true
  | _, _ => false
  end.

(** The two tasks of a run with playback. *)
Inductive Tid : Type := SamplerTask | PlayerTask.

Record Env : Type := mkEnv {
  download_name : string;
  download_outcome : DownloadOutcome;
  capture : option Video;
  imwrite : SavedFrame -> WriteResult;
  metadata_write_ok : bool;
  report_write_ok : bool;
  remove_ok : bool;
  headless : bool;
  keys : list Z;
  schedule : list Tid;
  play_fuel : nat;
  interrupt : option Stage
}.

(** ** Frame sampler: [VideoFrameExtractor.extract_frames] *)

(** The local variables of [extract_frames] that the loop reads and writes. *)
Record Sampler : Type := mkSampler {
  s_cap : Capture;
  s_fps : Q;
  s_start_frame : Z;
  s_end_frame : Z;
  s_interval_frames : Z;
  frame_count : Z;
  saved_count : Z
}.

(** [start_frame = int(self.start_time * fps) if self.start_time > 0 else 0] *)
Definition start_frame (e : VideoFrameExtractor) (fps : Q) : result Z :=
  if Py.gt0 (start_time e) then int_float (Py.mul (start_time e) fps)
  else Val 0.

(** [end_frame = int(self.end_time * fps) if self.end_time else total_frames],
    then [end_frame = min(end_frame, total_frames)]. *)
Definition end_frame (e : VideoFrameExtractor) (fps : Q) (total_frames : Z)
  : result Z :=
  and_then
    match end_time e with
    | Some t =>
        if Py.truthyQ (Some t) then int_float (Py.mul t fps)
        else Val total_frames
    | None => Val total_frames
    end
    (fun end_frame => Val (Z.min end_frame total_frames)).

(** [interval_frames = int(fps * self.interval)] *)
Definition interval_frames (e : VideoFrameExtractor) (fps : Q) : result Z :=
  int_float (Py.mul fps (interval e)).

(** The three conversions give an integer each, so that the loop is
    reached; whether the one of [end_frame] does, does not depend on the
    frame count. *)
Definition loop_reached (e : VideoFrameExtractor) (fps : Q) : bool :=
  match start_frame e fps, end_frame e fps 0, interval_frames e fps with
  | Val _, Val _, Val _ => true
  | _, _, _ => false
  end.

(** What a conversion gives. *)
Definition value_of (r : result Z) : Z :=
  match r with
  | Val n => n
  | _ => 0
  end.

(** The values of [start_frame], [end_frame] and [interval_frames] when the
    loop starts.  Where a conversion raises, the loop is not reached and
    scans no frame; the three then stand for the empty scan, from 0 to 0 in
    steps of 0. *)
Definition start_frame_of (e : VideoFrameExtractor) (fps : Q) : Z :=
  if loop_reached e fps then value_of (start_frame e fps) else 0.

Definition end_frame_of (e : VideoFrameExtractor) (fps : Q) (total_frames : Z) : Z :=
  if loop_reached e fps then value_of (end_frame e fps total_frames) else 0.

Definition interval_frames_of (e : VideoFrameExtractor) (fps : Q) : Z :=
  if loop_reached e fps then value_of (interval_frames e fps) else 0.

(** [cv2.resize(frame, (new_width, new_height))]: an empty target size is an
    OpenCV assertion failure. *)
Definition cv2_resize (frame : Frame) (new_width new_height : Z) : result Frame :=
  if (0 <? new_width) && (0 <? new_height)
  then Val (mkFrame new_height new_width)
  else Exn CvError.

(** The [if self.max_width and frame.shape[1] > self.max_width:] block.
    The two operands of [scale] are ints: the quotient is rounded once. *)
Definition downscale (e : VideoFrameExtractor) (frame : Frame) : result Frame :=
  match max_width e with
  | Some mw =>
      if Py.truthyZ (Some mw) && (mw <? shape1 frame) then
        if shape1 frame =? 0 then Exn ZeroDivisionError else
        and_then
          (int_quotient (Py.div (inject_Z mw) (inject_Z (shape1 frame))))
          (fun scale =>
             let new_width := mw in
             and_then
               (int_float (Py.mul (Py.of_int (shape0 frame)) scale))
               (fun new_height => cv2_resize frame new_width new_height))
      else Val frame
  | None => Val frame
  end.

(** [current_time = frame_count / fps], for an [fps] other than 0. *)
Definition current_time_of (frame_count : Z) (fps : Q) : Py.float :=
  Py.div (Py.of_int frame_count) fps.

(** [cv2.imwrite(frame_path, frame, [cv2.IMWRITE_JPEG_QUALITY, self.quality])] *)
Definition cv2_imwrite (env : Env) (folder : string) (s : SavedFrame) : M bool :=
  record_imwrite s ;;;
  match imwrite env s with
  | WriteOk => write_file (FrameFile folder s) ;;; ret true
  | WriteFalse => ret false
  | WriteRaises => raise CvError
  end.

(** One turn of [while frame_count < end_frame:]. *)
Definition sampler_body (e : VideoFrameExtractor) (env : Env) (s : Sampler)
  : M (Sampler + Sampler) :=
  if frame_count s <? s_end_frame s then
    let (r, cap') := cap_read (s_cap s) in
    let s1 := mkSampler cap' (s_fps s) (s_start_frame s) (s_end_frame s)
                        (s_interval_frames s) (frame_count s) (saved_count s) in
    match r with
    | None => ret (inr s1)
    | Some frame =>
        if s_interval_frames s =? 0 then raise ZeroDivisionError else
        if (frame_count s - s_start_frame s) mod s_interval_frames s =? 0 then
          let current_time := current_time_of (frame_count s) (s_fps s) in
          frame' <- lift (downscale e frame) ;;
          _ <- cv2_imwrite env (output_folder e)
                 (mkSaved (saved_count s) current_time (frame_count s)
                          (shape1 frame') (shape0 frame') (quality e)) ;;
          logger DEBUG "Saved" ;;;
          ret (inl (mkSampler cap' (s_fps s) (s_start_frame s) (s_end_frame s)
                              (s_interval_frames s) (frame_count s + 1)
                              (saved_count s + 1)))
        else
          ret (inl (mkSampler cap' (s_fps s) (s_start_frame s) (s_end_frame s)
                              (s_interval_frames s) (frame_count s + 1)
                              (saved_count s)))
    end
  else ret (inr s).

(** The statements of [extract_frames] before the loop, from opening the
    capture to [interval_frames]; [None] is the early [return 0]. *)
Definition sampler_open (e : VideoFrameExtractor) (env : Env) : M (option Sampler) :=
  match capture env with
  | None => logger ERROR "Could not open video file" ;;; ret None
  | Some v =>
      let cap := mkCapture v 0 in
      let fps := prop_fps v in
      let total_frames := prop_frame_count v in
      if Qeq_bool fps 0 then raise ZeroDivisionError else
      start_frame <- lift (start_frame e fps) ;;
      end_frame <- lift (end_frame e fps total_frames) ;;
      logger INFO "Extracting frames" ;;;
      let cap := cap_set cap start_frame in
      interval_frames <- lift (interval_frames e fps) ;;
      ret (Some (mkSampler cap fps start_frame end_frame interval_frames
                           start_frame 0))
  end.

(** The statements of [extract_frames] after the loop. *)
Definition sampler_close (s : Sampler) : M Z :=
  logger INFO "Frame extraction completed" ;;;
  m <- get_metadata ;;
  set_metadata (mkMeta (meta_filled m) (Some (saved_count s))) ;;;
  ret (saved_count s).

(** The loop never needs more turns than the window has frames, plus the
    turn that finds the condition false. *)
Definition sampler_fuel (s : Sampler) : nat :=
  S (Z.to_nat (s_end_frame s - frame_count s)).

(** The body of the [try:] of [extract_frames]. *)
Definition extract_frames_try (e : VideoFrameExtractor) (env : Env) : M Z :=
  o <- sampler_open e env ;;
  match o with
  | None => ret 0
  | Some s0 =>
      s <- while (sampler_fuel s0) (sampler_body e env) s0 ;;
      sampler_close s
  end.

(** [except Exception as e:] of [extract_frames]. *)
Definition extract_frames_except (_ : exn) : M Z :=
  logger ERROR "Error extracting frames" ;;; ret 0.

Definition extract_frames (e : VideoFrameExtractor) (env : Env) : M Z :=
  try_except (extract_frames_try e env) extract_frames_except.

(** ** Playback controller: [VideoPlayer.play] *)

(** The local variables of [play] that its loop reads and writes.  [p_keys]
    is the keyboard: what the coming calls of [cv2.waitKey] with a positive
    delay return, one entry for each call, the code of the key pressed
    within the delay or -1 when none is; once the list is used up no key is
    pressed any more. *)
Record Player : Type := mkPlayer {
  p_cap : Capture;
  p_fps : Q;
  p_delay : Z;
  p_total_frames : Z;
  p_paused : bool;
  p_current_frame : Z;
  p_keys : list Z
}.

(** The next key pressed and what follows it: the delays in which none is
    pressed go by. *)
Fixpoint next_press (ks : list Z) : option (Z * list Z) :=
  match ks with
  | [] => None
  | k :: r => if k =? -1 then next_press r else Some (k, r)
  end.

(** [cv2.waitKey(delay)] with a delay of 0 or less waits for a key without
    a limit: the call does not return when no key is pressed any more. *)
Definition waits_for_ever (p : Player) : bool :=
  (p_delay p <=? 0) &&
  match next_press (p_keys p) with
  | None => true
  | Some _ => false
  end.

(** [cv2.waitKey(delay) & 0xFF] when the call returns, and the keyboard
    after it: with a positive delay the next entry of the keyboard, -1 and
    so 255 once it is used up; with a delay of 0 or less the next key
    pressed. *)
Definition waitKey (p : Player) : Z * list Z :=
  if p_delay p <=? 0 then
    match next_press (p_keys p) with
    | Some (k, r) => (Z.land k 255, r)
    | None => (255, [])
    end
  else
    match p_keys p with
    | k :: r => (Z.land k 255, r)
    | [] => (255, [])
    end.

(** The delay reaches [cv2.waitKey] as a C [int]: with a Python [int] out
    of its range the call raises. *)
Definition c_int (n : Z) : bool :=
  (-2147483648 <=? n) && (n <=? 2147483647).

(** A call that does not return. *)
Definition never {A} : M A := fun w => (Diverge, w).

Definition ord_q : Z := 113.
Definition ord_p : Z := 112.
Definition ord_r : Z := 114.
Definition ord_f : Z := 102.
Definition ord_b : Z := 98.

Definition when (b : bool) (m : M unit) : M unit := if b then m else ret tt.

(** The [if width > 1200:] block of [play]: the frame scaled for display.
    The two operands of [scale] are ints: the quotient is rounded once. *)
Definition display_frame (frame : Frame) : result Frame :=
  if 1200 <? shape1 frame then
    and_then
      (int_quotient (Py.div 1200 (inject_Z (shape1 frame))))
      (fun scale =>
         and_then
           (int_float (Py.mul (Py.of_int (shape1 frame)) scale))
           (fun new_width =>
              and_then
                (int_float (Py.mul (Py.of_int (shape0 frame)) scale))
                (fun new_height => cv2_resize frame new_width new_height)))
  else Val frame.

(** The frame is read, scaled for display, stamped and shown; [true] is the
    [break] of the end of the stream or of the window. *)
Definition player_show (env : Env) (end_time : option Q) (p : Player)
  : M (bool * Player) :=
  let (r, cap') := cap_read (p_cap p) in
  let current_frame := cap_pos cap' in
  let p1 := mkPlayer cap' (p_fps p) (p_delay p) (p_total_frames p)
                     (p_paused p) current_frame (p_keys p) in
  match r with
  | None => ret (true, p1)
  | Some frame =>
      if Py.truthyQ end_time &&
         match end_time with
         | Some t => Py.int_ge current_frame (Py.mul t (p_fps p))
         | None => false
         end
      then ret (true, p1)
      else
        _ <- lift (display_frame frame) ;;
        (if Qeq_bool (p_fps p) 0 then raise ZeroDivisionError else ret tt) ;;;
        (if headless env then raise CvError else ret tt) ;;;
        ret (false, p1)
  end.

(** [key = cv2.waitKey(delay) & 0xFF] and the branches on the key. *)
Definition player_key (start_time : Q) (show_controls : bool) (p : Player)
  : M (Player + Player) :=
  if negb (c_int (p_delay p)) then raise OverflowError else
  if waits_for_ever p then never else
  let (key, rest) := waitKey p in
  let p := mkPlayer (p_cap p) (p_fps p) (p_delay p) (p_total_frames p)
                    (p_paused p) (p_current_frame p) rest in
  if key =? ord_q then ret (inr p)
  else if key =? ord_p then
    let paused := negb (p_paused p) in
    when show_controls (logger INFO (if paused then "Paused" else "Resumed")) ;;;
    ret (inl (mkPlayer (p_cap p) (p_fps p) (p_delay p) (p_total_frames p)
                       paused (p_current_frame p) (p_keys p)))
  else if key =? ord_r then
    start_frame <- lift (if Py.gt0 start_time
                         then int_float (Py.mul start_time (p_fps p))
                         else Val 0) ;;
    when show_controls (logger INFO "Video restarted") ;;;
    ret (inl (mkPlayer (cap_set (p_cap p) start_frame) (p_fps p) (p_delay p)
                       (p_total_frames p) false (p_current_frame p) (p_keys p)))
  else if key =? ord_f then
    step <- lift (int_float (Py.mul 10 (p_fps p))) ;;
    let new_frame := Z.min (p_current_frame p + step) (p_total_frames p - 1) in
    when show_controls (logger INFO "Fast forward 10s") ;;;
    ret (inl (mkPlayer (cap_set (p_cap p) new_frame) (p_fps p) (p_delay p)
                       (p_total_frames p) (p_paused p) (p_current_frame p)
                       (p_keys p)))
  else if key =? ord_b then
    step <- lift (int_float (Py.mul 10 (p_fps p))) ;;
    let new_frame := Z.max (p_current_frame p - step) 0 in
    when show_controls (logger INFO "Rewind 10s") ;;;
    ret (inl (mkPlayer (cap_set (p_cap p) new_frame) (p_fps p) (p_delay p)
                       (p_total_frames p) (p_paused p) (p_current_frame p)
                       (p_keys p)))
  else ret (inl p).

(** One turn of [while self.is_playing:]. *)
Definition player_body (env : Env) (start_time : Q) (end_time : option Q)
    (show_controls : bool) (p : Player) : M (Player + Player) :=
  shown <- (if p_paused p then ret (false, p) else player_show env end_time p) ;;
  let (stop, p) := shown in
  if stop then ret (inr p) else player_key start_time show_controls p.

(** The statements of [play] before the loop; [None] is the early return. *)
Definition player_open (env : Env) (start_time : Q) (show_controls : bool)
  : M (option Player) :=
  match capture env with
  | None => logger ERROR "Could not open video file for playback" ;;; ret None
  | Some v =>
      let cap := mkCapture v 0 in
      let fps := prop_fps v in
      delay <- lift (if Py.gt0 fps then int_float (Py.div 1000 fps)
                     else Val 33) ;;
      cap <- lift (if Py.gt0 start_time
                   then and_then (int_float (Py.mul start_time fps))
                                 (fun start_frame =>
                                    Val (cap_set cap start_frame))
                   else Val cap) ;;
      when show_controls
        (logger INFO "Playing video... Controls:" ;;;
         logger INFO "'q' - quit, 'p' - pause/unpause, 'r' - restart" ;;;
         logger INFO "'f' - fast forward 10s, 'b' - rewind 10s") ;;;
      ret (Some (mkPlayer cap fps delay (prop_frame_count v) false
                          (cap_pos cap) (keys env)))
  end.

(** [except Exception as e:] of [play]. *)
Definition player_except (_ : exn) : M unit :=
  logger ERROR "Error playing video".

(** [VideoPlayer.play]. *)
Definition play (env : Env) (start_time : Q) (end_time : option Q)
    (show_controls : bool) : M unit :=
  try_except
    (o <- player_open env start_time show_controls ;;
     match o with
     | None => ret tt
     | Some p0 =>
         _ <- while (play_fuel env)
                    (player_body env start_time end_time show_controls) p0 ;;
         ret tt
     end)
    player_except.

(** ** The coordinator: the other methods of [VideoFrameExtractor] *)

Definition is_video_file (name : string) (f : File) : bool :=
  match f with
  | VideoFile n => String.eqb n name
  | _ => false
  end.

(** [os.path.exists(name)] for the downloaded file. *)
Definition path_exists (name : string) : M bool :=
  fun w => (Val (existsb (is_video_file name) (files w)), w).

(** [os.remove(name)].  The files of the model are told apart by what wrote
    them: the name of the download stands for a path of its own, which no
    frame, metadata or report file has. *)
Definition os_remove (env : Env) (name : string) : M unit :=
  if remove_ok env then
    fun w => (Val tt,
              mkWorld (filter (fun f => negb (is_video_file name f)) (files w))
                      (log w) (imwrite_calls w) (metadata w) (video_path w))
  else raise OSError.

(** A [KeyboardInterrupt] delivered to the main thread at a stage. *)
Definition check_interrupt (env : Env) (st : Stage) : M unit :=
  match interrupt env with
  | Some s => if Stage_eqb s st then raise KeyboardInterrupt else ret tt
  | None => ret tt
  end.

(** [download_video]. The file name is set on [self] before the request is
    made; the file is created when the transfer starts. *)
Definition download_video (env : Env) : M bool :=
  try_except
    (match download_outcome env with
     | InterruptedInValidate => raise KeyboardInterrupt
     | _ => ret tt
     end ;;;
     logger INFO "Downloading video" ;;;
     set_video_path (download_name env) ;;;
     match download_outcome env with
     | RequestFails => raise RequestException
     | InterruptedInRequest => raise KeyboardInterrupt
     | TransferFails =>
         write_file (VideoFile (download_name env)) ;;; raise RequestException
     | InterruptedInTransfer =>
         write_file (VideoFile (download_name env)) ;;; raise KeyboardInterrupt
     | _ =>
         write_file (VideoFile (download_name env)) ;;;
         logger INFO "Video downloaded successfully" ;;;
         ret true
     end)
    (fun _ => logger ERROR "Download error" ;;; ret false).

(** [get_video_metadata]: [self.metadata] is replaced, then written out.
    Of the dict, the model keeps that it has been filled and the
    [frames_extracted] entry; the other entries, and with them the content
    of the file, are not part of it. *)
Definition get_video_metadata (e : VideoFrameExtractor) (env : Env) : M unit :=
  try_except
    (match capture env with
     | None => ret tt
     | Some _ =>
         set_metadata (mkMeta true None) ;;;
         (if metadata_write_ok env
          then write_file (MetadataFile (output_folder e))
          else raise OSError) ;;;
         logger INFO "Video metadata"
     end)
    (fun _ => logger ERROR "Error getting video metadata").

(** [VideoFrameExtractor.play_video]. *)
Definition play_video_guard : M bool :=
  p <- get_video_path ;;
  match p with
  | None => ret false
  | Some name => path_exists name
  end.

Definition play_video (e : VideoFrameExtractor) (env : Env) : M unit :=
  ok <- play_video_guard ;;
  if ok then play env (start_time e) (end_time e) true
  else logger ERROR "Video file not found. Download first.".

(** [create_summary_report]. *)
Definition create_summary_report (e : VideoFrameExtractor) (env : Env) : M unit :=
  try_except
    ((if report_write_ok env
      then write_file (ReportFile (output_folder e))
      else raise OSError) ;;;
     logger INFO "Summary report created")
    (fun _ => logger ERROR "Error creating summary report").

(** *** The two tasks of a run with playback, one loop turn at a time *)

Inductive SamplerSt : Type :=
| S_New
| S_Loop (s : Sampler)
| S_Done.

Inductive PlayerSt : Type :=
| P_New
| P_Loop (p : Player)
| P_Waiting     (* in a call of [cv2.waitKey] that does not return *)
| P_Done.

(** [m], where a call that does not return shows as [None]. *)
Definition unless_stuck {A} (m : M A) : M (option A) :=
  fun w =>
    match m w with
    | (Val a, w') => (Val (Some a), w')
    | (Exn x, w') => (Exn x, w')
    | (Diverge, w') => (Val None, w')
    end.

(** The next atomic piece of [extract_frames] in the extraction thread. *)
Definition sampler_step (e : VideoFrameExtractor) (env : Env) (st : SamplerSt)
  : M SamplerSt :=
  match st with
  | S_New =>
      try_except
        (o <- sampler_open e env ;;
         ret (match o with Some s => S_Loop s | None => S_Done end))
        (fun x => _ <- extract_frames_except x ;; ret S_Done)
  | S_Loop s =>
      try_except
        (r <- sampler_body e env s ;;
         match r with
         | inl s' => ret (S_Loop s')
         | inr s' => _ <- sampler_close s' ;; ret S_Done
         end)
        (fun x => _ <- extract_frames_except x ;; ret S_Done)
  | S_Done => ret S_Done
  end.

(** [extraction_thread.join()]: what is left of [extract_frames] runs to its
    end. *)
Definition sampler_join (e : VideoFrameExtractor) (env : Env) (st : SamplerSt)
  : M unit :=
  match st with
  | S_New => _ <- extract_frames e env ;; ret tt
  | S_Loop s =>
      _ <- try_except
             (s' <- while (sampler_fuel s) (sampler_body e env) s ;;
              sampler_close s')
             extract_frames_except ;;
      ret tt
  | S_Done => ret tt
  end.

(** The next atomic piece of [play_video] in the main thread. *)
Definition player_step (e : VideoFrameExtractor) (env : Env) (st : PlayerSt)
  : M PlayerSt :=
  match st with
  | P_New =>
      ok <- play_video_guard ;;
      if ok then
        try_except
          (o <- player_open env (start_time e) true ;;
           ret (match o with Some p => P_Loop p | None => P_Done end))
          (fun x => player_except x ;;; ret P_Done)
      else logger ERROR "Video file not found. Download first." ;;; ret P_Done
  | P_Loop p =>
      r <- unless_stuck
             (try_except
                (r <- player_body env (start_time e) (end_time e) true p ;;
                 ret (match r with inl p' => P_Loop p' | inr _ => P_Done end))
                (fun x => player_except x ;;; ret P_Done)) ;;
      ret (match r with Some st' => st' | None => P_Waiting end)
  | P_Waiting => ret P_Waiting
  | P_Done => ret P_Done
  end.

(** What is left of [play_video] runs until it returns. *)
Definition player_finish (e : VideoFrameExtractor) (env : Env) (st : PlayerSt)
  : M unit :=
  match st with
  | P_New => play_video e env
  | P_Loop p =>
      try_except
        (_ <- while (play_fuel env)
                    (player_body env (start_time e) (end_time e) true) p ;;
         ret tt)
        player_except
  | P_Waiting => never
  | P_Done => ret tt
  end.

(** The two tasks advance in the order the scheduler picks, one loop turn
    at a time. The tasks share no variable and no capture: each opens its
    own, and both only append to the log; a finer interleaving of their
    statements therefore differs from one of these in the order of log
    lines at most. A player that waits for a key without a limit does not
    hold up the sampler. *)
Fixpoint interleave (e : VideoFrameExtractor) (env : Env) (sched : list Tid)
    (ss : SamplerSt) (ps : PlayerSt) : M (SamplerSt * PlayerSt) :=
  match sched with
  | [] => ret (ss, ps)
  | SamplerTask :: rest =>
      ss' <- sampler_step e env ss ;; interleave e env rest ss' ps
  | PlayerTask :: rest =>
      ps' <- player_step e env ps ;; interleave e env rest ss ps'
  end.

(** [extraction_thread.start(); self.play_video(); extraction_thread.join()].
    The extraction thread is no daemon thread and catches every [Exception]
    itself, and a [KeyboardInterrupt] reaches the main thread only: once
    started, the thread runs [extract_frames] to its end, whether
    [play_video] returns, is interrupted, or never returns, and the process
    does not exit before.  The world of a run with playback is the one the
    thread has left behind when it has ended: what is left of
    [extract_frames] after the turns of the schedule comes first; then comes
    what is left of the main thread, which changes nothing but the log until
    it has joined the thread. *)
Definition run_with_playback (e : VideoFrameExtractor) (env : Env) : M unit :=
  sp <- interleave e env (schedule env) S_New P_New ;;
  sampler_join e env (fst sp) ;;;
  check_interrupt env AtPlayback ;;;
  player_finish e env (snd sp) ;;;
  check_interrupt env AtJoin.

(** The [finally:] block of [run]. *)
Definition cleanup (env : Env) : M unit :=
  p <- get_video_path ;;
  match p with
  | None => ret tt
  | Some name =>
      present <- path_exists name ;;
      if present then
        try_except
          (os_remove env name ;;; logger INFO "Cleaned up downloaded video")
          (fun _ => logger WARNING "Could not remove temporary video file")
      else ret tt
  end.

(** The body of the [try:] of [run]. *)
Definition run_try (e : VideoFrameExtractor) (env : Env)
    (play_video create_report : bool) : M bool :=
  ok <- download_video env ;;
  if negb ok then ret false else
  check_interrupt env AtMetadata ;;;
  get_video_metadata e env ;;;
  if Py.truthyQ (end_time e) &&
     match end_time e with
     | Some t => Py.le t (start_time e)
     | None => false
     end
  then logger ERROR "End time must be greater than start time" ;;; ret false
  else
    (if play_video then run_with_playback e env
     else check_interrupt env AtExtraction ;;;
          _ <- extract_frames e env ;; ret tt) ;;;
    when create_report
         (check_interrupt env AtReport ;;; create_summary_report e env) ;;;
    logger INFO "Process completed successfully!" ;;;
    ret true.

(** [except KeyboardInterrupt:] and [except Exception as e:] of [run]. *)
Definition run_except (m : M bool) : M bool :=
  fun w =>
    match m w with
    | (Exn KeyboardInterrupt, w') =>
        (logger INFO "Process interrupted by user" ;;; ret false) w'
    | (Exn _, w') => (logger ERROR "Unexpected error" ;;; ret false) w'
    | r => r
    end.

(** [VideoFrameExtractor.run]. *)
Definition run (e : VideoFrameExtractor) (env : Env)
    (play_video create_report : bool) : M bool :=
  logger INFO "=== Video Frame Extractor ===" ;;;
  try_finally (run_except (run_try e env play_video create_report))
              (cleanup env).

(** [main] of [cli.py], for a command line that [parse_args] turns into
    finite numbers, without [--help]: the [choices] of [--quality]
    (argparse exits with status 2), the three checks, then the constructor
    and [run]; the result
    is the exit status and the world, which is untouched when a check
    fails. *)
Definition cli_main (env : Env) (url folder : string) (interval_arg : Q)
    (quality_arg : Z) (width_arg : option Z) (start_arg : Q)
    (end_arg : option Q) (no_play no_report : bool) (w : World)
  : Z * World :=
  if negb ((1 <=? quality_arg) && (quality_arg <=? 100)) then (2, w)
  else if Qle_bool interval_arg 0 then (1, w)
  else if negb (Qle_bool 0 start_arg) then (1, w)
  else if Py.truthyQ end_arg &&
          match end_arg with
          | Some t => Py.le t start_arg
          | None => false
          end
  then (1, w)
  else
    let e := init url folder interval_arg quality_arg width_arg start_arg end_arg in
    match run e env (negb no_play) (negb no_report) w with
    | (Val true, w') => (0, w')
    | (_, w') => (1, w')
    end.

(** ** File names and the check of the URL: [utils.py]

    Strings are sequences of code points below 256. *)

(** The character class of the first substitution: the characters
    < > : / \ | ? and the star, and the double quote (code 34). *)
Definition reserved (c : ascii) : bool :=
  existsb (Ascii.eqb c) ["<"; ">"; ":"; "034"; "/"; "\"; "|"; "?"; "*"]%char.

(** The first [re.sub]: every reserved character becomes an underscore. *)
Fixpoint replace_reserved (s : string) : string :=
  match s with
  | EmptyString => EmptyString
  | String c r =>
      String (if reserved c then "_"%char else c) (replace_reserved r)
  end.

(** The second [re.sub], of [_+] by one underscore: an underscore is
    dropped when another follows it, so that one is left of every run. *)
Fixpoint collapse_underscores (s : string) : string :=
  match s with
  | EmptyString => EmptyString
  | String c r =>
      if Ascii.eqb c "_" then
        match r with
        | String c' _ =>
            if Ascii.eqb c' "_" then collapse_underscores r
            else String c (collapse_underscores r)
        | EmptyString => String c EmptyString
        end
      else String c (collapse_underscores r)
  end.

(** [str(n)] of an int, as an f-string formats it. *)
Definition str (n : Z) : string :=
  DecimalString.NilZero.string_of_int (Z.to_int n).

(** [sanitize_filename]; [now] is the value of [int(time.time())]. *)
Definition sanitize_filename (now : Z) (filename : string) : string :=
  let sanitized := replace_reserved filename in
  let sanitized := collapse_underscores sanitized in
  if String.eqb sanitized EmptyString || String.eqb sanitized "_"
  then String.append "video_" (String.append (str now) ".mp4")
  else sanitized.

(** [c in s] for one character. *)
Definition has_char (c : ascii) (s : string) : bool :=
  existsb (Ascii.eqb c) (list_ascii_of_string s).

(** [os.path.basename(p)] of [posixpath]: what follows the last slash. *)
Fixpoint basename (p : string) : string :=
  match p with
  | EmptyString => EmptyString
  | String c r =>
      if has_char "/" r then basename r
      else if Ascii.eqb c "/" then r else p
  end.

(** The name [download_video] gives the file, lines 75 to 80; [path] is
    [urlparse(self.video_url).path], [now] the clock read by
    [download_video] and [now'] the one read by [sanitize_filename]. *)
Definition download_filename (now now' : Z) (path : string) : string :=
  let filename := basename path in
  let filename :=
    if String.eqb filename EmptyString || negb (has_char "." filename)
    then String.append "downloaded_video_" (String.append (str now) ".mp4")
    else filename in
  sanitize_filename now' filename.

(** [c.lower()] of one code point below 256: the letters A to Z and the
    capital letters of Latin-1 have their small letter 32 places up. *)
Definition lower_char (c : ascii) : ascii :=
  let n := nat_of_ascii c in
  if ((65 <=? n) && (n <=? 90) || (192 <=? n) && (n <=? 214)
      || (216 <=? n) && (n <=? 222))%nat
  then ascii_of_nat (n + 32)
  else c.

(** [s.lower()] *)
Fixpoint lower (s : string) : string :=
  match s with
  | EmptyString => EmptyString
  | String c r => String (lower_char c) (lower r)
  end.

(** [needle in hay] *)
Fixpoint contains (needle hay : string) : bool :=
  String.prefix needle hay ||
  match hay with
  | String _ r => contains needle r
  | EmptyString => false
  end.

(** [s.endswith(ext)] *)
Fixpoint endswith (s ext : string) : bool :=
  String.eqb s ext ||
  match s with
  | String _ r => endswith r ext
  | EmptyString => false
  end.

Definition video_extensions : list string :=
  [".mp4"; ".avi"; ".mov"; ".mkv"; ".flv"; ".wmv"; ".webm"; ".m4v"]%string.

(** [validate_url]. [head] is the [content-type] header of the answer to
    the [HEAD] request (the empty string when it has none), or [None] when
    the request raises an exception derived from [Exception]; [path] is
    [urlparse(url).path]. *)
Definition validate_url (head : option string) (path : string) : bool :=
  match head with
  | None => true
  | Some content_type =>
      let content_type := lower content_type in
      if contains "video" content_type then true
      else if existsb (endswith (lower path)) video_extensions then true
      else false
  end.

(** ** The context manager of [VideoFrameExtractor] *)

(** [try: m except: h], the bare handler: every exception is caught. *)
Definition try_except_all {A} (m : M A) (h : M A) : M A :=
  fun w =>
    match m w with
    | (Exn _, w') => h w'
    | r => r
    end.

(** [VideoFrameExtractor.__exit__]; an empty name is falsy. *)
Definition __exit__ (env : Env) : M unit :=
  p <- get_video_path ;;
  match p with
  | None => ret tt
  | Some name =>
      if String.eqb name EmptyString then ret tt else
      present <- path_exists name ;;
      if present then try_except_all (os_remove env name) (ret tt)
      else ret tt
  end.

(** [with extractor: body]. [__enter__] returns [self]; [__exit__] returns
    [None], so that an exception of the body is raised again. *)
Definition with_extractor {A} (env : Env) (body : M A) : M A :=
  try_finally body (__exit__ env).

(** ** Inputs used in the evaluations *)

Definition empty_world : World :=
  mkWorld [] [] [] (mkMeta false None) None.

Definition quiet_env (v : option Video) : Env :=
  mkEnv "video.mp4" DownloadOk v (fun _ => WriteOk) true true true false [] [] 0 None.

Definition uniform_video (fps : Q) (n : nat) (h w : Z) : Video :=
  mkVideo fps (Z.of_nat n) w h (repeat (mkFrame h w) n).

Definition selected_indices (w : World) : list Z :=
  map frame_index (imwrite_calls w).

(** An environment in which everything works but [imwrite], which behaves
    as [iw] says. *)
Definition env_with (v : Video) (iw : SavedFrame -> WriteResult) : Env :=
  mkEnv "video.mp4" DownloadOk (Some v) iw true true true false [] [] 0 None.

(** Every write succeeds but the one of the frame numbered 1, which returns
    [False]. *)
Definition second_write_fails (sf : SavedFrame) : WriteResult :=
  if sequence_index sf =? 1 then WriteFalse else WriteOk.

(** ** Vocabulary of the statements *)

(** The frame a capture positioned at [i] reads. *)
Definition frame_at (v : Video) (i : Z) : option Frame :=
  fst (cap_read (mkCapture v i)).

(** [lo, lo+1, ..., hi-1]. *)
Definition zrange (lo hi : Z) : list Z :=
  map (fun k => lo + Z.of_nat k) (seq 0 (Z.to_nat (hi - lo))).

(** The test [(frame_count - start_frame) % interval_frames == 0]. *)
Definition on_interval (start_frame interval_frames i : Z) : bool :=
  (i - start_frame) mod interval_frames =? 0.

(** The sampler after the frame at [frame_count] has been handled. *)
Definition advance (s : Sampler) (saved : Z) : Sampler :=
  mkSampler (mkCapture (cap_video (s_cap s)) (frame_count s + 1))
            (s_fps s) (s_start_frame s) (s_end_frame s) (s_interval_frames s)
            (frame_count s + 1) saved.

(** The call of [imwrite] the sampler in state [s] makes for image [f']. *)
Definition call_for (e : VideoFrameExtractor) (s : Sampler) (f' : Frame)
  : SavedFrame :=
  mkSaved (saved_count s) (current_time_of (frame_count s) (s_fps s))
          (frame_count s) (shape1 f') (shape0 f') (quality e).

(** The world after a call of [imwrite] that returned [written], and the
    debug line that follows it. *)
Definition after_call (e : VideoFrameExtractor) (w : World) (sf : SavedFrame)
    (written : bool) : World :=
  mkWorld (if written then files w ++ [FrameFile (output_folder e) sf]
           else files w)
          (log w ++ [mkLog DEBUG "Saved"])
          (imwrite_calls w ++ [sf]) (metadata w) (video_path w).

(** The six ways one turn of the sampling loop can go. *)
Inductive BodyCase (e : VideoFrameExtractor) (env : Env) (s : Sampler)
    (w : World) : result (Sampler + Sampler) * World -> Prop :=
| BodyExit :
    s_end_frame s <= frame_count s \/
    frame_at (cap_video (s_cap s)) (frame_count s) = None ->
    BodyCase e env s w (Val (inr s), w)
| BodySkip f :
    frame_count s < s_end_frame s ->
    frame_at (cap_video (s_cap s)) (frame_count s) = Some f ->
    s_interval_frames s <> 0 ->
    on_interval (s_start_frame s) (s_interval_frames s) (frame_count s) = false ->
    BodyCase e env s w (Val (inl (advance s (saved_count s))), w)
| BodySave f f' (written : bool) :
    frame_count s < s_end_frame s ->
    frame_at (cap_video (s_cap s)) (frame_count s) = Some f ->
    s_interval_frames s <> 0 ->
    on_interval (s_start_frame s) (s_interval_frames s) (frame_count s) = true ->
    downscale e f = Val f' ->
    imwrite env (call_for e s f') = (if written then WriteOk else WriteFalse) ->
    BodyCase e env s w
      (Val (inl (advance s (saved_count s + 1))),
       after_call e w (call_for e s f') written)
| BodyZeroDivision f :
    frame_count s < s_end_frame s ->
    frame_at (cap_video (s_cap s)) (frame_count s) = Some f ->
    s_interval_frames s = 0 ->
    BodyCase e env s w (Exn ZeroDivisionError, w)
| BodyResizeRaises f x :
    frame_count s < s_end_frame s ->
    frame_at (cap_video (s_cap s)) (frame_count s) = Some f ->
    s_interval_frames s <> 0 ->
    on_interval (s_start_frame s) (s_interval_frames s) (frame_count s) = true ->
    downscale e f = Exn x ->
    is_Exception x = true ->
    BodyCase e env s w (Exn x, w)
| BodyWriteRaises f f' :
    frame_count s < s_end_frame s ->
    frame_at (cap_video (s_cap s)) (frame_count s) = Some f ->
    s_interval_frames s <> 0 ->
    on_interval (s_start_frame s) (s_interval_frames s) (frame_count s) = true ->
    downscale e f = Val f' ->
    imwrite env (call_for e s f') = WriteRaises ->
    BodyCase e env s w
      (Exn CvError,
       mkWorld (files w) (log w) (imwrite_calls w ++ [call_for e s f'])
               (metadata w) (video_path w)).

(** [imwrite] wrote the file of this call. *)
Definition written (env : Env) (sf : SavedFrame) : bool :=
  match imwrite env sf with
  | WriteOk => true
  | _ => false
  end.

(** [w'] is [w] after the calls [new] of [imwrite]: the calls are recorded in
    order, the files of the calls that succeeded are added in order, only
    debug lines are logged, and nothing else changes. *)
Definition Extends (e : VideoFrameExtractor) (env : Env) (w w' : World)
    (new : list SavedFrame) : Prop :=
  imwrite_calls w' = imwrite_calls w ++ new /\
  files w' = files w ++ map (FrameFile (output_folder e)) (filter (written env) new) /\
  metadata w' = metadata w /\
  video_path w' = video_path w /\
  exists l, log w' = log w ++ l /\ Forall (fun x => log_level x = DEBUG) l.

(** What a call of [imwrite] made by the sampler looks like: the image is the
    downscaled frame at [frame_index], the time stamp is the double
    [frame_index / fps], the quality is the configured one, and
    [frame_index] passes the interval test inside the window. *)
Definition CallOk (e : VideoFrameExtractor) (v : Video) (fps : Q)
    (start_frame interval_frames end_frame : Z) (sf : SavedFrame) : Prop :=
  exists f f',
    frame_at v (frame_index sf) = Some f /\
    downscale e f = Val f' /\
    saved_width sf = shape1 f' /\
    saved_height sf = shape0 f' /\
    timestamp sf = current_time_of (frame_index sf) fps /\
    jpeg_quality sf = quality e /\
    interval_frames <> 0 /\
    on_interval start_frame interval_frames (frame_index sf) = true /\
    frame_index sf < end_frame.

(** The sampler as [extract_frames] has set it up when the loop starts. *)
Definition initial_sampler (e : VideoFrameExtractor) (v : Video) : Sampler :=
  mkSampler (mkCapture v (start_frame_of e (prop_fps v)))
            (prop_fps v)
            (start_frame_of e (prop_fps v))
            (end_frame_of e (prop_fps v) (prop_frame_count v))
            (interval_frames_of e (prop_fps v))
            (start_frame_of e (prop_fps v)) 0.

(** The frame files among a list of files, in order. *)
Fixpoint frame_files (l : list File) : list SavedFrame :=
  match l with
  | [] => []
  | FrameFile _ sf :: r => sf :: frame_files r
  | _ :: r => frame_files r
  end.

(** The log has gained no line above the debug and info levels. *)
Definition quiet_log (l : list LogEntry) : Prop :=
  Forall (fun x => log_level x = DEBUG \/ log_level x = INFO) l.

(** An expression that has a value or raises an exception derived from
    [Exception]. *)
Definition Tame {A} (r : result A) : Prop :=
  r <> Diverge /\ forall x, r = Exn x -> is_Exception x = true.

(** *** Frame conditions *)

(** Every run of [m] takes a world to one related to it by [R]. *)
Definition Keeps (R : World -> World -> Prop) {A} (m : M A) : Prop :=
  forall w, R w (snd (m w)).

(** What [m] raises derives from [Exception]. *)
Definition Catchable {A} (m : M A) : Prop :=
  forall w x, fst (m w) = Exn x -> is_Exception x = true.

(** [m] raises nothing. *)
Definition NoRaise {A} (m : M A) : Prop :=
  forall w x, fst (m w) <> Exn x.

(** [m] ends. *)
Definition Ends {A} (m : M A) : Prop :=
  forall w, fst (m w) <> Diverge.

(** The sampler task is in a state the loop can be in: the capture stands
    at the frame the counter names. *)
Definition ss_ok (ss : SamplerSt) : Prop :=
  match ss with
  | S_Loop s => cap_pos (s_cap s) = frame_count s
  | _ => True
  end.

(** What is left of [extract_frames] when the loop still has [fuel] turns
    to make from [s]: the loop, the statements after it and the handler. *)
Definition finish_loop (e : VideoFrameExtractor) (env : Env) (fuel : nat)
    (s : Sampler) : M unit :=
  _ <- try_except
         (s' <- while fuel (sampler_body e env) s ;; sampler_close s')
         extract_frames_except ;;
  ret tt.

(** Two worlds that differ in their logs at most. *)
Definition SameButLog (w w' : World) : Prop :=
  files w' = files w /\
  imwrite_calls w' = imwrite_calls w /\
  metadata w' = metadata w /\
  video_path w' = video_path w.

(** [m] does not look at the log: from worlds that differ in their logs it
    gives the same result and worlds that differ in their logs. *)
Definition Oblivious {A} (m : M A) : Prop :=
  forall w1 w2,
    SameButLog w1 w2 ->
    fst (m w1) = fst (m w2) /\ SameButLog (snd (m w1)) (snd (m w2)).

(** The calls of [imwrite] and [self.metadata] of [w'] are those of [w]. *)
Definition SameSampling (w w' : World) : Prop :=
  imwrite_calls w' = imwrite_calls w /\ metadata w' = metadata w.

(** Two outcomes with the same result and worlds that differ in their
    logs. *)
Definition Agree {A} (x y : result A * World) : Prop :=
  fst x = fst y /\ SameButLog (snd x) (snd y).

(** The same, unless the first run never ends: the two have then still made
    the same calls of [imwrite] and hold the same metadata. *)
Definition AgreeUnlessDiverges {A} (x y : result A * World) : Prop :=
  (fst x = Diverge /\ SameSampling (snd x) (snd y)) \/ Agree x y.

(** [m] ends, and when it returns a value that value satisfies [P]. *)
Definition Returns {A} (P : A -> Prop) (m : M A) : Prop :=
  forall w,
    match fst (m w) with
    | Val a => P a
    | Exn _ => True
    | Diverge => False
    end.

(** No frame is sampled: no call of [imwrite] is added, and the only files
    that can be new are the metadata file and the downloaded video. *)
Definition NoSampling (e : VideoFrameExtractor) (env : Env) (w w' : World)
  : Prop :=
  imwrite_calls w' = imwrite_calls w /\
  forall f, In f (files w') ->
            In f (files w) \/ f = MetadataFile (output_folder e) \/
            f = VideoFile (download_name env).

(** If the file [name] exists, it is the one [self.video_path] names. *)
Definition PathKnown (name : string) (w : World) : Prop :=
  In (VideoFile name) (files w) -> video_path w = Some name.

(** [PathKnown] is kept from [w] to [w']. *)
Definition KeepsPathKnown (name : string) (w w' : World) : Prop :=
  PathKnown name w -> PathKnown name w'.

(** Everything works, but the downloaded file cannot be removed. *)
Definition env_remove_fails (v : Video) : Env :=
  mkEnv "video.mp4" DownloadOk (Some v) (fun _ => WriteOk) true true false
        false [] [] 0 None.

(** A run with playback: the user pauses, resumes and quits, while the two
    tasks take turns. *)
Definition env_playing (v : Video) : Env :=
  mkEnv "video.mp4" DownloadOk (Some v) (fun _ => WriteOk) true true true
        false [112; 112; 113]
        [SamplerTask; PlayerTask; PlayerTask; SamplerTask; PlayerTask]
        1000 None.



(** *** File names *)

(** The characters of a string. *)
Definition chars (s : string) : list ascii := list_ascii_of_string s.

(** The characters that are neither reserved nor an underscore. *)
Definition significant (c : ascii) : bool :=
  negb (reserved c) && negb (Ascii.eqb c "_").

(** The string begins with an underscore. *)
Definition leads (s : string) : bool :=
  match s with
  | String c _ => Ascii.eqb c "_"
  | EmptyString => false
  end.

(** Two underscores stand side by side somewhere in the string. *)
Fixpoint double_underscore (s : string) : bool :=
  match s with
  | EmptyString => false
  | String c r => Ascii.eqb c "_" && leads r || double_underscore r
  end.

(** The name [sanitize_filename] falls back on. *)
Definition fallback_name (now : Z) : string :=
  String.append "video_" (String.append (str now) ".mp4").

(** *** The player *)

(** The turns an unattended player has left at most: one for each frame
    from its read position to the last frame that can be decoded. *)
Definition frames_left (p : Player) : nat :=
  Z.to_nat (Z.of_nat (List.length (decodable (cap_video (p_cap p))))
            - Z.max 0 (cap_pos (p_cap p))).

(** A key that neither quits, nor toggles the pause, nor restarts. *)
Definition idle_key (k : Z) : Prop :=
  Z.land k 255 <> ord_q /\ Z.land k 255 <> ord_p /\ Z.land k 255 <> ord_r.

(** *** The coordinator *)

(** The download completes. *)
Definition download_succeeds (env : Env) : bool :=
  match download_outcome env with
  | DownloadOk => true
  | _ => false
  end.

(** The test [self.end_time and self.end_time <= self.start_time] of [run]. *)
Definition window_rejected (e : VideoFrameExtractor) : bool :=
  Py.truthyQ (end_time e) &&
  match end_time e with
  | Some t => Py.le t (start_time e)
  | None => false
  end.

(** The world in which [self.video_path] is already the name of the
    download. *)
Definition with_path (env : Env) (w : World) : World :=
  mkWorld (files w) (log w) (imwrite_calls w) (metadata w)
          (Some (download_name env)).

(** The same extractor, with no end time. *)
Definition without_end_time (e : VideoFrameExtractor) : VideoFrameExtractor :=
  mkExtractor (video_url e) (output_folder e) (interval e) (quality e)
              (max_width e) (start_time e) None.

(** Two computations that do the same from every world. *)
Definition Same {A} (m1 m2 : M A) : Prop := forall w, m1 w = m2 w.

(** The player task is in a state that satisfies [Inv] while in its loop,
    and it does not wait for a key without a limit. *)
Definition ps_ok (Inv : Player -> Prop) (ps : PlayerSt) : Prop :=
  match ps with
  | P_Loop p => Inv p
  | P_Waiting => False
  | _ => True
  end.

(** A player that is playing, has no key to come, waits for a key for a
    time that ends, and has fewer frames left than [fuel] turns. *)
Definition unattended (fuel : nat) (p : Player) : Prop :=
  p_paused p = false /\ p_keys p = [] /\ 0 < p_delay p /\
  (frames_left p < fuel)%nat.

(** ** Facts of the arithmetic *)

Section Arithmetic.

Lemma int_nonneg_floor (x : Q) : (0 <= x)%Q -> Py.int x = Qfloor x.
Proof.
  destruct x as [n d]; unfold Py.int, Qfloor, Qle; simpl; intros H.
  apply Z.quot_div_nonneg; lia.
Qed.

Lemma gt0_true (x : Q) : Py.gt0 x = true <-> (0 < x)%Q.
Proof.
  unfold Py.gt0. rewrite negb_true_iff. split; intros H.
  - apply Qnot_le_lt. intros C. apply Qle_bool_iff in C. congruence.
  - destruct (Qle_bool x 0) eqn:E; [|reflexivity].
    apply Qle_bool_iff in E. exfalso. eapply Qlt_not_le; eassumption.
Qed.

Lemma gt0_false (x : Q) : Py.gt0 x = false <-> (x <= 0)%Q.
Proof.
  unfold Py.gt0. rewrite negb_false_iff. apply Qle_bool_iff.
Qed.

Lemma truthyQ_Some (t : Q) : Py.truthyQ (Some t) = true <-> ~ (t == 0)%Q.
Proof.
  unfold Py.truthyQ. rewrite negb_true_iff. split; intros H.
  - intros C. apply Qeq_bool_iff in C. congruence.
  - destruct (Qeq_bool t 0) eqn:E; [|reflexivity].
    apply Qeq_bool_iff in E. contradiction.
Qed.

Lemma truthyQ_Some_false (t : Q) : Py.truthyQ (Some t) = false <-> (t == 0)%Q.
Proof.
  unfold Py.truthyQ. rewrite negb_false_iff. apply Qeq_bool_iff.
Qed.

Lemma max0_nonneg (x : Q) : (0 <= Py.max0 x)%Q.
Proof.
  unfold Py.max0. destruct (Py.gt0 x) eqn:E.
  - apply gt0_true in E. now apply Qlt_le_weak.
  - apply Qle_refl.
Qed.

Lemma max0_of_negative (x : Q) : (x < 0)%Q -> Py.max0 x = 0%Q.
Proof.
  intros H. unfold Py.max0.
  destruct (Py.gt0 x) eqn:E; [|reflexivity].
  apply gt0_true in E. exfalso.
  apply (Qlt_irrefl 0). eapply Qlt_trans; eassumption.
Qed.

Lemma max0_of_positive (x : Q) : (0 < x)%Q -> Py.max0 x = x.
Proof.
  intros H. unfold Py.max0. apply gt0_true in H. now rewrite H.
Qed.

(** *** Rounding to the nearest double *)

Lemma round_cases (x : Q) : Py.round x = Qfloor x \/ Py.round x = Qfloor x + 1.
Proof.
  unfold Py.round. destruct (_ ?= _)%Q; [destruct (Z.even _)| |]; auto.
Qed.

Lemma round_inject_Z (n : Z) : Py.round (inject_Z n) = n.
Proof.
  unfold Py.round. rewrite Qfloor_Z.
  assert (H : (inject_Z n - inject_Z n ?= 1 # 2)%Q = Lt).
  { rewrite <- Qlt_alt. lra. }
  now rewrite H.
Qed.

Lemma round_le_compat (x y : Q) : (x <= y)%Q -> Py.round x <= Py.round y.
Proof.
  intros H. pose proof (Qfloor_resp_le _ _ H) as F.
  destruct (Z.eq_dec (Qfloor x) (Qfloor y)) as [E|N].
  - unfold Py.round. rewrite <- E.
    destruct (x - inject_Z (Qfloor x) ?= 1 # 2)%Q eqn:Cx;
    destruct (y - inject_Z (Qfloor x) ?= 1 # 2)%Q eqn:Cy;
      try lia; try (destruct (Z.even (Qfloor x)); lia); exfalso;
      try rewrite <- Qeq_alt in *; try rewrite <- Qlt_alt in *;
      try rewrite <- Qgt_alt in *; lra.
  - destruct (round_cases x), (round_cases y); lia.
Qed.

Lemma round_nonneg (x : Q) : (0 <= x)%Q -> 0 <= Py.round x.
Proof.
  intros H. change 0 with (Py.round (inject_Z 0)). now apply round_le_compat.
Qed.

Lemma pow2_pos (e : Z) : (0 < 2 ^ e)%Q.
Proof. apply Qpower_0_lt. reflexivity. Qed.

Lemma pow2_plus (a b : Z) : (2 ^ (a + b) == 2 ^ a * 2 ^ b)%Q.
Proof. apply Qpower_plus. discriminate. Qed.

Lemma pow2_Z (n : Z) : 0 <= n -> (inject_Z (2 ^ n) == 2 ^ n)%Q.
Proof. intros H. now rewrite Zpower_Qpower. Qed.

Lemma pow2_le (a b : Z) : a <= b -> (2 ^ a <= 2 ^ b)%Q.
Proof. intros H. apply Qpower_le_compat_l; [exact H|discriminate]. Qed.

Lemma pow2_lt_inv (a b : Z) : (2 ^ a < 2 ^ b)%Q -> a < b.
Proof. intros H. apply Qpower_lt_compat_l_inv with (q := 2%Q); [exact H|reflexivity]. Qed.

Lemma ilog2_spec (x : Q) :
  (0 < x)%Q -> (2 ^ Py.ilog2 x <= x /\ x < 2 ^ (Py.ilog2 x + 1))%Q.
Proof.
  intros Hx. destruct x as [n d]. unfold Py.ilog2. cbn [Qnum Qden].
  assert (Hn : 0 < n) by (unfold Qlt in Hx; simpl in Hx; lia).
  pose proof (Z.log2_spec n Hn) as [Ln Un].
  pose proof (Z.log2_spec (Z.pos d) (Pos2Z.is_pos d)) as [Ld Ud].
  pose proof (Z.log2_nonneg n) as An.
  pose proof (Z.log2_nonneg (Z.pos d)) as Ad.
  set (a := Z.log2 n) in *. set (b := Z.log2 (Z.pos d)) in *.
  assert (Qn : (2 ^ a <= inject_Z n /\ inject_Z n < 2 ^ (a + 1))%Q).
  { rewrite <- !pow2_Z by lia. rewrite <- Zle_Qle, <- Zlt_Qlt.
    replace (a + 1) with (Z.succ a) by lia. split; assumption. }
  assert (Qd : (2 ^ b <= inject_Z (Z.pos d) /\ inject_Z (Z.pos d) < 2 ^ (b + 1))%Q).
  { rewrite <- !pow2_Z by lia. rewrite <- Zle_Qle, <- Zlt_Qlt.
    replace (b + 1) with (Z.succ b) by lia. split; assumption. }
  assert (X : (n # d == inject_Z n / inject_Z (Z.pos d))%Q) by apply Qmake_Qdiv.
  assert (Dpos : (0 < inject_Z (Z.pos d))%Q) by (rewrite <- (Zlt_Qlt 0); lia).
  pose proof (pow2_pos (a - b)) as P0.
  pose proof (pow2_pos (a - b - 1)) as P1.
  pose proof (pow2_pos b) as Pb.
  assert (E1 : (2 ^ (a - b - 1 + 1) == 2 ^ (a - b))%Q)
    by (replace (a - b - 1 + 1) with (a - b) by lia; reflexivity).
  assert (Ea : (2 ^ (a + 1) == 2 ^ (a - b + 1) * 2 ^ b)%Q).
  { rewrite <- pow2_plus. replace (a - b + 1 + b) with (a + 1) by lia. reflexivity. }
  assert (Ea' : (2 ^ a == 2 ^ (a - b - 1) * 2 ^ (b + 1))%Q).
  { rewrite <- pow2_plus. replace (a - b - 1 + (b + 1)) with a by lia. reflexivity. }
  destruct (Qle_bool (2 ^ (a - b)) (n # d)) eqn:C.
  - apply Qle_bool_iff in C. split; [exact C|].
    rewrite X. apply Qlt_shift_div_r; [exact Dpos|].
    apply Qlt_le_trans with (2 ^ (a + 1))%Q; [tauto|].
    rewrite Ea. apply Qmult_le_l; [apply pow2_pos | tauto].
  - assert (C' : (n # d < 2 ^ (a - b))%Q).
    { apply Qnot_le_lt. intros H. apply Qle_bool_iff in H. congruence. }
    rewrite E1. split; [|exact C'].
    rewrite X. apply Qle_shift_div_l; [exact Dpos|].
    apply Qle_trans with (2 ^ a)%Q; [|tauto].
    rewrite Ea'. apply Qmult_le_l; [apply pow2_pos|]. apply Qlt_le_weak; tauto.
Qed.

Lemma ilog2_le_compat (x y : Q) :
  (0 < x)%Q -> (x <= y)%Q -> Py.ilog2 x <= Py.ilog2 y.
Proof.
  intros Hx Hxy.
  destruct (ilog2_spec x Hx) as [Lx _].
  destruct (ilog2_spec y) as [_ Uy]; [lra|].
  assert (H : (2 ^ Py.ilog2 x < 2 ^ (Py.ilog2 y + 1))%Q) by lra.
  apply pow2_lt_inv in H. lia.
Qed.

Lemma nearest_pos_nonneg (x : Q) : (0 <= x)%Q -> (0 <= Py.nearest_pos x)%Q.
Proof.
  intros H. unfold Py.nearest_pos.
  pose proof (pow2_pos (Py.ulp_exp x)) as P.
  apply Qmult_le_0_compat; [|lra].
  rewrite <- (Zle_Qle 0). apply round_nonneg.
  apply Qle_shift_div_l; [exact P|lra].
Qed.

Lemma scaled_round_le (x : Q) (e k : Z) :
  (0 <= x)%Q -> (x <= 2 ^ k)%Q ->
  (inject_Z (Py.round (x / 2 ^ e)) * 2 ^ e <= 2 ^ k)%Q.
Proof.
  intros H0 H. pose proof (pow2_pos e) as P.
  destruct (Z.le_gt_cases e k) as [G|G].
  - assert (R : Py.round (x / 2 ^ e) <= 2 ^ (k - e)).
    { rewrite <- (round_inject_Z (2 ^ (k - e))). apply round_le_compat.
      rewrite pow2_Z by lia. apply Qle_shift_div_r; [exact P|].
      rewrite <- pow2_plus. now replace (k - e + e) with k by lia. }
    rewrite Zle_Qle, pow2_Z in R by lia.
    assert (E : (2 ^ k == 2 ^ (k - e) * 2 ^ e)%Q).
    { rewrite <- pow2_plus. now replace (k - e + e) with k by lia. }
    rewrite E. apply Qmult_le_compat_r; [exact R|lra].
  - assert (R : Py.round (x / 2 ^ e) <= 0).
    { change 0 with (Py.round (1 # 2)). apply round_le_compat.
      apply Qle_shift_div_r; [exact P|].
      apply Qle_trans with (2 ^ k)%Q; [exact H|].
      assert (E : ((1 # 2) * 2 ^ e == 2 ^ (-1 + e))%Q)
        by (rewrite pow2_plus; reflexivity).
      rewrite E. apply pow2_le. lia. }
    rewrite Zle_Qle in R. pose proof (pow2_pos k) as Pk.
    apply Qle_trans with 0%Q; [|now apply Qlt_le_weak].
    assert (T : (inject_Z (Py.round (x / 2 ^ e)) * 2 ^ e <= inject_Z 0 * 2 ^ e)%Q).
    { apply Qmult_le_compat_r; [exact R|now apply Qlt_le_weak]. }
    now rewrite Qmult_0_l in T.
Qed.

Lemma scaled_round_ge (x : Q) (e k : Z) :
  e <= k -> (2 ^ k <= x)%Q ->
  (2 ^ k <= inject_Z (Py.round (x / 2 ^ e)) * 2 ^ e)%Q.
Proof.
  intros G H. pose proof (pow2_pos e) as P.
  assert (R : 2 ^ (k - e) <= Py.round (x / 2 ^ e)).
  { rewrite <- (round_inject_Z (2 ^ (k - e))) at 1. apply round_le_compat.
    rewrite pow2_Z by lia. apply Qle_shift_div_l; [exact P|].
    rewrite <- pow2_plus. now replace (k - e + e) with k by lia. }
  rewrite Zle_Qle, pow2_Z in R by lia.
  assert (E : (2 ^ k == 2 ^ (k - e) * 2 ^ e)%Q).
  { rewrite <- pow2_plus. now replace (k - e + e) with k by lia. }
  rewrite E. apply Qmult_le_compat_r; [exact R|lra].
Qed.

Lemma nearest_pos_le_compat (x y : Q) :
  (0 < x)%Q -> (x <= y)%Q -> (Py.nearest_pos x <= Py.nearest_pos y)%Q.
Proof.
  intros Hx Hxy. assert (Hy : (0 < y)%Q) by lra.
  pose proof (ilog2_le_compat x y Hx Hxy) as Hk.
  destruct (ilog2_spec x Hx) as [Lx Ux].
  destruct (ilog2_spec y Hy) as [Ly Uy].
  unfold Py.nearest_pos.
  destruct (Z.eq_dec (Py.ulp_exp x) (Py.ulp_exp y)) as [E|N].
  - rewrite <- E. pose proof (pow2_pos (Py.ulp_exp x)) as P.
    apply Qmult_le_compat_r; [|lra].
    rewrite <- Zle_Qle. apply round_le_compat.
    apply Qmult_le_compat_r; [exact Hxy|].
    apply Qlt_le_weak, Qinv_lt_0_compat, P.
  - unfold Py.ulp_exp in *.
    apply Qle_trans with (2 ^ (Py.ilog2 x + 1))%Q.
    + apply scaled_round_le; lra.
    + apply Qle_trans with (2 ^ Py.ilog2 y)%Q; [apply pow2_le; lia|].
      apply scaled_round_ge; [lia|exact Ly].
Qed.

Lemma nearest_nonneg (x : Q) : (0 <= x)%Q -> (0 <= Py.nearest x)%Q.
Proof.
  intros H. unfold Py.nearest.
  destruct (x ?= 0)%Q eqn:C.
  - lra.
  - rewrite <- Qlt_alt in C. lra.
  - now apply nearest_pos_nonneg.
Qed.

Lemma nearest_nonpos (x : Q) : (x <= 0)%Q -> (Py.nearest x <= 0)%Q.
Proof.
  intros H. unfold Py.nearest.
  destruct (x ?= 0)%Q eqn:C.
  - lra.
  - rewrite <- Qlt_alt in C.
    assert (0 <= Py.nearest_pos (- x))%Q by (apply nearest_pos_nonneg; lra). lra.
  - rewrite <- Qgt_alt in C. lra.
Qed.

(** Rounding to the nearest double is monotone. *)
Lemma nearest_le_compat (x y : Q) :
  (x <= y)%Q -> (Py.nearest x <= Py.nearest y)%Q.
Proof.
  intros H.
  destruct (Qlt_le_dec 0 x) as [Px|Nx].
  - unfold Py.nearest.
    assert (Cx : (x ?= 0)%Q = Gt) by (rewrite <- Qgt_alt; lra).
    assert (Cy : (y ?= 0)%Q = Gt) by (rewrite <- Qgt_alt; lra).
    rewrite Cx, Cy. now apply nearest_pos_le_compat.
  - destruct (Qlt_le_dec y 0) as [Ny|Py].
    + unfold Py.nearest.
      assert (Cx : (x ?= 0)%Q = Lt) by (rewrite <- Qlt_alt; lra).
      assert (Cy : (y ?= 0)%Q = Lt) by (rewrite <- Qlt_alt; lra).
      rewrite Cx, Cy.
      assert (Py.nearest_pos (- y) <= Py.nearest_pos (- x))%Q
        by (apply nearest_pos_le_compat; lra).
      lra.
    + pose proof (nearest_nonpos x Nx). pose proof (nearest_nonneg y Py). lra.
Qed.

(** *** Conversions *)

Lemma nearest_zero (x : Q) : (x == 0)%Q -> Py.nearest x = 0%Q.
Proof.
  intros H. unfold Py.nearest. apply Qeq_alt in H. now rewrite H.
Qed.

Lemma fl_zero (x : Q) : (x == 0)%Q -> Py.fl x = Py.Fin 0.
Proof.
  intros H. unfold Py.fl. rewrite (nearest_zero x H). reflexivity.
Qed.

Lemma fl_Fin (x y : Q) : Py.fl x = Py.Fin y -> y = Py.nearest x.
Proof.
  unfold Py.fl.
  destruct (Qle_bool (2 ^ 1024) (Py.nearest x)); [discriminate|].
  destruct (Qle_bool (Py.nearest x) (- 2 ^ 1024)); [discriminate|].
  intros H. now inversion H.
Qed.

Lemma fl_nonneg (x y : Q) : (0 <= x)%Q -> Py.fl x = Py.Fin y -> (0 <= y)%Q.
Proof.
  intros H0 H. apply fl_Fin in H. subst y. now apply nearest_nonneg.
Qed.

Lemma int_nonneg (x : Q) : (0 <= x)%Q -> 0 <= Py.int x.
Proof.
  intros H. rewrite int_nonneg_floor by assumption.
  change 0 with (Qfloor 0). now apply Qfloor_resp_le.
Qed.

Lemma int_float_Val (x : Py.float) (n : Z) :
  int_float x = Val n -> exists q, x = Py.Fin q /\ n = Py.int q.
Proof.
  destruct x as [q|s]; simpl; [|discriminate].
  intros H. inversion H. now exists q.
Qed.

(** The integer of a product that is not negative is the floor of the
    double the product is rounded to. *)
Lemma int_float_floor (x : Q) :
  (0 <= x)%Q ->
  int_float (Py.fl x)
  = match Py.fl x with
    | Py.Fin y => Val (Qfloor y)
    | Py.Inf _ => Exn OverflowError
    end.
Proof.
  intros H. destruct (Py.fl x) as [y|s] eqn:E; [|reflexivity].
  simpl. f_equal. apply int_nonneg_floor. now apply (fl_nonneg x).
Qed.





Lemma int_float_nonneg (x : Q) (n : Z) :
  (0 <= x)%Q -> int_float (Py.fl x) = Val n -> 0 <= n.
Proof.
  intros H0 H. apply int_float_Val in H. destruct H as (q & E & ->).
  apply int_nonneg. now apply (fl_nonneg x).
Qed.

End Arithmetic.


(** ** The constructor *)

(** C10. For every integer quality given to the constructor, the stored
    quality is [max(1, min(100, quality))] and lies in [1, 100]; a negative
    start time is stored as 0 (the constructor is total: nothing is
    rejected), and the stored start time is never negative. *)
Theorem init_clamps_quality_and_start
    (url folder : string) (i : Q) (q : Z) (mw : option Z) (st : Q)
    (et : option Q) :
  quality (init url folder i q mw st et) = Z.max 1 (Z.min 100 q) /\
  1 <= quality (init url folder i q mw st et) <= 100 /\
  ((st < 0)%Q -> start_time (init url folder i q mw st et) = 0%Q) /\
  (0 <= start_time (init url folder i q mw st et))%Q.
Proof.
  simpl. repeat split; try lia.
  - apply max0_of_negative.
  - apply max0_nonneg.
Qed.

Lemma init_clamps_quality_and_start_witness :
  quality (init "u" "frames" 5 250 None (-3) None) = 100 /\
  quality (init "u" "frames" 5 (-7) None (-3) None) = 1 /\
  start_time (init "u" "frames" 5 250 None (-3) None) = 0%Q.
Proof.
  split; [|split].
  - exact (proj1 (init_clamps_quality_and_start "u" "frames" 5 250 None (-3) None)).
  - exact (proj1 (init_clamps_quality_and_start "u" "frames" 5 (-7) None (-3) None)).
  - apply (proj1 (proj2 (proj2
      (init_clamps_quality_and_start "u" "frames" 5 250 None (-3) None)))).
    reflexivity.
Defined.

(** ** Window arithmetic *)

(** C2, as stated, fails: with [end_time = 1], a frame rate of 1.75 and ten
    frames the code stops at frame 1, the claimed bound is
    [min(10, ceil(1.75)) = 2]. *)
Lemma end_frame_is_not_ceiling :
  end_frame (init "u" "frames" 5 95 None 0 (Some 1%Q)) (7 # 4) 10 = Val 1 /\
  end_frame_of (init "u" "frames" 5 95 None 0 (Some 1%Q)) (7 # 4) 10 = 1 /\
  1 <> Z.min 10 (Qceiling (1 * (7 # 4))).
Proof.
  split; [vm_compute; reflexivity|].
  split; [vm_compute; reflexivity | discriminate].
Qed.

(** C2, amended. For a start time [st >= 0], a frame rate [fps > 0] and a
    frame count [total >= 0], the products being the doubles that
    [st * fps] and [end_time * fps] are rounded to:
    [start_frame = floor(st * fps)], which is 0 when [st] is 0; when
    [end_time] is set and not zero,
    [end_frame = min(total, int(end_time * fps))], truncated toward zero,
    which is the floor for a positive [end_time], not the ceiling; when
    [end_time] is unset or zero, [end_frame = total].  Where a product is
    too large for a double, the conversion raises [OverflowError]. *)
Theorem window_arithmetic
    (url folder : string) (i : Q) (q : Z) (mw : option Z) (st : Q)
    (et : option Q) (fps : Q) (total : Z) :
  (0 <= st)%Q -> (0 < fps)%Q -> 0 <= total ->
  start_frame (init url folder i q mw st et) fps
  = match Py.mul st fps with
    | Py.Fin x => Val (Qfloor x)
    | Py.Inf _ => Exn OverflowError
    end /\
  ((st == 0)%Q -> start_frame (init url folder i q mw st et) fps = Val 0) /\
  match et with
  | Some t =>
      (~ (t == 0)%Q ->
       end_frame (init url folder i q mw st et) fps total
       = match Py.mul t fps with
         | Py.Fin x => Val (Z.min total (Py.int x))
         | Py.Inf _ => Exn OverflowError
         end) /\
      ((0 < t)%Q ->
       forall x, Py.mul t fps = Py.Fin x -> Py.int x = Qfloor x) /\
      ((t == 0)%Q ->
       end_frame (init url folder i q mw st et) fps total = Val total)
  | None => end_frame (init url folder i q mw st et) fps total = Val total
  end.
Proof.
  intros Hst Hfps Htot.
  assert (Hstart : forall b, Py.gt0 st = b ->
            start_frame (init url folder i q mw st et) fps
            = if b then int_float (Py.mul st fps) else Val 0).
  { intros b Hb. unfold start_frame, init; simpl.
    unfold Py.max0. rewrite Hb. destruct b.
    - now rewrite Hb.
    - reflexivity. }
  specialize (Hstart _ eq_refl).
  split; [|split].
  - destruct (Py.gt0 st) eqn:E; rewrite Hstart.
    + apply int_float_floor. apply Qmult_le_0_compat; [assumption|].
      now apply Qlt_le_weak.
    + apply gt0_false in E.
      assert (Hz : (st * fps == 0)%Q).
      { assert (H : (st == 0)%Q) by (apply Qle_antisym; assumption).
        rewrite H. apply Qmult_0_l. }
      unfold Py.mul. now rewrite (fl_zero _ Hz).
  - intros Hz. destruct (Py.gt0 st) eqn:E; rewrite Hstart; [|reflexivity].
    apply gt0_true in E. rewrite Hz in E. now apply Qlt_irrefl in E.
  - destruct et as [t|]; unfold end_frame; simpl.
    + split; [|split].
      * intros Hn. apply truthyQ_Some in Hn. unfold Py.truthyQ in Hn.
        rewrite Hn. destruct (Py.mul t fps); simpl; [|reflexivity].
        now rewrite Z.min_comm.
      * intros Hpos x Hx. apply int_nonneg_floor.
        apply (fl_nonneg (t * fps)); [|exact Hx].
        apply Qmult_le_0_compat; now apply Qlt_le_weak.
      * intros Hz. apply truthyQ_Some_false in Hz. unfold Py.truthyQ in Hz.
        rewrite Hz. simpl. now rewrite Z.min_id.
    + now rewrite Z.min_id.
Qed.

(** At 25 frames per second, a start time of 0.6 s and an end time of
    4.6 s: the product of 25 and the double nearest to 0.6 lies below 15
    and is rounded to 15.0, and the product of 25 and the double nearest to
    4.6 is rounded to a double below 115 and truncated to 114. *)
Lemma window_arithmetic_witness :
  start_frame (init "u" "frames" 2 95 None (Py.nearest 0.6)
                    (Some (Py.nearest 4.6))) 25 = Val 15 /\
  Qfloor (Py.nearest 0.6 * 25) = 14 /\
  end_frame (init "u" "frames" 2 95 None (Py.nearest 0.6)
                  (Some (Py.nearest 4.6))) 25 480 = Val 114.
Proof.
  assert (H0 : (0 <= Py.nearest 0.6)%Q)
    by (apply Qle_bool_iff; vm_compute; reflexivity).
  assert (H1 : (0 < 25)%Q) by reflexivity.
  assert (H2 : 0 <= 480) by lia.
  destruct (window_arithmetic "u" "frames" 2 95 None (Py.nearest 0.6)
              (Some (Py.nearest 4.6)) 25 480 H0 H1 H2) as [Hs [_ [He _]]].
  split; [|split].
  - rewrite Hs. vm_compute. reflexivity.
  - vm_compute. reflexivity.
  - rewrite He.
    + vm_compute. reflexivity.
    + intros C. apply Qeq_bool_iff in C. vm_compute in C. discriminate.
Defined.

(** ** Expressions that can raise *)

Section TameLaws.

Lemma tame_Val {A} (a : A) : Tame (Val a).
Proof. split; discriminate. Qed.

Lemma tame_Exn {A} (x : exn) : is_Exception x = true -> Tame (Exn (A := A) x).
Proof. intros H. split; [discriminate|]. intros y E. now inversion E; subst. Qed.

Lemma tame_and_then {A B} (r : result A) (k : A -> result B) :
  Tame r -> (forall a, Tame (k a)) -> Tame (and_then r k).
Proof.
  intros [Hd Hx] Hk. destruct r as [a|x|]; simpl.
  - apply Hk.
  - apply tame_Exn. now apply Hx.
  - contradiction.
Qed.

Lemma tame_int_float (x : Py.float) : Tame (int_float x).
Proof. destruct x; [apply tame_Val | now apply tame_Exn]. Qed.

Lemma tame_int_quotient (x : Py.float) : Tame (int_quotient x).
Proof. destruct x; [apply tame_Val | now apply tame_Exn]. Qed.

Lemma tame_cv2_resize (f : Frame) (nw nh : Z) : Tame (cv2_resize f nw nh).
Proof.
  unfold cv2_resize. destruct ((0 <? nw) && (0 <? nh));
    [apply tame_Val | now apply tame_Exn].
Qed.

Lemma tame_start_frame (e : VideoFrameExtractor) (fps : Q) :
  Tame (start_frame e fps).
Proof.
  unfold start_frame. destruct (Py.gt0 _); [apply tame_int_float|apply tame_Val].
Qed.

Lemma tame_end_frame (e : VideoFrameExtractor) (fps : Q) (total : Z) :
  Tame (end_frame e fps total).
Proof.
  unfold end_frame. apply tame_and_then; [|intros; apply tame_Val].
  destruct (end_time e) as [t|]; [|apply tame_Val].
  destruct (Py.truthyQ _); [apply tame_int_float|apply tame_Val].
Qed.

Lemma tame_interval_frames (e : VideoFrameExtractor) (fps : Q) :
  Tame (interval_frames e fps).
Proof. apply tame_int_float. Qed.

Lemma tame_display_frame (f : Frame) : Tame (display_frame f).
Proof.
  unfold display_frame. destruct (1200 <? shape1 f); [|apply tame_Val].
  apply tame_and_then; [apply tame_int_quotient|intros scale].
  apply tame_and_then; [apply tame_int_float|intros new_width].
  apply tame_and_then; [apply tame_int_float|intros new_height].
  apply tame_cv2_resize.
Qed.

End TameLaws.

(** ** The sampling loop, one turn *)

Section SamplerTurn.

Variables (e : VideoFrameExtractor) (env : Env).

Lemma sampler_eta (s : Sampler) :
  mkSampler (s_cap s) (s_fps s) (s_start_frame s) (s_end_frame s)
            (s_interval_frames s) (frame_count s) (saved_count s) = s.
Proof. now destruct s. Qed.

Lemma cap_read_at (c : Capture) :
  cap_read c =
  match frame_at (cap_video c) (cap_pos c) with
  | Some f => (Some f, mkCapture (cap_video c) (cap_pos c + 1))
  | None => (None, c)
  end.
Proof.
  unfold frame_at, cap_read; simpl.
  destruct ((0 <=? cap_pos c) &&
            (cap_pos c <? Z.of_nat (List.length (decodable (cap_video c))))) eqn:G;
    simpl; [|reflexivity].
  destruct (nth_error _ _) eqn:N; [reflexivity|].
  apply nth_error_None in N.
  apply andb_true_iff in G. destruct G as [G0 G1].
  apply Z.leb_le in G0. apply Z.ltb_lt in G1. lia.
Qed.

Lemma tame_downscale (f : Frame) : Tame (downscale e f).
Proof.
  unfold downscale.
  destruct (max_width e); [|apply tame_Val].
  repeat match goal with
         | |- context [if ?b then _ else _] => destruct b
         end; try apply tame_Val; try (apply tame_Exn; reflexivity).
  apply tame_and_then; [apply tame_int_quotient|intros scale].
  apply tame_and_then; [apply tame_int_float|intros new_height].
  apply tame_cv2_resize.
Qed.

Lemma downscale_raises_Exception (f : Frame) (x : exn) :
  downscale e f = Exn x -> is_Exception x = true.
Proof. apply tame_downscale. Qed.

Lemma downscale_terminates (f : Frame) : downscale e f <> Diverge.
Proof. apply tame_downscale. Qed.

(** Every turn of the loop is one of the six cases. *)
Lemma sampler_body_cases (s : Sampler) (w : World) :
  cap_pos (s_cap s) = frame_count s ->
  BodyCase e env s w (sampler_body e env s w).
Proof.
  intros Hpos. unfold sampler_body.
  destruct (frame_count s <? s_end_frame s) eqn:Hlt.
  2:{ apply Z.ltb_ge in Hlt. apply BodyExit. now left. }
  apply Z.ltb_lt in Hlt.
  rewrite cap_read_at, Hpos.
  destruct (frame_at (cap_video (s_cap s)) (frame_count s)) as [f|] eqn:Hf.
  2:{ rewrite sampler_eta. apply BodyExit. now right. }
  destruct (s_interval_frames s =? 0) eqn:Hi.
  { apply Z.eqb_eq in Hi. now apply BodyZeroDivision with f. }
  apply Z.eqb_neq in Hi.
  destruct ((frame_count s - s_start_frame s) mod s_interval_frames s =? 0) eqn:Hsel.
  2:{ now apply BodySkip with f. }
  unfold bind, lift.
  destruct (downscale e f) as [f'| x |] eqn:Hd.
  - unfold cv2_imwrite, bind, record_imwrite.
    change (mkSaved (saved_count s) (current_time_of (frame_count s) (s_fps s))
                    (frame_count s) (shape1 f') (shape0 f') (quality e))
      with (call_for e s f').
    destruct (imwrite env (call_for e s f')) eqn:Hw; simpl.
    + now apply (BodySave e env s w f f' true).
    + now apply (BodySave e env s w f f' false).
    + now apply BodyWriteRaises with f.
  - apply BodyResizeRaises with f; try assumption.
    now apply downscale_raises_Exception with f.
  - now apply downscale_terminates in Hd.
Qed.

End SamplerTurn.

(** ** The sampling loop, all turns *)

Section SamplerLoop.

Variables (e : VideoFrameExtractor) (env : Env).

Lemma zrange_nil (lo hi : Z) : hi <= lo -> zrange lo hi = [].
Proof.
  intros H. unfold zrange. replace (Z.to_nat (hi - lo)) with O by lia.
  reflexivity.
Qed.

Lemma zrange_cons (lo hi : Z) : lo < hi -> zrange lo hi = lo :: zrange (lo + 1) hi.
Proof.
  intros H. unfold zrange.
  replace (Z.to_nat (hi - lo)) with (S (Z.to_nat (hi - (lo + 1)))) by lia.
  simpl. f_equal; [lia|].
  rewrite <- seq_shift, map_map. apply map_ext. intros k. lia.
Qed.

Lemma zrange_In (lo hi i : Z) : In i (zrange lo hi) <-> lo <= i < hi.
Proof.
  unfold zrange. rewrite in_map_iff. split.
  - intros [k [Hk Hin]]. apply in_seq in Hin. lia.
  - intros H. exists (Z.to_nat (i - lo)). split; [lia|].
    apply in_seq. lia.
Qed.

Lemma Extends_refl (w : World) : Extends e env w w [].
Proof.
  unfold Extends; simpl. rewrite !app_nil_r. repeat split.
  exists []. rewrite app_nil_r. split; [reflexivity | constructor].
Qed.

Lemma Extends_trans (w w1 w2 : World) (n1 n2 : list SavedFrame) :
  Extends e env w w1 n1 -> Extends e env w1 w2 n2 ->
  Extends e env w w2 (n1 ++ n2).
Proof.
  intros (C1 & F1 & M1 & P1 & l1 & L1 & D1) (C2 & F2 & M2 & P2 & l2 & L2 & D2).
  unfold Extends. repeat split.
  - rewrite C2, C1. now rewrite app_assoc.
  - rewrite F2, F1, filter_app, map_app. now rewrite app_assoc.
  - congruence.
  - congruence.
  - exists (l1 ++ l2). split.
    + rewrite L2, L1. now rewrite app_assoc.
    + apply Forall_app. now split.
Qed.

Lemma Extends_call (s : Sampler) (w : World) (f' : Frame) (b : bool) :
  imwrite env (call_for e s f') = (if b then WriteOk else WriteFalse) ->
  Extends e env w (after_call e w (call_for e s f') b) [call_for e s f'].
Proof.
  intros H. unfold Extends, after_call; simpl. unfold written. rewrite H.
  repeat split.
  - destruct b; simpl; [reflexivity | now rewrite app_nil_r].
  - exists [mkLog DEBUG "Saved"]. split; [reflexivity|].
    constructor; [reflexivity | constructor].
Qed.

Lemma Extends_raising_call (s : Sampler) (w : World) (f' : Frame) :
  imwrite env (call_for e s f') = WriteRaises ->
  Extends e env w
    (mkWorld (files w) (log w) (imwrite_calls w ++ [call_for e s f'])
             (metadata w) (video_path w))
    [call_for e s f'].
Proof.
  intros H. unfold Extends; simpl. unfold written. rewrite H. simpl.
  rewrite app_nil_r. repeat split.
  exists []. rewrite app_nil_r. split; [reflexivity | constructor].
Qed.

(** Whatever way the loop ends, the calls of [imwrite] it made are numbered
    from [saved_count] on without a gap, and each is well formed. *)
Lemma loop_trace (fuel : nat) : forall (s : Sampler) (w : World),
  cap_pos (s_cap s) = frame_count s ->
  exists new,
    Extends e env w (snd (while fuel (sampler_body e env) s w)) new /\
    map sequence_index new
    = zrange (saved_count s) (saved_count s + Z.of_nat (List.length new)) /\
    Forall (CallOk e (cap_video (s_cap s)) (s_fps s) (s_start_frame s)
                   (s_interval_frames s) (s_end_frame s)) new.
Proof.
  induction fuel as [|n IH]; intros s w Hpos.
  - exists []. simpl. split; [apply Extends_refl|].
    split; [|constructor]. rewrite zrange_nil; [reflexivity | lia].
  - simpl. unfold bind.
    pose proof (sampler_body_cases e env s w Hpos) as C.
    destruct (sampler_body e env s w) as [r w1].
    inversion C; subst; clear C; simpl.
    + exists []. split; [apply Extends_refl|].
      split; [|constructor]. rewrite zrange_nil; [reflexivity | simpl; lia].
    + destruct (IH (advance s (saved_count s)) w1 eq_refl) as (new & E & Sq & F).
      exists new. unfold advance in Sq, F; simpl in Sq, F.
      split; [exact E | split; [exact Sq | exact F]].
    + destruct (IH (advance s (saved_count s + 1))
                   (after_call e w (call_for e s f') written0) eq_refl)
        as (new & E & Sq & F).
      exists (call_for e s f' :: new).
      unfold advance in Sq, F; simpl in Sq, F. split; [|split].
      * change (call_for e s f' :: new) with ([call_for e s f'] ++ new).
        eapply Extends_trans; [|exact E]. now apply Extends_call.
      * simpl. rewrite Sq. rewrite (zrange_cons (saved_count s)) by lia.
        f_equal. f_equal. lia.
      * constructor; [|exact F].
        exists f, f'. simpl. repeat split; assumption.
    + exists []. split; [apply Extends_refl|].
      split; [|constructor]. rewrite zrange_nil; [reflexivity | simpl; lia].
    + exists []. split; [apply Extends_refl|].
      split; [|constructor]. rewrite zrange_nil; [reflexivity | simpl; lia].
    + exists [call_for e s f']. split; [|split].
      * now apply Extends_raising_call.
      * simpl. rewrite (zrange_cons (saved_count s)) by lia.
        rewrite zrange_nil by lia. reflexivity.
      * constructor; [|constructor].
        exists f, f'. simpl. repeat split; assumption.
Qed.

(** When the loop ends normally, it has visited every frame from
    [frame_count] up to the frame it stopped at, and called [imwrite] for
    exactly those that pass the interval test. *)
Lemma loop_result (fuel : nat) : forall (s s' : Sampler) (w w' : World),
  cap_pos (s_cap s) = frame_count s ->
  while fuel (sampler_body e env) s w = (Val s', w') ->
  exists new,
    imwrite_calls w' = imwrite_calls w ++ new /\
    map frame_index new
    = filter (on_interval (s_start_frame s) (s_interval_frames s))
             (zrange (frame_count s) (frame_count s')) /\
    saved_count s' = saved_count s + Z.of_nat (List.length new) /\
    frame_count s <= frame_count s' /\
    (s_end_frame s <= frame_count s' \/
     frame_at (cap_video (s_cap s)) (frame_count s') = None) /\
    (forall i, frame_count s <= i < frame_count s' ->
               i < s_end_frame s /\
               frame_at (cap_video (s_cap s)) i <> None) /\
    Forall (fun sf => imwrite env sf <> WriteRaises) new.
Proof.
  induction fuel as [|n IH]; intros s s' w w' Hpos; [discriminate|].
  simpl. unfold bind.
  pose proof (sampler_body_cases e env s w Hpos) as C.
  destruct (sampler_body e env s w) as [r w1].
  inversion C; subst; clear C; simpl; intros R; try discriminate.
  - inversion R; subst. exists []. rewrite app_nil_r.
    rewrite zrange_nil by lia. simpl.
    repeat split; try lia; try assumption; try constructor; lia.
  - destruct (IH (advance s (saved_count s)) _ _ _ eq_refl R)
      as (new & Cw & Ix & Sc & Le & St & Rd & Wr).
    unfold advance in *; simpl in *.
    exists new. split; [exact Cw|]. split; [|split; [exact Sc|]].
    + rewrite (zrange_cons (frame_count s)) by lia. simpl. rewrite H4. exact Ix.
    + split; [lia|]. split; [exact St|]. split; [|exact Wr].
      intros i Hi. destruct (Z.eq_dec i (frame_count s)) as [->|Hne].
      * split; [assumption | congruence].
      * apply Rd. lia.
  - destruct (IH (advance s (saved_count s + 1)) _ _ _ eq_refl R)
      as (new & Cw & Ix & Sc & Le & St & Rd & Wr).
    unfold advance in *; simpl in *.
    exists (call_for e s f' :: new). split; [|split; [|split]].
    + rewrite Cw. now rewrite <- app_assoc.
    + rewrite (zrange_cons (frame_count s)) by lia. simpl. rewrite H4.
      simpl. now rewrite Ix.
    + simpl List.length. lia.
    + split; [lia|]. split; [exact St|]. split.
      * intros i Hi. destruct (Z.eq_dec i (frame_count s)) as [->|Hne].
        -- split; [assumption | congruence].
        -- apply Rd. lia.
      * constructor; [|exact Wr]. rewrite H6. destruct written0; discriminate.
Qed.

(** The loop always ends within [sampler_fuel] turns, and what it raises is
    an [Exception]. *)
Lemma loop_terminates (fuel : nat) : forall (s : Sampler) (w : World),
  cap_pos (s_cap s) = frame_count s ->
  (Z.to_nat (s_end_frame s - frame_count s) < fuel)%nat ->
  match fst (while fuel (sampler_body e env) s w) with
  | Val _ => True
  | Exn x => is_Exception x = true
  | Diverge => False
  end.
Proof.
  induction fuel as [|n IH]; intros s w Hpos Hfuel; [lia|].
  simpl. unfold bind.
  pose proof (sampler_body_cases e env s w Hpos) as C.
  destruct (sampler_body e env s w) as [r w1].
  inversion C; subst; clear C; simpl; try exact I; try reflexivity;
    try assumption.
  - apply IH; [reflexivity|]. unfold advance; simpl. lia.
  - apply IH; [reflexivity|]. unfold advance; simpl. lia.
Qed.

End SamplerLoop.

(** ** [extract_frames] as a whole *)

Section ExtractFrames.

Variables (e : VideoFrameExtractor) (env : Env).

(** Whether the conversion of [end_frame] raises does not depend on the
    frame count. *)
Lemma end_frame_any_count (fps : Q) (total total' : Z) (n : Z) :
  end_frame e fps total = Val n -> exists n', end_frame e fps total' = Val n'.
Proof.
  unfold end_frame.
  destruct (end_time e) as [t|]; [|simpl; eauto].
  destruct (Py.truthyQ (Some t)); [|simpl; eauto].
  destruct (int_float (Py.mul t fps)); simpl; [eauto|discriminate..].
Qed.

(** Where the loop is reached, the three conversions have given the values
    it starts with. *)
Lemma loop_reached_values (fps : Q) (total : Z) :
  loop_reached e fps = true ->
  start_frame e fps = Val (start_frame_of e fps) /\
  end_frame e fps total = Val (end_frame_of e fps total) /\
  interval_frames e fps = Val (interval_frames_of e fps).
Proof.
  intros H. unfold start_frame_of, end_frame_of, interval_frames_of.
  rewrite H. unfold loop_reached in H.
  destruct (start_frame e fps) as [a| |]; try discriminate.
  destruct (end_frame e fps 0) as [b| |] eqn:E; try discriminate.
  destruct (interval_frames e fps) as [c| |]; try discriminate.
  destruct (end_frame_any_count fps 0 total b E) as [b' ->].
  now repeat split.
Qed.

(** Where it is not, one of them has raised. *)
Lemma loop_not_reached (fps : Q) (total : Z) :
  loop_reached e fps = false ->
  (exists x, start_frame e fps = Exn x) \/
  (exists x, end_frame e fps total = Exn x) \/
  (exists x, interval_frames e fps = Exn x).
Proof.
  unfold loop_reached. intros H.
  destruct (tame_start_frame e fps) as [Ds _].
  destruct (tame_end_frame e fps total) as [De _].
  destruct (tame_interval_frames e fps) as [Di _].
  destruct (start_frame e fps) as [a|x|]; [|left; eauto|contradiction].
  destruct (end_frame e fps total) as [b|x|] eqn:E;
    [|right; left; eauto|contradiction].
  destruct (end_frame_any_count fps total 0 b E) as [b' E']. rewrite E' in H.
  destruct (interval_frames e fps) as [c|x|];
    [discriminate|right; right; eauto|contradiction].
Qed.

Lemma interval_frames_of_nonzero (fps : Q) :
  interval_frames_of e fps <> 0 -> loop_reached e fps = true.
Proof.
  unfold interval_frames_of. destruct (loop_reached e fps); congruence.
Qed.

Lemma sampler_open_Some (v : Video) (w : World) :
  capture env = Some v ->
  Qeq_bool (prop_fps v) 0 = false ->
  loop_reached e (prop_fps v) = true ->
  sampler_open e env w
  = (Val (Some (initial_sampler e v)),
     mkWorld (files w) (log w ++ [mkLog INFO "Extracting frames"])
             (imwrite_calls w) (metadata w) (video_path w)).
Proof.
  intros Hc Hf Hl. unfold sampler_open. rewrite Hc, Hf.
  destruct (loop_reached_values (prop_fps v) (prop_frame_count v) Hl)
    as (Hs & He & Hi).
  unfold bind, lift. rewrite Hs, He. simpl. now rewrite Hi.
Qed.

(** A conversion that raises stops [extract_frames] before its loop: an
    exception derived from [Exception] is raised, and nothing has changed
    but the log, which has gained the line of the start at most. *)
Lemma sampler_open_raises (v : Video) (w : World) :
  capture env = Some v ->
  Qeq_bool (prop_fps v) 0 = false ->
  loop_reached e (prop_fps v) = false ->
  exists x l,
    sampler_open e env w
    = (Exn x, mkWorld (files w) (log w ++ l) (imwrite_calls w) (metadata w)
                      (video_path w)) /\
    is_Exception x = true /\
    (l = [] \/ l = [mkLog INFO "Extracting frames"]).
Proof.
  intros Hc Hf Hl. unfold sampler_open. rewrite Hc, Hf.
  destruct (tame_start_frame e (prop_fps v)) as [Ds Xs].
  destruct (tame_end_frame e (prop_fps v) (prop_frame_count v)) as [De Xe].
  destruct (tame_interval_frames e (prop_fps v)) as [Di Xi].
  assert (W : mkWorld (files w) (log w ++ []) (imwrite_calls w) (metadata w)
                      (video_path w) = w)
    by (rewrite app_nil_r; now destruct w).
  unfold bind, lift.
  destruct (start_frame e (prop_fps v)) as [a|x|] eqn:Es; [| |contradiction].
  2:{ exists x, []. rewrite W. split; [reflexivity|]. split; [now apply Xs|now left]. }
  destruct (end_frame e (prop_fps v) (prop_frame_count v)) as [b|x|] eqn:Ee;
    [| |contradiction].
  2:{ exists x, []. rewrite W. split; [reflexivity|]. split; [now apply Xe|now left]. }
  simpl.
  destruct (interval_frames e (prop_fps v)) as [c|x|] eqn:Ei; [| |contradiction].
  - exfalso. unfold loop_reached in Hl. rewrite Es, Ei in Hl.
    destruct (end_frame_any_count _ _ 0 _ Ee) as [b' Eb]. rewrite Eb in Hl.
    discriminate.
  - exists x, [mkLog INFO "Extracting frames"].
    split; [reflexivity|]. split; [now apply Xi|now right].
Qed.

Lemma frame_files_app (l1 l2 : list File) :
  frame_files (l1 ++ l2) = frame_files l1 ++ frame_files l2.
Proof.
  induction l1 as [|f l1 IH]; [reflexivity|].
  destruct f; simpl; now rewrite IH.
Qed.

Lemma frame_files_map (folder : string) (l : list SavedFrame) :
  frame_files (map (FrameFile folder) l) = l.
Proof. induction l as [|a l IH]; simpl; congruence. Qed.

(** What [extract_frames] does in every run: it returns a number (no
    exception leaves it, and the loop ends), every call of [imwrite] is well
    formed and numbered from 0 without a gap, and the files added are those
    of the calls that succeeded. *)
Lemma extract_frames_trace (w : World) :
  exists (n : Z) (new : list SavedFrame),
    fst (extract_frames e env w) = Val n /\
    imwrite_calls (snd (extract_frames e env w)) = imwrite_calls w ++ new /\
    files (snd (extract_frames e env w))
    = files w ++ map (FrameFile (output_folder e)) (filter (written env) new) /\
    video_path (snd (extract_frames e env w)) = video_path w /\
    map sequence_index new = zrange 0 (Z.of_nat (List.length new)) /\
    (n = 0 \/ n = Z.of_nat (List.length new)) /\
    (forall v, capture env = Some v ->
       Forall (CallOk e v (prop_fps v) (start_frame_of e (prop_fps v))
                      (interval_frames_of e (prop_fps v))
                      (end_frame_of e (prop_fps v) (prop_frame_count v))) new).
Proof.
  unfold extract_frames, try_except, extract_frames_try, bind.
  destruct (capture env) as [v|] eqn:Hc.
  2:{ unfold sampler_open. rewrite Hc. simpl.
      exists 0, []. simpl. rewrite !app_nil_r. repeat split.
      - now left.
      - intros v Hv. discriminate. }
  destruct (Qeq_bool (prop_fps v) 0) eqn:Hf.
  { unfold sampler_open. rewrite Hc, Hf. simpl.
    exists 0, []. simpl. rewrite !app_nil_r. repeat split.
    - now left.
    - constructor. }
  destruct (loop_reached e (prop_fps v)) eqn:Hl.
  2:{ destruct (sampler_open_raises v w Hc Hf Hl) as (x & l & -> & Hx & _).
      rewrite Hx. simpl.
      exists 0, []. simpl. rewrite !app_nil_r. repeat split.
      - now left.
      - constructor. }
  rewrite (sampler_open_Some v w Hc Hf Hl).
  set (w0 := mkWorld (files w) (log w ++ [mkLog INFO "Extracting frames"])
                     (imwrite_calls w) (metadata w) (video_path w)).
  set (s0 := initial_sampler e v).
  destruct (loop_trace e env (sampler_fuel s0) s0 w0 eq_refl)
    as (new & (Cw & Fw & Mw & Pw & _) & Sq & Ok).
  pose proof (loop_terminates e env (sampler_fuel s0) s0 w0 eq_refl) as T.
  assert (Hfuel : (Z.to_nat (s_end_frame s0 - frame_count s0)
                   < sampler_fuel s0)%nat) by (unfold sampler_fuel; lia).
  specialize (T Hfuel).
  destruct (while (sampler_fuel s0) (sampler_body e env) s0 w0) as [r w1] eqn:W.
  simpl in *.
  destruct r as [s'| x |]; [| |contradiction].
  - destruct (loop_result e env (sampler_fuel s0) s0 s' w0 w1 eq_refl W)
      as (new' & Cw' & _ & Sc & _).
    simpl in Cw'. rewrite Cw in Cw'. apply app_inv_head in Cw'. subst new'.
    exists (saved_count s'), new. simpl. repeat split; try assumption.
    + right. simpl in Sc. lia.
    + intros v' Hv'. inversion Hv'; subst. exact Ok.
  - rewrite T. simpl. exists 0, new. repeat split; try assumption.
    + now left.
    + intros v' Hv'. inversion Hv'; subst. exact Ok.
Qed.

Lemma frame_at_Some_iff (v : Video) (i : Z) :
  frame_at v i <> None <-> 0 <= i < Z.of_nat (List.length (decodable v)).
Proof.
  unfold frame_at, cap_read; simpl.
  destruct ((0 <=? i) && (i <? Z.of_nat (List.length (decodable v)))) eqn:G; simpl.
  - apply andb_true_iff in G. destruct G as [G0 G1].
    apply Z.leb_le in G0. apply Z.ltb_lt in G1. split; [lia|]. intros _ N.
    apply nth_error_None in N. lia.
  - split; [congruence|]. intros H.
    apply andb_false_iff in G. destruct G as [G|G].
    + apply Z.leb_gt in G. lia.
    + apply Z.ltb_ge in G. lia.
Qed.

Lemma frame_at_In (v : Video) (i : Z) (f : Frame) :
  frame_at v i = Some f -> In f (decodable v).
Proof.
  unfold frame_at, cap_read; simpl.
  destruct ((0 <=? i) && (i <? Z.of_nat (List.length (decodable v)))); simpl.
  - apply nth_error_In.
  - discriminate.
Qed.

(** What can make the loop raise. *)
Lemma loop_raises (fuel : nat) : forall (s : Sampler) (w : World) (x : exn),
  cap_pos (s_cap s) = frame_count s ->
  fst (while fuel (sampler_body e env) s w) = Exn x ->
  s_interval_frames s = 0 \/
  (exists f, In f (decodable (cap_video (s_cap s))) /\ downscale e f = Exn x) \/
  (exists sf, imwrite env sf = WriteRaises).
Proof.
  induction fuel as [|n IH]; intros s w x Hpos; [discriminate|].
  simpl. unfold bind.
  pose proof (sampler_body_cases e env s w Hpos) as C.
  destruct (sampler_body e env s w) as [r w1].
  inversion C; subst; clear C; simpl; intros R; try discriminate.
  - apply (IH (advance s (saved_count s)) _ _ eq_refl R).
  - apply (IH (advance s (saved_count s + 1)) _ _ eq_refl R).
  - now left.
  - right; left. exists f. inversion R; subst. split; [|assumption].
    eapply frame_at_In; eassumption.
  - right; right. now exists (call_for e s f').
Qed.

(** [extract_frames] when its [try] block runs to the end. *)
Lemma extract_frames_try_normal (v : Video) (w w' : World) (n : Z) :
  capture env = Some v ->
  extract_frames_try e env w = (Val n, w') ->
  exists (new : list SavedFrame) (stop : Z),
    imwrite_calls w' = imwrite_calls w ++ new /\
    n = Z.of_nat (List.length new) /\
    frames_extracted (metadata w') = Some n /\
    map frame_index new
    = filter (on_interval (start_frame_of e (prop_fps v))
                          (interval_frames_of e (prop_fps v)))
             (zrange (start_frame_of e (prop_fps v)) stop) /\
    start_frame_of e (prop_fps v) <= stop /\
    (end_frame_of e (prop_fps v) (prop_frame_count v) <= stop \/
     frame_at v stop = None) /\
    (forall i, start_frame_of e (prop_fps v) <= i < stop ->
               i < end_frame_of e (prop_fps v) (prop_frame_count v) /\
               frame_at v i <> None) /\
    Forall (fun sf => imwrite env sf <> WriteRaises) new /\
    files w' = files w ++ map (FrameFile (output_folder e))
                              (filter (written env) new) /\
    (exists l, log w' = log w ++ l /\ quiet_log l).
Proof.
  intros Hc. unfold extract_frames_try, bind.
  destruct (Qeq_bool (prop_fps v) 0) eqn:Hf.
  { unfold sampler_open. rewrite Hc, Hf. discriminate. }
  destruct (loop_reached e (prop_fps v)) eqn:Hl.
  2:{ destruct (sampler_open_raises v w Hc Hf Hl) as (x & l & -> & _).
      discriminate. }
  rewrite (sampler_open_Some v w Hc Hf Hl).
  set (w0 := mkWorld (files w) (log w ++ [mkLog INFO "Extracting frames"])
                     (imwrite_calls w) (metadata w) (video_path w)).
  set (s0 := initial_sampler e v).
  destruct (loop_trace e env (sampler_fuel s0) s0 w0 eq_refl)
    as (new & (Cw & Fw & Mw & Pw & l & Lw & Dl) & Sq & Ok).
  destruct (while (sampler_fuel s0) (sampler_body e env) s0 w0) as [r w1] eqn:W.
  destruct r as [s'| x |]; try discriminate.
  destruct (loop_result e env (sampler_fuel s0) s0 s' w0 w1 eq_refl W)
    as (new' & Cw' & Ix & Sc & Le & St & Rd & Wr).
  simpl in Cw. rewrite Cw in Cw'. apply app_inv_head in Cw'. subst new'.
  unfold sampler_close, bind, logger, get_metadata, set_metadata, ret; simpl.
  intros R. inversion R; subst; clear R. simpl.
  exists new, (frame_count s'). simpl in *.
  split; [exact Cw|]. split; [lia|]. split; [f_equal; lia|].
  split; [exact Ix|]. split; [exact Le|]. split; [exact St|].
  split; [exact Rd|]. split; [exact Wr|]. split; [exact Fw|].
  exists ([mkLog INFO "Extracting frames"] ++ l
            ++ [mkLog INFO "Frame extraction completed"]).
  split.
  - rewrite Lw. now rewrite <- !app_assoc.
  - unfold quiet_log. apply Forall_app. split; [repeat constructor; now right|].
    apply Forall_app. split; [|repeat constructor; now right].
    eapply Forall_impl; [|exact Dl]. intros a Ha. now left.
Qed.

(** The [try] block runs to the end when the interval is at least one frame,
    no frame makes the resize fail and no write raises. *)
Lemma extract_frames_try_completes (v : Video) (w : World) :
  capture env = Some v ->
  ~ (prop_fps v == 0)%Q ->
  interval_frames_of e (prop_fps v) <> 0 ->
  (forall f x, In f (decodable v) -> downscale e f <> Exn x) ->
  (forall sf, imwrite env sf <> WriteRaises) ->
  exists n w', extract_frames_try e env w = (Val n, w').
Proof.
  intros Hc Hf Hi Hd Hw. unfold extract_frames_try, bind.
  assert (Hf' : Qeq_bool (prop_fps v) 0 = false).
  { destruct (Qeq_bool (prop_fps v) 0) eqn:E; [|reflexivity].
    apply Qeq_bool_iff in E. contradiction. }
  rewrite (sampler_open_Some v w Hc Hf' (interval_frames_of_nonzero _ Hi)).
  set (w0 := mkWorld (files w) (log w ++ [mkLog INFO "Extracting frames"])
                     (imwrite_calls w) (metadata w) (video_path w)).
  set (s0 := initial_sampler e v).
  pose proof (loop_terminates e env (sampler_fuel s0) s0 w0 eq_refl) as T.
  assert (Hfuel : (Z.to_nat (s_end_frame s0 - frame_count s0)
                   < sampler_fuel s0)%nat) by (unfold sampler_fuel; lia).
  specialize (T Hfuel).
  pose proof (loop_raises (sampler_fuel s0) s0 w0) as Rs.
  destruct (while (sampler_fuel s0) (sampler_body e env) s0 w0) as [r w1].
  simpl in T. destruct r as [s'| x |]; [| |contradiction].
  - unfold sampler_close, bind, logger, get_metadata, set_metadata, ret; simpl.
    eauto.
  - exfalso. destruct (Rs x eq_refl eq_refl) as [Z0|[(f & Hin & Hx)|(sf & Hx)]].
    + contradiction.
    + exact (Hd f x Hin Hx).
    + exact (Hw sf Hx).
Qed.

End ExtractFrames.

(** ** Which frames are sampled *)

Section Sampling.

Variables (e : VideoFrameExtractor) (env : Env).

Lemma zrange_sorted (n : nat) : forall lo hi,
  Z.to_nat (hi - lo) = n -> StronglySorted Z.lt (zrange lo hi).
Proof.
  induction n as [|n IH]; intros lo hi H.
  - rewrite zrange_nil by lia. constructor.
  - rewrite zrange_cons by lia. constructor.
    + apply IH. lia.
    + apply Forall_forall. intros i Hi. apply zrange_In in Hi. lia.
Qed.

Lemma filter_sorted {A} (R : A -> A -> Prop) (p : A -> bool) (l : list A) :
  StronglySorted R l -> StronglySorted R (filter p l).
Proof.
  induction 1 as [|a l Hs IH Ha]; simpl; [constructor|].
  destruct (p a); [|exact IH].
  constructor; [exact IH|].
  apply Forall_forall. intros x Hx. apply filter_In in Hx.
  rewrite Forall_forall in Ha. now apply Ha.
Qed.

Lemma on_interval_iff (start step i : Z) :
  1 <= step -> start <= i ->
  on_interval start step i = true <->
  exists k, 0 <= k /\ i = start + k * step.
Proof.
  intros Hs Hi. unfold on_interval. rewrite Z.eqb_eq.
  rewrite Z.mod_divide by lia. split.
  - intros [k Hk]. exists k. split; [nia | lia].
  - intros [k [_ Hk]]. exists k. lia.
Qed.

Lemma start_frame_nonneg (fps : Q) :
  (0 < fps)%Q -> (0 <= start_time e)%Q -> 0 <= start_frame_of e fps.
Proof.
  intros Hf Hs. unfold start_frame_of.
  destruct (loop_reached e fps); [|lia].
  unfold start_frame. destruct (Py.gt0 (start_time e)); [|simpl; lia].
  destruct (int_float (Py.mul (start_time e) fps)) as [n| |] eqn:E;
    simpl; try lia.
  apply (int_float_nonneg (start_time e * fps)); [|exact E].
  apply Qmult_le_0_compat; [assumption|]. now apply Qlt_le_weak.
Qed.

(** A run of [extract_frames] that no exception cuts short: the frames
    handed to [imwrite] are, in increasing order, the frames of the window
    that can be read and pass the interval test; their number is returned
    and stored; the files of the successful writes are added; the log stays
    quiet. *)
Lemma normal_run (v : Video) (w : World) :
  capture env = Some v ->
  (0 < prop_fps v)%Q ->
  (0 <= start_time e)%Q ->
  interval_frames_of e (prop_fps v) <> 0 ->
  (forall f x, In f (decodable v) -> downscale e f <> Exn x) ->
  (forall sf, imwrite env sf <> WriteRaises) ->
  exists new,
    imwrite_calls (snd (extract_frames e env w)) = imwrite_calls w ++ new /\
    fst (extract_frames e env w) = Val (Z.of_nat (List.length new)) /\
    frames_extracted (metadata (snd (extract_frames e env w)))
    = Some (Z.of_nat (List.length new)) /\
    StronglySorted Z.lt (map frame_index new) /\
    (forall i, In i (map frame_index new) <->
       on_interval (start_frame_of e (prop_fps v))
                   (interval_frames_of e (prop_fps v)) i = true /\
       start_frame_of e (prop_fps v) <= i /\
       i < end_frame_of e (prop_fps v) (prop_frame_count v) /\
       i < Z.of_nat (List.length (decodable v))) /\
    files (snd (extract_frames e env w))
    = files w ++ map (FrameFile (output_folder e)) (filter (written env) new) /\
    (exists l, log (snd (extract_frames e env w)) = log w ++ l /\ quiet_log l).
Proof.
  intros Hc Hf Hs Hi Hd Hw.
  assert (Hf0 : ~ (prop_fps v == 0)%Q).
  { intros E. rewrite E in Hf. now apply Qlt_irrefl in Hf. }
  destruct (extract_frames_try_completes e env v w Hc Hf0 Hi Hd Hw)
    as (n & w' & R).
  assert (R' : extract_frames e env w = (Val n, w')).
  { unfold extract_frames, try_except. now rewrite R. }
  rewrite R'. simpl.
  destruct (extract_frames_try_normal e env v w w' n Hc R)
    as (new & stop & Cw & Hn & Hm & Ix & Le & St & Rd & _ & Fw & Lg).
  exists new. subst n.
  split; [exact Cw|]. split; [reflexivity|]. split; [exact Hm|].
  split; [|split; [|split; [exact Fw | exact Lg]]].
  - rewrite Ix. apply filter_sorted. now apply (zrange_sorted _ _ _ eq_refl).
  - intros i. rewrite Ix, filter_In, zrange_In.
    pose proof (start_frame_nonneg (prop_fps v) Hf Hs) as H0.
    split.
    + intros [[Hlo Hhi] Hsel]. destruct (Rd i (conj Hlo Hhi)) as [He Hr].
      apply frame_at_Some_iff in Hr. repeat split; try assumption; lia.
    + intros (Hsel & Hlo & He & Hl). split; [|exact Hsel]. split; [exact Hlo|].
      destruct (Z.lt_ge_cases i stop) as [|Hge]; [assumption|exfalso].
      destruct St as [St|St]; [lia|].
      assert (Hr : ~ (0 <= stop < Z.of_nat (List.length (decodable v)))).
      { intros C. apply frame_at_Some_iff in C. contradiction. }
      lia.
Qed.

End Sampling.

(** C1, as stated, fails: at 1.75 frames per second and an interval of one
    second the nearest integer of the product is 2, the code steps by 1 and
    saves the frames 0, 1, 2, 3 of a four-frame video, not 0 and 2. *)
Lemma interval_frames_is_not_rounded :
  Py.round ((7 # 4) * interval (init "u" "frames" 1 95 None 0 None)) = 2 /\
  interval_frames (init "u" "frames" 1 95 None 0 None) (7 # 4) = Val 1 /\
  interval_frames_of (init "u" "frames" 1 95 None 0 None) (7 # 4) = 1 /\
  interval_frames_of (init "u" "frames" 1 95 None 0 None) (7 # 4)
  <> Py.round ((7 # 4) * interval (init "u" "frames" 1 95 None 0 None)) /\
  selected_indices
    (snd (extract_frames (init "u" "frames" 1 95 None 0 None)
            (quiet_env (Some (uniform_video (7 # 4) 4 1080 1920)))
            empty_world))
  = [0; 1; 2; 3].
Proof.
  split; [reflexivity|]. split; [vm_compute; reflexivity|].
  split; [vm_compute; reflexivity|].
  split; [vm_compute; discriminate | vm_compute; reflexivity].
Qed.

(** C1, amended. For a frame rate [f > 0], an interval [> 0] and a start
    time [>= 0], [interval_frames = int(f * interval)]: the double the
    product is rounded to, truncated, which is its floor, not the nearest
    integer; where the product is too large for a double the conversion
    raises [OverflowError].  When [interval_frames] is at least 1 and
    neither the resize nor a write raises, the three conversions before the
    loop have given [start_frame], [end_frame] and [interval_frames], and
    the absolute frame indices handed to [imwrite] are, in increasing order
    and without repetition, exactly the indices
    [start_frame + k * interval_frames] ([k >= 0]) that lie below
    [end_frame] and can be read; their number is what [extract_frames]
    returns. *)
Theorem sampled_indices_are_progression
    (e : VideoFrameExtractor) (env : Env) (v : Video) (w : World) :
  capture env = Some v ->
  (0 < prop_fps v)%Q ->
  (0 < interval e)%Q ->
  (0 <= start_time e)%Q ->
  interval_frames e (prop_fps v)
  = match Py.mul (prop_fps v) (interval e) with
    | Py.Fin x => Val (Qfloor x)
    | Py.Inf _ => Exn OverflowError
    end /\
  (1 <= interval_frames_of e (prop_fps v) ->
   (forall f x, In f (decodable v) -> downscale e f <> Exn x) ->
   (forall sf, imwrite env sf <> WriteRaises) ->
   start_frame e (prop_fps v) = Val (start_frame_of e (prop_fps v)) /\
   end_frame e (prop_fps v) (prop_frame_count v)
   = Val (end_frame_of e (prop_fps v) (prop_frame_count v)) /\
   interval_frames e (prop_fps v) = Val (interval_frames_of e (prop_fps v)) /\
   exists new,
     selected_indices (snd (extract_frames e env w))
     = selected_indices w ++ new /\
     fst (extract_frames e env w) = Val (Z.of_nat (List.length new)) /\
     StronglySorted Z.lt new /\
     forall i, In i new <->
       (exists k, 0 <= k /\
          i = start_frame_of e (prop_fps v)
              + k * interval_frames_of e (prop_fps v)) /\
       i < end_frame_of e (prop_fps v) (prop_frame_count v) /\
       i < Z.of_nat (List.length (decodable v))).
Proof.
  intros Hc Hf Hi Hs. split.
  - unfold interval_frames. apply int_float_floor.
    apply Qmult_le_0_compat; now apply Qlt_le_weak.
  - intros Hstep Hd Hw.
    assert (Hne : interval_frames_of e (prop_fps v) <> 0) by lia.
    destruct (loop_reached_values e (prop_fps v) (prop_frame_count v)
                (interval_frames_of_nonzero e _ Hne)) as (Vs & Ve & Vi).
    split; [exact Vs|]. split; [exact Ve|]. split; [exact Vi|].
    destruct (normal_run e env v w Hc Hf Hs Hne Hd Hw)
      as (new & Cw & Rn & _ & So & In_ & _).
    exists (map frame_index new). unfold selected_indices.
    rewrite Cw, map_app, length_map.
    split; [reflexivity|]. split; [exact Rn|]. split; [exact So|].
    intros i. rewrite In_. split.
    + intros (Hsel & Hlo & He & Hl).
      apply on_interval_iff in Hsel; try assumption. now repeat split.
    + intros ((k & Hk & Hik) & He & Hl).
      assert (Hlo : start_frame_of e (prop_fps v) <= i) by nia.
      repeat split; try assumption.
      apply on_interval_iff; try assumption. now exists k.
Qed.

(** At 25 frames per second and an interval of 0.6 s the product of 25 and
    the double nearest to 0.6 lies below 15 and is rounded to 15.0: the
    step is 15 frames, where the floor of the exact product is 14. *)
Lemma sampled_indices_are_progression_witness :
  interval_frames (init "u" "frames" (Py.nearest 0.6) 95 None 0 None) 25
  = Val 15 /\
  Qfloor (25 * Py.nearest 0.6) = 14 /\
  selected_indices
    (snd (extract_frames (init "u" "frames" (Py.nearest 0.6) 95 None 0 None)
            (quiet_env (Some (uniform_video 25 50 1080 1920)))
            empty_world))
  = [0; 15; 30; 45] /\
  exists new,
    fst (extract_frames (init "u" "frames" (Py.nearest 0.6) 95 None 0 None)
           (quiet_env (Some (uniform_video 25 50 1080 1920)))
           empty_world)
    = Val (Z.of_nat (List.length new)) /\ StronglySorted Z.lt new.
Proof.
  split; [vm_compute; reflexivity|]. split; [vm_compute; reflexivity|].
  split; [vm_compute; reflexivity|].
  destruct (sampled_indices_are_progression
              (init "u" "frames" (Py.nearest 0.6) 95 None 0 None)
              (quiet_env (Some (uniform_video 25 50 1080 1920)))
              (uniform_video 25 50 1080 1920) empty_world)
    as (_ & P).
  - reflexivity.
  - reflexivity.
  - apply Qnot_le_lt. intros C. apply Qle_bool_iff in C.
    vm_compute in C. discriminate.
  - discriminate.
  - destruct P as (_ & _ & _ & new & _ & R & So & _).
    + vm_compute. discriminate.
    + intros f x _. vm_compute. discriminate.
    + intros sf. discriminate.
    + exists new. split; assumption.
Defined.

(** ** Sequence numbers *)

Lemma zrange_nth (lo hi : Z) (k : nat) (x : Z) :
  nth_error (zrange lo hi) k = Some x -> x = lo + Z.of_nat k.
Proof.
  unfold zrange. rewrite nth_error_map.
  destruct (nth_error (seq 0 (Z.to_nat (hi - lo))) k) as [j|] eqn:Hj;
    simpl; [|discriminate].
  intros H. inversion H; subst; clear H.
  assert (Hk : (k < List.length (seq 0 (Z.to_nat (hi - lo))))%nat).
  { apply nth_error_Some. congruence. }
  rewrite length_seq in Hk.
  apply nth_error_nth with (d := O) in Hj.
  rewrite seq_nth in Hj by assumption. simpl in Hj. now subst j.
Qed.

Lemma numbered_from_zero (l : list SavedFrame) :
  map sequence_index l = zrange 0 (Z.of_nat (List.length l)) ->
  forall k sf, nth_error l k = Some sf -> sequence_index sf = Z.of_nat k.
Proof.
  intros H k sf Hk.
  assert (Hm : nth_error (map sequence_index l) k = Some (sequence_index sf)).
  { now apply map_nth_error. }
  rewrite H in Hm. apply zrange_nth in Hm. lia.
Qed.

Lemma filter_all {A} (p : A -> bool) (l : list A) :
  Forall (fun x => p x = true) l -> filter p l = l.
Proof.
  induction 1 as [|a l Ha _ IH]; simpl; [reflexivity|].
  now rewrite Ha, IH.
Qed.

(** C5, as stated, fails: when the write of the frame numbered 1 returns
    [False], the counter advances all the same; the files on disk are then
    numbered 0 and 2, so the second frame saved carries the number 2. *)
Lemma saved_files_can_skip_a_number :
  map sequence_index
    (frame_files
       (files (snd (extract_frames (init "u" "frames" 1 95 None 0 None)
                      (env_with (uniform_video 1 3 1080 1920) second_write_fails)
                      empty_world))))
  = [0; 2] /\
  exists sf,
    nth_error
      (frame_files
         (files (snd (extract_frames (init "u" "frames" 1 95 None 0 None)
                        (env_with (uniform_video 1 3 1080 1920) second_write_fails)
                        empty_world)))) 1
    = Some sf /\
    sequence_index sf <> 1.
Proof.
  split; [vm_compute; reflexivity|].
  eexists. split; [vm_compute; reflexivity|]. discriminate.
Qed.

(** C5, amended. In every run of [extract_frames], whatever the frame
    numbers sampled and however the run ends, the [k]-th frame handed to
    [imwrite] carries the sequence index [k], counted from 0; the frame files
    added are those of the successful writes, in order, so that when every
    write succeeds the [k]-th frame file carries the sequence index [k]. *)
Theorem sequence_index_is_dense
    (e : VideoFrameExtractor) (env : Env) (w : World) :
  exists new,
    imwrite_calls (snd (extract_frames e env w)) = imwrite_calls w ++ new /\
    (forall k sf, nth_error new k = Some sf -> sequence_index sf = Z.of_nat k) /\
    frame_files (files (snd (extract_frames e env w)))
    = frame_files (files w) ++ filter (written env) new /\
    ((forall sf, imwrite env sf = WriteOk) ->
     forall k sf,
       nth_error (filter (written env) new) k = Some sf ->
       sequence_index sf = Z.of_nat k).
Proof.
  destruct (extract_frames_trace e env w)
    as (n & new & _ & Cw & Fw & _ & Sq & _).
  exists new. split; [exact Cw|]. split; [now apply numbered_from_zero|].
  split.
  - rewrite Fw, frame_files_app, frame_files_map. reflexivity.
  - intros Hok. rewrite filter_all.
    + now apply numbered_from_zero.
    + apply Forall_forall. intros sf _. unfold written. now rewrite Hok.
Qed.

Lemma sequence_index_is_dense_witness :
  exists new,
    imwrite_calls
      (snd (extract_frames (init "u" "frames" 2 95 None 10 (Some 20%Q))
              (quiet_env (Some (uniform_video 24 480 1080 1920)))
              empty_world))
    = new /\
    forall k sf,
      nth_error (filter (written (quiet_env (Some (uniform_video 24 480 1080 1920))))
                        new) k = Some sf ->
      sequence_index sf = Z.of_nat k.
Proof.
  destruct (sequence_index_is_dense
              (init "u" "frames" 2 95 None 10 (Some 20%Q))
              (quiet_env (Some (uniform_video 24 480 1080 1920)))
              empty_world) as (new & Cw & _ & _ & Hd).
  exists new. split; [exact Cw|].
  apply Hd. intros sf. reflexivity.
Defined.

(** ** Failed writes *)

(** C7, as stated, fails: when the write of the second of three frames
    returns [False], [extract_frames] returns 3 and stores 3, two files are
    written, and the log has no line about the failure. *)
Lemma failed_write_is_counted :
  fst (extract_frames (init "u" "frames" 1 95 None 0 None)
         (env_with (uniform_video 1 3 1080 1920) second_write_fails)
         empty_world)
  = Val 3 /\
  List.length
    (frame_files
       (files (snd (extract_frames (init "u" "frames" 1 95 None 0 None)
                      (env_with (uniform_video 1 3 1080 1920) second_write_fails)
                      empty_world))))
  = 2%nat /\
  frames_extracted
    (metadata (snd (extract_frames (init "u" "frames" 1 95 None 0 None)
                      (env_with (uniform_video 1 3 1080 1920) second_write_fails)
                      empty_world)))
  = Some 3 /\
  map log_level
    (log (snd (extract_frames (init "u" "frames" 1 95 None 0 None)
                 (env_with (uniform_video 1 3 1080 1920) second_write_fails)
                 empty_world)))
  = [INFO; DEBUG; DEBUG; DEBUG; INFO].
Proof. repeat split; vm_compute; reflexivity. Qed.

(** C7, amended. When no call of [imwrite] or of the resize raises, a write
    that fails by returning [False] does not stop the extraction: every
    readable frame of the window that passes the interval test is handed to
    [imwrite], before and after the failure. The failure is not noticed:
    the log gains only debug and info lines, and the number returned and
    stored is the number of calls of [imwrite], which is the number of frame
    files written plus the number of writes that failed. *)
Theorem failed_write_does_not_stop_sampling
    (e : VideoFrameExtractor) (env : Env) (v : Video) (w : World) :
  capture env = Some v ->
  (0 < prop_fps v)%Q ->
  (0 <= start_time e)%Q ->
  interval_frames_of e (prop_fps v) <> 0 ->
  (forall f x, In f (decodable v) -> downscale e f <> Exn x) ->
  (forall sf, imwrite env sf <> WriteRaises) ->
  exists new,
    imwrite_calls (snd (extract_frames e env w)) = imwrite_calls w ++ new /\
    (forall i, In i (map frame_index new) <->
       on_interval (start_frame_of e (prop_fps v))
                   (interval_frames_of e (prop_fps v)) i = true /\
       start_frame_of e (prop_fps v) <= i /\
       i < end_frame_of e (prop_fps v) (prop_frame_count v) /\
       i < Z.of_nat (List.length (decodable v))) /\
    fst (extract_frames e env w) = Val (Z.of_nat (List.length new)) /\
    frames_extracted (metadata (snd (extract_frames e env w)))
    = Some (Z.of_nat (List.length new)) /\
    frame_files (files (snd (extract_frames e env w)))
    = frame_files (files w) ++ filter (written env) new /\
    List.length new
    = (List.length (filter (written env) new)
       + List.length (filter (fun sf => negb (written env sf)) new))%nat /\
    (exists l, log (snd (extract_frames e env w)) = log w ++ l /\ quiet_log l).
Proof.
  intros Hc Hf Hs Hi Hd Hw.
  destruct (normal_run e env v w Hc Hf Hs Hi Hd Hw)
    as (new & Cw & Rn & Hm & _ & In_ & Fw & Lg).
  exists new. split; [exact Cw|]. split; [exact In_|]. split; [exact Rn|].
  split; [exact Hm|]. split; [|split; [|exact Lg]].
  - rewrite Fw, frame_files_app, frame_files_map. reflexivity.
  - clear. induction new as [|a l IH]; simpl; [reflexivity|].
    destruct (written env a); simpl; lia.
Qed.

Lemma failed_write_does_not_stop_sampling_witness :
  exists new,
    fst (extract_frames (init "u" "frames" 1 95 None 0 None)
           (env_with (uniform_video 1 3 1080 1920) second_write_fails)
           empty_world)
    = Val (Z.of_nat (List.length new)) /\
    List.length new
    = (List.length
         (filter (written (env_with (uniform_video 1 3 1080 1920)
                                    second_write_fails)) new)
       + List.length
           (filter (fun sf => negb (written (env_with (uniform_video 1 3 1080 1920)
                                                      second_write_fails) sf))
                   new))%nat.
Proof.
  destruct (failed_write_does_not_stop_sampling
              (init "u" "frames" 1 95 None 0 None)
              (env_with (uniform_video 1 3 1080 1920) second_write_fails)
              (uniform_video 1 3 1080 1920) empty_world)
    as (new & _ & _ & R & _ & _ & L & _).
  - reflexivity.
  - reflexivity.
  - discriminate.
  - vm_compute. discriminate.
  - intros f x _. discriminate.
  - intros sf. unfold env_with, second_write_fails; simpl.
    destruct (sequence_index sf =? 1); discriminate.
  - exists new. split; assumption.
Defined.

(** ** Downscaling *)

Lemma int_positive_floor (x : Q) : 0 < Py.int x -> Py.int x = Qfloor x.
Proof.
  intros H. apply int_nonneg_floor.
  destruct (Qlt_le_dec x 0) as [N|P]; [exfalso|exact P].
  unfold Py.int in H. unfold Qlt in N. simpl in N.
  assert (Hq : Z.quot (- Qnum x) (Z.pos (Qden x)) >= 0)
    by (apply Z.le_ge, Z.quot_pos; lia).
  rewrite Z.quot_opp_l in Hq by lia. lia.
Qed.

(** What the resize block gives when it does not raise. *)
Lemma downscale_Val (e : VideoFrameExtractor) (f f' : Frame) :
  downscale e f = Val f' ->
  match max_width e with
  | Some mw =>
      if Py.truthyZ (Some mw) && (mw <? shape1 f)
      then 0 < mw /\ shape1 f' = mw /\ 0 < shape0 f' /\
           exists scale x,
             Py.div (inject_Z mw) (inject_Z (shape1 f)) = Py.Fin scale /\
             Py.mul (Py.of_int (shape0 f)) scale = Py.Fin x /\
             shape0 f' = Py.int x /\
             shape0 f' = Qfloor x
      else f' = f
  | None => f' = f
  end.
Proof.
  unfold downscale. destruct (max_width e) as [mw|]; [|congruence].
  destruct (Py.truthyZ (Some mw) && (mw <? shape1 f)) eqn:G; [|congruence].
  destruct (shape1 f =? 0) eqn:Z0; [discriminate|].
  destruct (Py.div (inject_Z mw) (inject_Z (shape1 f))) as [scale|] eqn:S;
    [|discriminate].
  simpl.
  destruct (Py.mul (Py.of_int (shape0 f)) scale) as [x|] eqn:X;
    [|discriminate].
  simpl. unfold cv2_resize.
  destruct ((0 <? mw) && (0 <? Py.int x)) eqn:P; [|discriminate].
  intros H. inversion H; subst; clear H. simpl.
  apply andb_true_iff in P. destruct P as [P0 P1].
  apply Z.ltb_lt in P0. apply Z.ltb_lt in P1.
  split; [exact P0|]. split; [reflexivity|]. split; [exact P1|].
  exists scale, x. split; [reflexivity|]. split; [exact X|].
  split; [reflexivity|]. now apply int_positive_floor.
Qed.

(** C9, as stated, fails: a 1920 by 1000 frame with [max_width = 800] is
    saved 416 rows high; [1000 * 800 / 1920] is 416.67 and rounds to 417. *)
Lemma downscaled_height_is_not_rounded :
  downscale (init "u" "frames" 5 95 (Some 800) 0 None) (mkFrame 1000 1920)
  = Val (mkFrame 416 800) /\
  Py.round (1000 * 800 / 1920) = 417 /\
  map saved_height
    (imwrite_calls
       (snd (extract_frames (init "u" "frames" 5 95 (Some 800) 0 None)
               (quiet_env (Some (uniform_video 30 150 1000 1920)))
               empty_world)))
  = [416] /\
  416 <> Py.round (1000 * 800 / 1920).
Proof. repeat split; try (vm_compute; reflexivity). discriminate. Qed.

(** C9, amended. Every frame handed to [imwrite] comes from the frame read
    at its index. If [max_width] is set, is not 0 and is below the frame's
    width, the saved image is exactly [max_width] wide and
    [int(height * (max_width / width))] high as binary64 evaluates it: the
    quotient is rounded to a double, its product with the height is rounded
    to a double, and that is truncated, which is its floor, not rounded to
    the nearest integer; otherwise the image has the size of the frame. *)
Theorem saved_frame_size
    (e : VideoFrameExtractor) (env : Env) (v : Video) (w : World) :
  capture env = Some v ->
  exists new,
    imwrite_calls (snd (extract_frames e env w)) = imwrite_calls w ++ new /\
    forall sf, In sf new ->
      exists f,
        frame_at v (frame_index sf) = Some f /\
        match max_width e with
        | Some mw =>
            if Py.truthyZ (Some mw) && (mw <? shape1 f)
            then saved_width sf = mw /\
                 exists scale x,
                   Py.div (inject_Z mw) (inject_Z (shape1 f)) = Py.Fin scale /\
                   Py.mul (Py.of_int (shape0 f)) scale = Py.Fin x /\
                   saved_height sf = Py.int x /\
                   saved_height sf = Qfloor x
            else saved_width sf = shape1 f /\ saved_height sf = shape0 f
        | None => saved_width sf = shape1 f /\ saved_height sf = shape0 f
        end.
Proof.
  intros Hc.
  destruct (extract_frames_trace e env w)
    as (n & new & _ & Cw & _ & _ & _ & _ & Ok).
  exists new. split; [exact Cw|].
  intros sf Hin. specialize (Ok v Hc). rewrite Forall_forall in Ok.
  destruct (Ok sf Hin) as (f & f' & Hf & Hd & Hw & Hh & _).
  exists f. split; [exact Hf|].
  apply downscale_Val in Hd. rewrite Hw, Hh.
  destruct (max_width e) as [mw|]; [|now subst].
  destruct (Py.truthyZ (Some mw) && (mw <? shape1 f)); [|now subst].
  destruct Hd as (_ & H1 & _ & scale & x & H2 & H3 & H4 & H5).
  split; [exact H1|]. exists scale, x. now repeat split.
Qed.

(** A 1920 by 1080 frame with [max_width = 800] is saved 800 by 450.  A
    1280 by 720 frame with [max_width = 896] is saved 503 rows high: the
    quotient 0.7 has no double, the product of 720 and the double nearest
    to it is rounded to a double below 504, where [720 * 896 / 1280] is
    504.  A 49 by 49 frame with [max_width = 1] is not saved: the product of
    49 and the double nearest to 1/49 is rounded to a double below 1, the
    height is 0 and the resize raises. *)
Lemma saved_frame_size_witness :
  (exists new,
     imwrite_calls
       (snd (extract_frames (init "u" "frames" 5 95 (Some 800) 0 None)
               (quiet_env (Some (uniform_video 30 150 1080 1920)))
               empty_world))
     = new /\
     map saved_width new = [800] /\ map saved_height new = [450]) /\
  map saved_height
    (imwrite_calls
       (snd (extract_frames (init "u" "frames" 5 95 (Some 896) 0 None)
               (quiet_env (Some (uniform_video 30 150 720 1280)))
               empty_world)))
  = [503] /\
  720 * 896 / 1280 = 504 /\
  downscale (init "u" "frames" 5 95 (Some 1) 0 None) (mkFrame 49 49)
  = Exn CvError.
Proof.
  split; [|repeat split; vm_compute; reflexivity].
  destruct (saved_frame_size (init "u" "frames" 5 95 (Some 800) 0 None)
              (quiet_env (Some (uniform_video 30 150 1080 1920)))
              (uniform_video 30 150 1080 1920) empty_world eq_refl)
    as (new & Cw & _).
  vm_compute in Cw. subst new.
  eexists. split; [vm_compute; reflexivity|].
  split; reflexivity.
Defined.

(** ** An interval shorter than a frame *)




(** ** Frame conditions of the monad *)

Section KeepsLaws.

Variable R : World -> World -> Prop.
Hypothesis R_refl : forall w, R w w.
Hypothesis R_trans : forall a b c, R a b -> R b c -> R a c.

Lemma keeps_ret {A} (a : A) : Keeps R (ret a).
Proof. intros w. apply R_refl. Qed.

Lemma keeps_raise {A} (x : exn) : Keeps R (raise (A := A) x).
Proof. intros w. apply R_refl. Qed.

Lemma keeps_lift {A} (r : result A) : Keeps R (lift r).
Proof. intros w. apply R_refl. Qed.

Lemma keeps_bind {A B} (m : M A) (k : A -> M B) :
  Keeps R m -> (forall a, Keeps R (k a)) -> Keeps R (bind m k).
Proof.
  intros Hm Hk w. unfold bind. specialize (Hm w).
  destruct (m w) as [[a|x|] w1]; simpl in *; try assumption.
  eapply R_trans; [exact Hm | apply Hk].
Qed.

Lemma keeps_try_except {A} (m : M A) (h : exn -> M A) :
  Keeps R m -> (forall x, Keeps R (h x)) -> Keeps R (try_except m h).
Proof.
  intros Hm Hh w. unfold try_except. specialize (Hm w).
  destruct (m w) as [[a|x|] w1]; simpl in *; try assumption.
  destruct (is_Exception x); simpl; [|assumption].
  eapply R_trans; [exact Hm | apply Hh].
Qed.

Lemma keeps_try_finally {A} (m : M A) (c : M unit) :
  Keeps R m -> Keeps R c -> Keeps R (try_finally m c).
Proof.
  intros Hm Hc w. unfold try_finally. specialize (Hm w).
  destruct (m w) as [[a|x|] w1]; simpl in *; try assumption;
    specialize (Hc w1); destruct (c w1) as [[u|y|] w2]; simpl in *;
    eapply R_trans; eassumption.
Qed.

Lemma keeps_while {S} (body : S -> M (S + S)) :
  (forall s, Keeps R (body s)) ->
  forall fuel s, Keeps R (while fuel body s).
Proof.
  intros Hb. induction fuel as [|n IH]; intros s.
  - intros w. apply R_refl.
  - simpl. apply keeps_bind; [apply Hb|].
    intros [s'|s']; [apply IH | apply keeps_ret].
Qed.

Lemma keeps_unless_stuck {A} (m : M A) : Keeps R m -> Keeps R (unless_stuck m).
Proof.
  intros Hm w. unfold unless_stuck. specialize (Hm w).
  now destruct (m w) as [[a|x|] w1].
Qed.

Lemma keeps_when (b : bool) (m : M unit) : Keeps R m -> Keeps R (when b m).
Proof. intros Hm. destruct b; [exact Hm | apply keeps_ret]. Qed.

Lemma keeps_get_video_path : Keeps R get_video_path.
Proof. intros w. apply R_refl. Qed.

Lemma keeps_get_metadata : Keeps R get_metadata.
Proof. intros w. apply R_refl. Qed.

Lemma keeps_path_exists (name : string) : Keeps R (path_exists name).
Proof. intros w. apply R_refl. Qed.

End KeepsLaws.

Section CatchableLaws.

Lemma catchable_ret {A} (a : A) : Catchable (ret a).
Proof. intros w x H. discriminate. Qed.

Lemma catchable_raise {A} (x : exn) :
  is_Exception x = true -> Catchable (raise (A := A) x).
Proof. intros Hx w y H. inversion H; now subst. Qed.

Lemma catchable_bind {A B} (m : M A) (k : A -> M B) :
  Catchable m -> (forall a, Catchable (k a)) -> Catchable (bind m k).
Proof.
  intros Hm Hk w x. unfold bind. specialize (Hm w).
  destruct (m w) as [[a|y|] w1]; simpl in *.
  - apply Hk.
  - intros H. inversion H; subst. now apply Hm.
  - discriminate.
Qed.

Lemma catchable_while {S} (body : S -> M (S + S)) :
  (forall s, Catchable (body s)) ->
  forall fuel s, Catchable (while fuel body s).
Proof.
  intros Hb. induction fuel as [|n IH]; intros s.
  - intros w x H. discriminate.
  - simpl. apply catchable_bind; [apply Hb|].
    intros [s'|s']; [apply IH | apply catchable_ret].
Qed.

Lemma noraise_is_catchable {A} (m : M A) : NoRaise m -> Catchable m.
Proof. intros H w x E. now apply H in E. Qed.

Lemma noraise_ret {A} (a : A) : NoRaise (ret a).
Proof. intros w x H. discriminate. Qed.

Lemma noraise_bind {A B} (m : M A) (k : A -> M B) :
  NoRaise m -> (forall a, NoRaise (k a)) -> NoRaise (bind m k).
Proof.
  intros Hm Hk w x. unfold bind. specialize (Hm w).
  destruct (m w) as [[a|y|] w1]; simpl in *.
  - apply Hk.
  - intros _. now apply (Hm y).
  - discriminate.
Qed.

Lemma noraise_try_except {A} (m : M A) (h : exn -> M A) :
  Catchable m -> (forall x, NoRaise (h x)) -> NoRaise (try_except m h).
Proof.
  intros Hm Hh w x. unfold try_except. specialize (Hm w).
  destruct (m w) as [[a|y|] w1]; simpl in *; try discriminate.
  rewrite (Hm y eq_refl). apply Hh.
Qed.

Lemma noraise_logger (l : LogLevel) (t : string) : NoRaise (logger l t).
Proof. intros w x H. discriminate. Qed.

Lemma noraise_when (b : bool) (m : M unit) : NoRaise m -> NoRaise (when b m).
Proof. intros Hm. destruct b; [exact Hm | apply noraise_ret]. Qed.

End CatchableLaws.

Section ObliviousLaws.

Lemma SameButLog_refl (w : World) : SameButLog w w.
Proof. now repeat split. Qed.

Lemma SameButLog_sym (a b : World) : SameButLog a b -> SameButLog b a.
Proof. intros (F & C & M & P). now repeat split. Qed.

Lemma SameButLog_trans (a b c : World) :
  SameButLog a b -> SameButLog b c -> SameButLog a c.
Proof.
  intros (F1 & C1 & M1 & P1) (F2 & C2 & M2 & P2).
  repeat split; congruence.
Qed.

Lemma oblivious_ret {A} (a : A) : Oblivious (ret a).
Proof. intros w1 w2 H. now split. Qed.

Lemma oblivious_raise {A} (x : exn) : Oblivious (raise (A := A) x).
Proof. intros w1 w2 H. now split. Qed.

Lemma oblivious_lift {A} (r : result A) : Oblivious (lift r).
Proof. intros w1 w2 H. now split. Qed.

Lemma oblivious_bind {A B} (m : M A) (k : A -> M B) :
  Oblivious m -> (forall a, Oblivious (k a)) -> Oblivious (bind m k).
Proof.
  intros Hm Hk w1 w2 H. unfold bind. destruct (Hm w1 w2 H) as [Hr Hw].
  destruct (m w1) as [r1 v1], (m w2) as [r2 v2]; simpl in *. subst r2.
  destruct r1 as [a|x|]; [now apply Hk | now split | now split].
Qed.

Lemma oblivious_try_except {A} (m : M A) (h : exn -> M A) :
  Oblivious m -> (forall x, Oblivious (h x)) -> Oblivious (try_except m h).
Proof.
  intros Hm Hh w1 w2 H. unfold try_except. destruct (Hm w1 w2 H) as [Hr Hw].
  destruct (m w1) as [r1 v1], (m w2) as [r2 v2]; simpl in *. subst r2.
  destruct r1 as [a|x|]; [now split | | now split].
  destruct (is_Exception x); [now apply Hh | now split].
Qed.

Lemma oblivious_try_finally {A} (m : M A) (c : M unit) :
  Oblivious m -> Oblivious c -> Oblivious (try_finally m c).
Proof.
  intros Hm Hc w1 w2 H. unfold try_finally. destruct (Hm w1 w2 H) as [Hr Hw].
  destruct (m w1) as [r1 v1], (m w2) as [r2 v2]; simpl in *. subst r2.
  destruct (Hc v1 v2 Hw) as [Hr' Hw'].
  destruct (c v1) as [q1 u1], (c v2) as [q2 u2]; simpl in *. subst q2.
  destruct r1 as [a|x|]; destruct q1 as [u|y|]; now split.
Qed.

Lemma oblivious_while {S} (body : S -> M (S + S)) :
  (forall s, Oblivious (body s)) ->
  forall fuel s, Oblivious (while fuel body s).
Proof.
  intros Hb. induction fuel as [|n IH]; intros s.
  - intros w1 w2 H. now split.
  - simpl. apply oblivious_bind; [apply Hb|].
    intros [s'|s']; [apply IH | apply oblivious_ret].
Qed.

Lemma oblivious_when (b : bool) (m : M unit) :
  Oblivious m -> Oblivious (when b m).
Proof. intros Hm. destruct b; [exact Hm | apply oblivious_ret]. Qed.

Lemma oblivious_logger (l : LogLevel) (t : string) : Oblivious (logger l t).
Proof. intros w1 w2 (F & C & M & P). now repeat split. Qed.

Lemma oblivious_write_file (f : File) : Oblivious (write_file f).
Proof.
  intros w1 w2 (F & C & M & P). repeat split; simpl; congruence.
Qed.

Lemma oblivious_record_imwrite (sf : SavedFrame) : Oblivious (record_imwrite sf).
Proof.
  intros w1 w2 (F & C & M & P). repeat split; simpl; congruence.
Qed.

Lemma oblivious_set_metadata (m : Metadata) : Oblivious (set_metadata m).
Proof. intros w1 w2 (F & C & M & P). now repeat split. Qed.

Lemma oblivious_get_metadata : Oblivious get_metadata.
Proof.
  intros w1 w2 (F & C & M & P). unfold get_metadata; simpl.
  split; [congruence | now repeat split].
Qed.

Lemma oblivious_set_video_path (p : string) : Oblivious (set_video_path p).
Proof. intros w1 w2 (F & C & M & P). now repeat split. Qed.

Lemma oblivious_get_video_path : Oblivious get_video_path.
Proof.
  intros w1 w2 (F & C & M & P). unfold get_video_path; simpl.
  split; [congruence | now repeat split].
Qed.

Lemma oblivious_path_exists (name : string) : Oblivious (path_exists name).
Proof.
  intros w1 w2 (F & C & M & P). unfold path_exists; simpl.
  split; [congruence | now repeat split].
Qed.

Lemma oblivious_os_remove (env : Env) (name : string) :
  Oblivious (os_remove env name).
Proof.
  unfold os_remove. destruct (remove_ok env); [|apply oblivious_raise].
  intros w1 w2 (F & C & M & P). repeat split; simpl; congruence.
Qed.

End ObliviousLaws.

Create HintDb frame discriminated.

Ltac keeps_step refl trans :=
  first
    [ apply (keeps_get_video_path _ refl)
    | apply (keeps_get_metadata _ refl)
    | apply (keeps_path_exists _ refl)
    | solve [auto with frame]
    | apply (keeps_ret _ refl)
    | apply (keeps_raise _ refl)
    | apply (keeps_lift _ refl)
    | apply (keeps_when _ refl)
    | apply (keeps_bind _ trans); [|intros]
    | apply (keeps_try_except _ trans); [|intros]
    | apply (keeps_while _ refl trans); intros
    | match goal with
      | |- Keeps _ (if ?b then _ else _) => destruct b
      | |- Keeps _ (match ?x with _ => _ end) => destruct x
      end ].

Ltac keeps_all refl trans := repeat keeps_step refl trans.

Section ReturnsLaws.

Lemma returns_ret {A} (P : A -> Prop) (a : A) : P a -> Returns P (ret a).
Proof. intros H w. exact H. Qed.

Lemma returns_raise {A} (P : A -> Prop) (x : exn) : Returns P (raise x).
Proof. intros w. exact I. Qed.

Lemma returns_bind {A B} (P : A -> Prop) (Q : B -> Prop) (m : M A)
    (k : A -> M B) :
  Returns P m -> (forall a, P a -> Returns Q (k a)) -> Returns Q (bind m k).
Proof.
  intros Hm Hk w. unfold bind. specialize (Hm w).
  destruct (m w) as [[a|x|] w1]; simpl in *; [|exact I|contradiction].
  now apply Hk.
Qed.

Lemma returns_try_except {A} (P : A -> Prop) (m : M A) (h : exn -> M A) :
  Returns P m -> (forall x, Returns P (h x)) -> Returns P (try_except m h).
Proof.
  intros Hm Hh w. unfold try_except. specialize (Hm w).
  destruct (m w) as [[a|x|] w1]; simpl in *; try assumption.
  destruct (is_Exception x); [apply Hh | exact I].
Qed.

Lemma returns_logger (l : LogLevel) (t : string) :
  Returns (fun _ => True) (logger l t).
Proof. intros w. exact I. Qed.

End ReturnsLaws.

(** ** The steps of [run] around the sampling *)

Section RunSteps.

Variables (e : VideoFrameExtractor) (env : Env).

Lemma NoSampling_refl (w : World) : NoSampling e env w w.
Proof. split; [reflexivity|]. intros f H. now left. Qed.

Lemma NoSampling_trans (a b c : World) :
  NoSampling e env a b -> NoSampling e env b c -> NoSampling e env a c.
Proof.
  intros [C1 F1] [C2 F2]. split; [congruence|].
  intros f H. destruct (F2 f H) as [H'|H']; [now apply F1 | now right].
Qed.

Lemma ns_logger (l : LogLevel) (t : string) :
  Keeps (NoSampling e env) (logger l t).
Proof. intros w. split; [reflexivity|]. intros f H. now left. Qed.

Lemma ns_set_video_path (p : string) :
  Keeps (NoSampling e env) (set_video_path p).
Proof. intros w. split; [reflexivity|]. intros f H. now left. Qed.

Lemma ns_set_metadata (m : Metadata) :
  Keeps (NoSampling e env) (set_metadata m).
Proof. intros w. split; [reflexivity|]. intros f H. now left. Qed.

Lemma ns_write_metadata :
  Keeps (NoSampling e env) (write_file (MetadataFile (output_folder e))).
Proof.
  intros w. split; [reflexivity|]. simpl. intros f H.
  apply in_app_or in H. destruct H as [H|[H|[]]]; [now left|].
  right; left. now symmetry.
Qed.

Lemma ns_write_video :
  Keeps (NoSampling e env) (write_file (VideoFile (download_name env))).
Proof.
  intros w. split; [reflexivity|]. simpl. intros f H.
  apply in_app_or in H. destruct H as [H|[H|[]]]; [now left|].
  right; right. now symmetry.
Qed.

Lemma ns_os_remove (name : string) :
  Keeps (NoSampling e env) (os_remove env name).
Proof.
  unfold os_remove. destruct (remove_ok env).
  - intros w. split; [reflexivity|]. simpl. intros f H.
    apply filter_In in H. now left.
  - intros w. apply NoSampling_refl.
Qed.

Lemma ns_check_interrupt (st : Stage) :
  Keeps (NoSampling e env) (check_interrupt env st).
Proof.
  unfold check_interrupt. intros w.
  destruct (interrupt env) as [s|]; [destruct (Stage_eqb s st)|];
    apply NoSampling_refl.
Qed.

Hint Resolve ns_logger ns_set_video_path ns_set_metadata ns_write_metadata
  ns_write_video ns_os_remove ns_check_interrupt : frame.

Lemma ns_download_video : Keeps (NoSampling e env) (download_video env).
Proof.
  unfold download_video. keeps_all NoSampling_refl NoSampling_trans.
Qed.

Lemma ns_get_video_metadata :
  Keeps (NoSampling e env) (get_video_metadata e env).
Proof.
  unfold get_video_metadata. keeps_all NoSampling_refl NoSampling_trans.
Qed.

Lemma ns_cleanup : Keeps (NoSampling e env) (cleanup env).
Proof.
  unfold cleanup. keeps_all NoSampling_refl NoSampling_trans.
Qed.

(** The [finally] block returns. *)
Lemma cleanup_returns (w : World) : fst (cleanup env w) = Val tt.
Proof.
  unfold cleanup, bind, get_video_path, path_exists, try_except, os_remove.
  simpl. destruct (video_path w) as [name|]; [|reflexivity].
  destruct (existsb (is_video_file name) (files w)); [|reflexivity].
  destruct (remove_ok env); reflexivity.
Qed.

(** The result of [run] is that of the body of its [try], where an
    exception has become [False]. *)
Lemma run_result (pv cr : bool) (w : World) :
  fst (run e env pv cr w)
  = match fst (run_try e env pv cr
                 (snd (logger INFO "=== Video Frame Extractor ===" w))) with
    | Val b => Val b
    | Exn _ => Val false
    | Diverge => Diverge
    end.
Proof.
  unfold run, bind, try_finally, run_except. simpl.
  destruct (run_try e env pv cr _) as [[b|x|] w1]; simpl.
  - pose proof (cleanup_returns w1) as C.
    destruct (cleanup env w1) as [r w2]; simpl in C. now subst r.
  - destruct x; simpl;
      match goal with
      | |- context [cleanup env ?w0] =>
          pose proof (cleanup_returns w0) as C;
          destruct (cleanup env w0) as [r w2]; simpl in C; now subst r
      end.
  - reflexivity.
Qed.

(** The world after [run] is that after the body of its [try], then the
    handler's log line if an exception was raised, then the cleanup; when
    the body never ends, nothing follows. *)
Lemma run_world (pv cr : bool) (w : World) :
  fst (run e env pv cr w) <> Diverge ->
  exists w1,
    snd (run e env pv cr w) = snd (cleanup env w1) /\
    SameButLog
      (snd (run_try e env pv cr
              (snd (logger INFO "=== Video Frame Extractor ===" w)))) w1.
Proof.
  unfold run, bind, try_finally, run_except. simpl.
  destruct (run_try e env pv cr _) as [[b|x|] w1]; simpl.
  - intros _. exists w1. split; [|apply SameButLog_refl].
    pose proof (cleanup_returns w1) as C.
    destruct (cleanup env w1) as [r w2]; simpl in *. now subst r.
  - intros _.
    destruct x; simpl;
      match goal with
      | |- context [cleanup env ?w0] =>
          exists w0; split; [|now repeat split];
          pose proof (cleanup_returns w0) as C;
          destruct (cleanup env w0) as [r w2]; simpl in *; now subst r
      end.
  - congruence.
Qed.

Lemma ns_run_except (m : M bool) :
  Keeps (NoSampling e env) m -> Keeps (NoSampling e env) (run_except m).
Proof.
  intros Hm w. unfold run_except. specialize (Hm w).
  destruct (m w) as [[b|x|] w1]; simpl in *; try assumption.
  destruct x; simpl;
    (eapply NoSampling_trans; [exact Hm|]; split; [reflexivity|];
     intros f H; now left).
Qed.

Lemma returns_check_interrupt (st : Stage) :
  Returns (fun _ => True) (check_interrupt env st).
Proof.
  unfold check_interrupt. intros w.
  destruct (interrupt env) as [s|]; [destruct (Stage_eqb s st)|]; exact I.
Qed.

Lemma returns_download_video : Returns (fun _ => True) (download_video env).
Proof.
  unfold download_video. intros w.
  destruct (download_outcome env); exact I.
Qed.

Lemma returns_get_video_metadata :
  Returns (fun _ => True) (get_video_metadata e env).
Proof.
  unfold get_video_metadata. intros w.
  destruct (capture env); [destruct (metadata_write_ok env)|]; exact I.
Qed.

(** With a window that ends at or before its start, the body of the [try]
    of [run] is the download, the metadata and the error. *)
Lemma run_try_invalid_window (pv cr : bool) (t : Q) :
  end_time e = Some t ->
  ~ (t == 0)%Q ->
  (t <= start_time e)%Q ->
  run_try e env pv cr
  = (ok <- download_video env ;;
     if negb ok then ret false else
     check_interrupt env AtMetadata ;;;
     get_video_metadata e env ;;;
     logger ERROR "End time must be greater than start time" ;;;
     ret false).
Proof.
  intros He Hn Hle. unfold run_try. rewrite He.
  apply truthyQ_Some in Hn. rewrite Hn.
  unfold Py.le. apply Qle_bool_iff in Hle. rewrite Hle. reflexivity.
Qed.

Lemma ns_run_invalid_window (pv cr : bool) (t : Q) :
  end_time e = Some t ->
  ~ (t == 0)%Q ->
  (t <= start_time e)%Q ->
  Keeps (NoSampling e env) (run e env pv cr) /\
  Returns (fun b => b = false) (run_try e env pv cr).
Proof.
  intros He Hn Hle. unfold run.
  rewrite (run_try_invalid_window pv cr t He Hn Hle). split.
  - apply (keeps_bind _ NoSampling_trans); [apply ns_logger|intros _].
    apply (keeps_try_finally _ NoSampling_trans); [|apply ns_cleanup].
    apply ns_run_except.
    apply (keeps_bind _ NoSampling_trans); [apply ns_download_video|].
    intros ok. destruct ok; simpl; [|apply (keeps_ret _ NoSampling_refl)].
    apply (keeps_bind _ NoSampling_trans); [apply ns_check_interrupt|intros _].
    apply (keeps_bind _ NoSampling_trans); [apply ns_get_video_metadata|intros _].
    apply (keeps_bind _ NoSampling_trans); [apply ns_logger|intros _].
    apply (keeps_ret _ NoSampling_refl).
  - eapply returns_bind; [apply returns_download_video|].
    intros ok _. destruct ok; simpl; [|now apply returns_ret].
    eapply returns_bind; [apply returns_check_interrupt|intros _ _].
    eapply returns_bind; [apply returns_get_video_metadata|intros _ _].
    eapply returns_bind; [apply returns_logger|intros _ _].
    now apply returns_ret.
Qed.

End RunSteps.

(** ** A window that ends before it starts *)

(** C3, as stated, fails: with [start_time = 10] and [end_time = 5] the run
    returns [False] only after the download and after the metadata file has
    been written; that file is there when the run is over. *)
Lemma invalid_window_leaves_metadata_file :
  fst (run (init "u" "frames" 2 95 None 10 (Some 5%Q))
           (quiet_env (Some (uniform_video 24 480 1080 1920)))
           false true empty_world)
  = Val false /\
  files (snd (run (init "u" "frames" 2 95 None 10 (Some 5%Q))
                  (quiet_env (Some (uniform_video 24 480 1080 1920)))
                  false true empty_world))
  = [MetadataFile "frames"] /\
  files (snd (run (init "u" "frames" 2 95 None 10 (Some 5%Q))
                  (quiet_env (Some (uniform_video 24 480 1080 1920)))
                  false true empty_world))
  <> files empty_world.
Proof.
  split; [vm_compute; reflexivity|]. split; [vm_compute; reflexivity|].
  vm_compute. discriminate.
Qed.

(** C3, amended. For every configuration whose [end_time] is set, is not
    zero and does not exceed [start_time], [run] returns [False] without
    sampling, playing or reporting: no frame is handed to [imwrite], and the
    only files that can be new are the metadata file, which [run] writes
    after the download and before it checks the window, and the downloaded
    video. The command line checks the window first: it exits with a
    non-zero status and leaves the world as it was. *)
Theorem invalid_window_stops_before_sampling
    (e : VideoFrameExtractor) (env : Env) (pv cr : bool) (w : World) (t : Q) :
  end_time e = Some t ->
  ~ (t == 0)%Q ->
  (t <= start_time e)%Q ->
  fst (run e env pv cr w) = Val false /\
  imwrite_calls (snd (run e env pv cr w)) = imwrite_calls w /\
  (forall f, In f (files (snd (run e env pv cr w))) ->
             In f (files w) \/ f = MetadataFile (output_folder e) \/
             f = VideoFile (download_name env)) /\
  (forall url folder i q mw st no_play no_report,
     (t <= st)%Q ->
     fst (cli_main env url folder i q mw st (Some t) no_play no_report w) <> 0 /\
     snd (cli_main env url folder i q mw st (Some t) no_play no_report w) = w).
Proof.
  intros He Hn Hle.
  destruct (ns_run_invalid_window e env pv cr t He Hn Hle) as [K Rt].
  destruct (K w) as [Cw Fw].
  split; [|split; [exact Cw|split; [exact Fw|]]].
  - rewrite run_result. specialize (Rt (snd (logger INFO "=== Video Frame Extractor ===" w))).
    destruct (fst (run_try e env pv cr _)); [now subst | reflexivity | contradiction].
  - intros url folder i q mw st no_play no_report Hst. unfold cli_main.
    destruct (negb ((1 <=? q) && (q <=? 100))); [now split|].
    destruct (Qle_bool i 0); [now split|].
    destruct (negb (Qle_bool 0 st)); [now split|].
    apply truthyQ_Some in Hn. rewrite Hn.
    unfold Py.le. apply Qle_bool_iff in Hst. rewrite Hst. now split.
Qed.

Lemma invalid_window_stops_before_sampling_witness :
  fst (run (init "u" "frames" 2 95 None 10 (Some 5%Q))
           (quiet_env (Some (uniform_video 24 480 1080 1920)))
           true true empty_world)
  = Val false.
Proof.
  apply (invalid_window_stops_before_sampling
           (init "u" "frames" 2 95 None 10 (Some 5%Q))
           (quiet_env (Some (uniform_video 24 480 1080 1920)))
           true true empty_world 5).
  - reflexivity.
  - discriminate.
  - discriminate.
Defined.

(** ** Frame conditions of the sampler, the player and the coordinator *)

Section ComponentFrames.

Variable R : World -> World -> Prop.
Hypothesis R_refl : forall w, R w w.
Hypothesis R_trans : forall a b c, R a b -> R b c -> R a c.
Hypothesis R_logger : forall l t, Keeps R (logger l t).
Hypothesis R_record_imwrite : forall sf, Keeps R (record_imwrite sf).
Hypothesis R_write_frame : forall folder sf, Keeps R (write_file (FrameFile folder sf)).
Hypothesis R_write_metadata : forall folder, Keeps R (write_file (MetadataFile folder)).
Hypothesis R_write_report : forall folder, Keeps R (write_file (ReportFile folder)).
Hypothesis R_set_metadata : forall m, Keeps R (set_metadata m).

Variables (e : VideoFrameExtractor) (env : Env).

Lemma keeps_check_interrupt (st : Stage) : Keeps R (check_interrupt env st).
Proof. unfold check_interrupt. keeps_all R_refl R_trans. Qed.

Lemma keeps_player_show (et : option Q) (p : Player) :
  Keeps R (player_show env et p).
Proof.
  unfold player_show. destruct (cap_read (p_cap p)) as [r cap'].
  keeps_all R_refl R_trans.
Qed.

Lemma keeps_player_body (st : Q) (et : option Q) (sc : bool) (p : Player) :
  Keeps R (player_body env st et sc p).
Proof.
  unfold player_body.
  apply (keeps_bind _ R_trans).
  - destruct (p_paused p); [apply (keeps_ret _ R_refl)|apply keeps_player_show].
  - intros [stop p']. destruct stop; [apply (keeps_ret _ R_refl)|].
    unfold player_key. destruct (waitKey p') as [key rest].
    keeps_all R_refl R_trans.
Qed.

Lemma keeps_player_open (st : Q) (sc : bool) : Keeps R (player_open env st sc).
Proof. unfold player_open. keeps_all R_refl R_trans. Qed.

Lemma keeps_player_except (x : exn) : Keeps R (player_except x).
Proof. apply R_logger. Qed.

Lemma keeps_play (st : Q) (et : option Q) (sc : bool) :
  Keeps R (play env st et sc).
Proof.
  unfold play. apply (keeps_try_except _ R_trans);
    [|intros; apply keeps_player_except].
  apply (keeps_bind _ R_trans); [apply keeps_player_open|].
  intros [p0|]; [|apply (keeps_ret _ R_refl)].
  apply (keeps_bind _ R_trans); [|intros; apply (keeps_ret _ R_refl)].
  apply (keeps_while _ R_refl R_trans). intros. apply keeps_player_body.
Qed.

Lemma keeps_play_video_guard : Keeps R play_video_guard.
Proof. unfold play_video_guard. keeps_all R_refl R_trans. Qed.

Lemma keeps_play_video : Keeps R (play_video e env).
Proof.
  unfold play_video.
  apply (keeps_bind _ R_trans); [apply keeps_play_video_guard|].
  intros ok. destruct ok; [apply keeps_play | apply R_logger].
Qed.

Lemma keeps_player_step (ps : PlayerSt) : Keeps R (player_step e env ps).
Proof.
  destruct ps as [|p| |]; simpl.
  - apply (keeps_bind _ R_trans); [apply keeps_play_video_guard|].
    intros ok. destruct ok.
    + apply (keeps_try_except _ R_trans).
      * apply (keeps_bind _ R_trans); [apply keeps_player_open|].
        intros. apply (keeps_ret _ R_refl).
      * intros. apply (keeps_bind _ R_trans); [apply keeps_player_except|].
        intros. apply (keeps_ret _ R_refl).
    + apply (keeps_bind _ R_trans); [apply R_logger|].
      intros. apply (keeps_ret _ R_refl).
  - apply (keeps_bind _ R_trans); [|intros; apply (keeps_ret _ R_refl)].
    apply (keeps_unless_stuck _).
    apply (keeps_try_except _ R_trans).
    + apply (keeps_bind _ R_trans); [apply keeps_player_body|].
      intros. apply (keeps_ret _ R_refl).
    + intros. apply (keeps_bind _ R_trans); [apply keeps_player_except|].
      intros. apply (keeps_ret _ R_refl).
  - apply (keeps_ret _ R_refl).
  - apply (keeps_ret _ R_refl).
Qed.

Lemma keeps_player_finish (ps : PlayerSt) : Keeps R (player_finish e env ps).
Proof.
  destruct ps as [|p| |]; simpl.
  - apply keeps_play_video.
  - apply (keeps_try_except _ R_trans); [|intros; apply keeps_player_except].
    apply (keeps_bind _ R_trans); [|intros; apply (keeps_ret _ R_refl)].
    apply (keeps_while _ R_refl R_trans). intros. apply keeps_player_body.
  - apply (keeps_lift _ R_refl).
  - apply (keeps_ret _ R_refl).
Qed.

Lemma keeps_cv2_imwrite (folder : string) (sf : SavedFrame) :
  Keeps R (cv2_imwrite env folder sf).
Proof. unfold cv2_imwrite. keeps_all R_refl R_trans. Qed.

Lemma keeps_sampler_body (s : Sampler) : Keeps R (sampler_body e env s).
Proof.
  unfold sampler_body. destruct (cap_read (s_cap s)) as [r cap'].
  pose proof keeps_cv2_imwrite.
  keeps_all R_refl R_trans.
Qed.

Lemma keeps_sampler_open : Keeps R (sampler_open e env).
Proof. unfold sampler_open. keeps_all R_refl R_trans. Qed.

Lemma keeps_sampler_close (s : Sampler) : Keeps R (sampler_close s).
Proof. unfold sampler_close. keeps_all R_refl R_trans. Qed.

Lemma keeps_extract_frames_except (x : exn) : Keeps R (extract_frames_except x).
Proof. unfold extract_frames_except. keeps_all R_refl R_trans. Qed.

Lemma keeps_extract_frames : Keeps R (extract_frames e env).
Proof.
  unfold extract_frames, extract_frames_try.
  apply (keeps_try_except _ R_trans);
    [|intros; apply keeps_extract_frames_except].
  apply (keeps_bind _ R_trans); [apply keeps_sampler_open|].
  intros [s0|]; [|apply (keeps_ret _ R_refl)].
  apply (keeps_bind _ R_trans); [|intros; apply keeps_sampler_close].
  apply (keeps_while _ R_refl R_trans). intros. apply keeps_sampler_body.
Qed.

Lemma keeps_sampler_step (ss : SamplerSt) : Keeps R (sampler_step e env ss).
Proof.
  destruct ss as [|s|]; simpl.
  - apply (keeps_try_except _ R_trans).
    + apply (keeps_bind _ R_trans); [apply keeps_sampler_open|].
      intros. apply (keeps_ret _ R_refl).
    + intros. apply (keeps_bind _ R_trans); [apply keeps_extract_frames_except|].
      intros. apply (keeps_ret _ R_refl).
  - apply (keeps_try_except _ R_trans).
    + apply (keeps_bind _ R_trans); [apply keeps_sampler_body|].
      intros [s'|s']; [apply (keeps_ret _ R_refl)|].
      apply (keeps_bind _ R_trans); [apply keeps_sampler_close|].
      intros. apply (keeps_ret _ R_refl).
    + intros. apply (keeps_bind _ R_trans); [apply keeps_extract_frames_except|].
      intros. apply (keeps_ret _ R_refl).
  - apply (keeps_ret _ R_refl).
Qed.

Lemma keeps_sampler_join (ss : SamplerSt) : Keeps R (sampler_join e env ss).
Proof.
  destruct ss as [|s|]; unfold sampler_join.
  - apply (keeps_bind _ R_trans); [apply keeps_extract_frames|].
    intros. apply (keeps_ret _ R_refl).
  - apply (keeps_bind _ R_trans); [|intros; apply (keeps_ret _ R_refl)].
    apply (keeps_try_except _ R_trans);
      [|intros; apply keeps_extract_frames_except].
    apply (keeps_bind _ R_trans); [|intros; apply keeps_sampler_close].
    apply (keeps_while _ R_refl R_trans). intros. apply keeps_sampler_body.
  - apply (keeps_ret _ R_refl).
Qed.

Lemma keeps_interleave (sched : list Tid) :
  forall ss ps, Keeps R (interleave e env sched ss ps).
Proof.
  induction sched as [|t sched IH]; intros ss ps; simpl.
  - apply (keeps_ret _ R_refl).
  - destruct t.
    + apply (keeps_bind _ R_trans); [apply keeps_sampler_step|].
      intros. apply IH.
    + apply (keeps_bind _ R_trans); [apply keeps_player_step|].
      intros. apply IH.
Qed.

Lemma keeps_run_with_playback : Keeps R (run_with_playback e env).
Proof.
  unfold run_with_playback.
  apply (keeps_bind _ R_trans); [apply keeps_interleave|intros sp].
  apply (keeps_bind _ R_trans); [apply keeps_sampler_join|intros _].
  apply (keeps_bind _ R_trans); [apply keeps_check_interrupt|intros _].
  apply (keeps_bind _ R_trans); [apply keeps_player_finish|intros _].
  apply keeps_check_interrupt.
Qed.

Lemma keeps_get_video_metadata : Keeps R (get_video_metadata e env).
Proof. unfold get_video_metadata. keeps_all R_refl R_trans. Qed.

Lemma keeps_create_summary_report : Keeps R (create_summary_report e env).
Proof. unfold create_summary_report. keeps_all R_refl R_trans. Qed.

Lemma keeps_run_except (m : M bool) : Keeps R m -> Keeps R (run_except m).
Proof.
  intros Hm w. unfold run_except. specialize (Hm w).
  destruct (m w) as [[b|x|] w1]; cbn [fst snd] in *; try assumption.
  destruct x;
    (eapply R_trans; [exact Hm|];
     apply (keeps_bind _ R_trans (logger _ _) (fun _ => ret false));
     [apply R_logger | intros; apply (keeps_ret _ R_refl)]).
Qed.

(** The whole body of the [try] of [run], once the download has a frame
    condition. *)
Lemma keeps_run_try (pv cr : bool) :
  Keeps R (download_video env) -> Keeps R (run_try e env pv cr).
Proof.
  intros Hd. unfold run_try.
  apply (keeps_bind _ R_trans); [exact Hd|].
  intros ok. destruct (negb ok); [apply (keeps_ret _ R_refl)|].
  apply (keeps_bind _ R_trans); [apply keeps_check_interrupt|intros _].
  apply (keeps_bind _ R_trans); [apply keeps_get_video_metadata|intros _].
  match goal with |- Keeps _ (if ?b then _ else _) => destruct b end.
  - apply (keeps_bind _ R_trans); [apply R_logger|intros _].
    apply (keeps_ret _ R_refl).
  - apply (keeps_bind _ R_trans).
    + destruct pv; [apply keeps_run_with_playback|].
      apply (keeps_bind _ R_trans); [apply keeps_check_interrupt|intros _].
      apply (keeps_bind _ R_trans); [apply keeps_extract_frames|].
      intros. apply (keeps_ret _ R_refl).
    + intros _. apply (keeps_bind _ R_trans).
      * apply (keeps_when _ R_refl).
        apply (keeps_bind _ R_trans); [apply keeps_check_interrupt|intros _].
        apply keeps_create_summary_report.
      * intros _. apply (keeps_bind _ R_trans); [apply R_logger|intros _].
        apply (keeps_ret _ R_refl).
Qed.

End ComponentFrames.

(** ** The downloaded file *)

Section DownloadedFile.

Variables (e : VideoFrameExtractor) (env : Env).

Lemma pk_refl (w : World) : KeepsPathKnown (download_name env) w w.
Proof. intros H. exact H. Qed.

Lemma pk_trans (a b c : World) :
  KeepsPathKnown (download_name env) a b -> KeepsPathKnown (download_name env) b c -> KeepsPathKnown (download_name env) a c.
Proof. intros H1 H2 H. apply H2, H1, H. Qed.

Lemma pk_same_files (w w' : World) :
  files w' = files w -> video_path w' = video_path w ->
  KeepsPathKnown (download_name env) w w'.
Proof.
  intros F P H. unfold PathKnown in *. rewrite F, P. exact H.
Qed.

Lemma pk_write_other (f : File) :
  f <> VideoFile (download_name env) -> Keeps (KeepsPathKnown (download_name env)) (write_file f).
Proof.
  intros Hf w H. unfold PathKnown in *. simpl. intros Hin.
  apply in_app_or in Hin. destruct Hin as [Hin|[Hin|[]]]; [now apply H|].
  contradiction.
Qed.

Lemma pk_logger (l : LogLevel) (t : string) :
  Keeps (KeepsPathKnown (download_name env)) (logger l t).
Proof. intros w. apply pk_same_files; reflexivity. Qed.

Lemma pk_record_imwrite (sf : SavedFrame) :
  Keeps (KeepsPathKnown (download_name env)) (record_imwrite sf).
Proof. intros w. apply pk_same_files; reflexivity. Qed.

Lemma pk_set_metadata (m : Metadata) :
  Keeps (KeepsPathKnown (download_name env)) (set_metadata m).
Proof. intros w. apply pk_same_files; reflexivity. Qed.

Lemma pk_download_video : Keeps (KeepsPathKnown (download_name env)) (download_video env).
Proof.
  intros w H. unfold download_video, try_except, bind.
  destruct (download_outcome env); simpl; try exact H;
    intros _; reflexivity.
Qed.

Lemma pk_run_try (pv cr : bool) :
  Keeps (KeepsPathKnown (download_name env)) (run_try e env pv cr).
Proof.
  apply keeps_run_try.
  - exact pk_refl.
  - exact pk_trans.
  - exact pk_logger.
  - exact pk_record_imwrite.
  - intros folder sf. apply pk_write_other. discriminate.
  - intros folder. apply pk_write_other. discriminate.
  - intros folder. apply pk_write_other. discriminate.
  - exact pk_set_metadata.
  - exact pk_download_video.
Qed.

(** The [finally] block removes the file that [self.video_path] names,
    when the removal works. *)
Lemma cleanup_removes (w : World) :
  remove_ok env = true ->
  PathKnown (download_name env) w ->
  ~ In (VideoFile (download_name env)) (files (snd (cleanup env w))).
Proof.
  intros Hr PK. unfold PathKnown in PK.
  unfold cleanup, bind, get_video_path, path_exists, try_except, os_remove.
  simpl. destruct (video_path w) as [p|] eqn:Hp; simpl.
  2:{ intros Hin. specialize (PK Hin). discriminate. }
  destruct (existsb (is_video_file p) (files w)) eqn:Hex; simpl.
  - rewrite Hr. simpl. intros Hin. apply filter_In in Hin.
    destruct Hin as [Hin Hneg]. specialize (PK Hin).
    inversion PK; subst p. simpl in Hneg.
    now rewrite String.eqb_refl in Hneg.
  - intros Hin. pose proof (PK Hin) as Hq. inversion Hq; subst p.
    assert (Ht : existsb (is_video_file (download_name env)) (files w) = true).
    { apply existsb_exists. exists (VideoFile (download_name env)). split; [exact Hin|].
      simpl. apply String.eqb_refl. }
    congruence.
Qed.

End DownloadedFile.

(** C8, as stated, fails: when the removal of the downloaded file fails, the
    run completes successfully and the file is still there. *)
Lemma failed_removal_leaves_the_file :
  fst (run (init "u" "frames" 2 95 None 0 None)
           (env_remove_fails (uniform_video 24 48 1080 1920))
           false true empty_world)
  = Val true /\
  In (VideoFile "video.mp4")
     (files (snd (run (init "u" "frames" 2 95 None 0 None)
                      (env_remove_fails (uniform_video 24 48 1080 1920))
                      false true empty_world))).
Proof. split; [vm_compute; reflexivity|]. vm_compute. tauto. Qed.

(** C8, amended. On every terminal outcome of a run, be it success, failure
    or interruption, [run] tries to remove the downloaded file; when that
    removal does not fail, a file that was not there before the run is not
    there once the run has completed. *)
Theorem temporary_file_is_removed
    (e : VideoFrameExtractor) (env : Env) (pv cr : bool) (w : World) :
  remove_ok env = true ->
  ~ In (VideoFile (download_name env)) (files w) ->
  fst (run e env pv cr w) <> Diverge ->
  ~ In (VideoFile (download_name env)) (files (snd (run e env pv cr w))).
Proof.
  intros Hr Hnew Hend.
  destruct (run_world e env pv cr w Hend) as (w1 & Hw & (F & _ & _ & P)).
  rewrite Hw. apply cleanup_removes; [exact Hr|].
  apply (pk_same_files env _ _ F P).
  apply (pk_run_try e env pv cr).
  intros Hin. simpl in Hin. contradiction.
Qed.

Lemma temporary_file_is_removed_witness :
  ~ In (VideoFile "video.mp4")
       (files (snd (run (init "u" "frames" 2 95 None 0 None)
                        (env_playing (uniform_video 24 48 1080 1920))
                        true true empty_world))).
Proof.
  apply (temporary_file_is_removed
           (init "u" "frames" 2 95 None 0 None)
           (env_playing (uniform_video 24 48 1080 1920))
           true true empty_world).
  - reflexivity.
  - simpl. tauto.
  - vm_compute. discriminate.
Defined.

(** ** The player on its own *)

Section EndsLaws.

Lemma ends_ret {A} (a : A) : Ends (ret a).
Proof. intros w. discriminate. Qed.

Lemma ends_raise {A} (x : exn) : Ends (raise (A := A) x).
Proof. intros w. discriminate. Qed.

Lemma ends_lift {A} (r : result A) : Tame r -> Ends (lift r).
Proof. intros [H _] w. exact H. Qed.

Lemma ends_unless_stuck {A} (m : M A) : Ends (unless_stuck m).
Proof. intros w. unfold unless_stuck. now destruct (m w) as [[a|x|] w1]. Qed.

Lemma ends_logger (l : LogLevel) (t : string) : Ends (logger l t).
Proof. intros w. discriminate. Qed.

Lemma ends_bind {A B} (m : M A) (k : A -> M B) :
  Ends m -> (forall a, Ends (k a)) -> Ends (bind m k).
Proof.
  intros Hm Hk w. unfold bind. specialize (Hm w).
  destruct (m w) as [[a|x|] w1]; simpl in *;
    [apply Hk | discriminate | contradiction].
Qed.

Lemma ends_try_except {A} (m : M A) (h : exn -> M A) :
  Ends m -> (forall x, Ends (h x)) -> Ends (try_except m h).
Proof.
  intros Hm Hh w. unfold try_except. specialize (Hm w).
  destruct (m w) as [[a|x|] w1]; simpl in *;
    [discriminate | | contradiction].
  destruct (is_Exception x); [apply Hh | discriminate].
Qed.

Lemma ends_when (b : bool) (m : M unit) : Ends m -> Ends (when b m).
Proof. intros Hm. destruct b; [exact Hm | apply ends_ret]. Qed.

Lemma catchable_lift {A} (r : result A) : Tame r -> Catchable (lift r).
Proof. intros [_ H] w x E. now apply H. Qed.

Lemma catchable_never {A} : Catchable (never (A := A)).
Proof. intros w x E. discriminate. Qed.

Lemma noraise_unless_stuck {A} (m : M A) :
  NoRaise m -> NoRaise (unless_stuck m).
Proof.
  intros Hm w x. unfold unless_stuck. specialize (Hm w).
  destruct (m w) as [[a|y|] w1]; simpl in *; try discriminate.
  intros E. inversion E; subst. now apply (Hm x).
Qed.

Lemma catchable_when (b : bool) (m : M unit) :
  Catchable m -> Catchable (when b m).
Proof. intros Hm. destruct b; [exact Hm | apply catchable_ret]. Qed.

End EndsLaws.

Ltac tame :=
  repeat first
    [ apply tame_Val
    | apply tame_Exn; reflexivity
    | apply tame_int_float
    | apply tame_int_quotient
    | apply tame_cv2_resize
    | apply tame_display_frame
    | apply tame_and_then; [|intros]
    | match goal with
      | |- Tame (if ?b then _ else _) => destruct b
      end ].

Ltac ends_step :=
  first
    [ apply ends_ret
    | apply ends_raise
    | apply ends_logger
    | apply ends_when
    | apply ends_lift; solve [tame]
    | apply ends_bind; [|intros]
    | apply ends_try_except; [|intros]
    | match goal with
      | |- Ends (if ?b then _ else _) => destruct b
      | |- Ends (lift (if ?b then _ else _)) => destruct b
      | |- Ends (match ?x with _ => _ end) => destruct x
      end ].

Ltac catch_step :=
  first
    [ apply catchable_ret
    | apply catchable_raise; reflexivity
    | apply noraise_is_catchable, noraise_logger
    | apply catchable_when
    | apply catchable_never
    | apply catchable_lift; solve [tame]
    | apply catchable_bind; [|intros]
    | match goal with
      | |- Catchable (if ?b then _ else _) => destruct b
      | |- Catchable (lift (if ?b then _ else _)) => destruct b
      | |- Catchable (match ?x with _ => _ end) => destruct x
      end ].

Section PlayerAlone.

Variables (e : VideoFrameExtractor) (env : Env).

Lemma catchable_player_show (et : option Q) (p : Player) :
  Catchable (player_show env et p).
Proof.
  unfold player_show. destruct (cap_read (p_cap p)) as [r cap'].
  repeat catch_step.
Qed.

Lemma catchable_player_body (st : Q) (et : option Q) (sc : bool) (p : Player) :
  Catchable (player_body env st et sc p).
Proof.
  unfold player_body. apply catchable_bind.
  - destruct (p_paused p); [apply catchable_ret | apply catchable_player_show].
  - intros [stop p']. destruct stop; [apply catchable_ret|].
    unfold player_key. destruct (waitKey p') as [key rest]. repeat catch_step.
Qed.

Lemma ends_player_open (st : Q) (sc : bool) : Ends (player_open env st sc).
Proof. unfold player_open. repeat ends_step. Qed.

Lemma catchable_player_open (st : Q) (sc : bool) :
  Catchable (player_open env st sc).
Proof. unfold player_open. repeat catch_step. Qed.

Lemma noraise_player_except (x : exn) : NoRaise (player_except x).
Proof. apply noraise_logger. Qed.

Lemma ends_play_video_guard : Ends play_video_guard.
Proof.
  unfold play_video_guard. intros w. unfold bind, get_video_path; simpl.
  destruct (video_path w); discriminate.
Qed.

Lemma noraise_play_video_guard : NoRaise play_video_guard.
Proof.
  unfold play_video_guard. intros w x. unfold bind, get_video_path; simpl.
  destruct (video_path w); discriminate.
Qed.

(** A step of the player returns the next state of the player and changes
    nothing but the log. *)
Lemma player_step_spec (ps : PlayerSt) (w : World) :
  exists ps', fst (player_step e env ps w) = Val ps' /\
              SameButLog w (snd (player_step e env ps w)).
Proof.
  assert (K : Keeps SameButLog (player_step e env ps)).
  { apply keeps_player_step.
    - exact SameButLog_refl.
    - exact SameButLog_trans.
    - intros l t w0. now repeat split. }
  assert (N : NoRaise (player_step e env ps)).
  { destruct ps as [|p| |]; simpl.
    - apply noraise_bind; [apply noraise_play_video_guard|].
      intros ok. destruct ok.
      + apply noraise_try_except.
        * apply catchable_bind; [apply catchable_player_open|].
          intros. apply catchable_ret.
        * intros. apply noraise_bind; [apply noraise_player_except|].
          intros. apply noraise_ret.
      + apply noraise_bind; [apply noraise_logger|]. intros. apply noraise_ret.
    - apply noraise_bind; [|intros; apply noraise_ret].
      apply noraise_unless_stuck. apply noraise_try_except.
      + apply catchable_bind; [apply catchable_player_body|].
        intros. apply catchable_ret.
      + intros. apply noraise_bind; [apply noraise_player_except|].
        intros. apply noraise_ret.
    - apply noraise_ret.
    - apply noraise_ret. }
  assert (E : Ends (player_step e env ps)).
  { destruct ps as [|p| |]; simpl.
    - apply ends_bind; [apply ends_play_video_guard|].
      intros ok. destruct ok.
      + apply ends_try_except.
        * apply ends_bind; [apply ends_player_open|]. intros. apply ends_ret.
        * intros. apply ends_bind; [apply ends_logger|]. intros. apply ends_ret.
      + apply ends_bind; [apply ends_logger|]. intros. apply ends_ret.
    - apply ends_bind; [apply ends_unless_stuck|]. intros. apply ends_ret.
    - apply ends_ret.
    - apply ends_ret. }
  specialize (K w). specialize (N w). specialize (E w).
  destruct (player_step e env ps w) as [[ps'|x|] w1]; simpl in *.
  - exists ps'. now split.
  - exfalso. now apply (N x).
  - contradiction.
Qed.

(** Running the player to its end raises nothing and changes nothing but
    the log. *)
Lemma player_finish_spec (ps : PlayerSt) (w : World) :
  (fst (player_finish e env ps w) = Val tt \/
   fst (player_finish e env ps w) = Diverge) /\
  SameButLog w (snd (player_finish e env ps w)).
Proof.
  assert (K : Keeps SameButLog (player_finish e env ps)).
  { apply keeps_player_finish.
    - exact SameButLog_refl.
    - exact SameButLog_trans.
    - intros l t w0. now repeat split. }
  assert (N : NoRaise (player_finish e env ps)).
  { destruct ps as [|p| |]; unfold player_finish.
    - unfold play_video. apply noraise_bind; [apply noraise_play_video_guard|].
      intros ok. destruct ok; [|apply noraise_logger].
      unfold play. apply noraise_try_except; [|apply noraise_player_except].
      apply catchable_bind; [apply catchable_player_open|].
      intros [p0|]; [|apply catchable_ret].
      apply catchable_bind; [|intros; apply catchable_ret].
      apply catchable_while. intros. apply catchable_player_body.
    - apply noraise_try_except; [|apply noraise_player_except].
      apply catchable_bind; [|intros; apply catchable_ret].
      apply catchable_while. intros. apply catchable_player_body.
    - intros w0 x. discriminate.
    - apply noraise_ret. }
  specialize (K w). specialize (N w).
  destruct (player_finish e env ps w) as [[[]|x|] w1]; simpl in *.
  - split; [now left | exact K].
  - exfalso. now apply (N x).
  - split; [now right | exact K].
Qed.

End PlayerAlone.

(** ** The sampler does not look at the log *)

Ltac obl_step :=
  first
    [ apply oblivious_ret
    | apply oblivious_raise
    | apply oblivious_lift
    | apply oblivious_logger
    | apply oblivious_write_file
    | apply oblivious_record_imwrite
    | apply oblivious_set_metadata
    | apply oblivious_get_metadata
    | apply oblivious_set_video_path
    | apply oblivious_get_video_path
    | apply oblivious_path_exists
    | apply oblivious_os_remove
    | apply oblivious_when
    | apply oblivious_bind; [|intros]
    | apply oblivious_try_except; [|intros]
    | match goal with
      | |- Oblivious (if ?b then _ else _) => destruct b
      | |- Oblivious (match ?x with _ => _ end) => destruct x
      end ].

Section SamplerOblivious.

Variables (e : VideoFrameExtractor) (env : Env).

Lemma oblivious_check_interrupt (st : Stage) :
  Oblivious (check_interrupt env st).
Proof. unfold check_interrupt. repeat obl_step. Qed.

Lemma oblivious_cv2_imwrite (folder : string) (sf : SavedFrame) :
  Oblivious (cv2_imwrite env folder sf).
Proof. unfold cv2_imwrite. repeat obl_step. Qed.

Lemma oblivious_sampler_body (s : Sampler) : Oblivious (sampler_body e env s).
Proof.
  unfold sampler_body. destruct (cap_read (s_cap s)) as [r cap'].
  repeat first [apply oblivious_cv2_imwrite | obl_step].
Qed.

Lemma oblivious_sampler_open : Oblivious (sampler_open e env).
Proof. unfold sampler_open. repeat obl_step. Qed.

Lemma oblivious_sampler_close (s : Sampler) : Oblivious (sampler_close s).
Proof. unfold sampler_close. repeat obl_step. Qed.

Lemma oblivious_extract_frames_except (x : exn) :
  Oblivious (extract_frames_except x).
Proof. unfold extract_frames_except. repeat obl_step. Qed.

Lemma oblivious_finish_loop (fuel : nat) (s : Sampler) :
  Oblivious (finish_loop e env fuel s).
Proof.
  unfold finish_loop.
  apply oblivious_bind; [|intros; apply oblivious_ret].
  apply oblivious_try_except; [|intros; apply oblivious_extract_frames_except].
  apply oblivious_bind; [|intros; apply oblivious_sampler_close].
  apply oblivious_while. intros. apply oblivious_sampler_body.
Qed.

Lemma oblivious_extract_frames : Oblivious (extract_frames e env).
Proof.
  unfold extract_frames, extract_frames_try.
  apply oblivious_try_except; [|intros; apply oblivious_extract_frames_except].
  apply oblivious_bind; [apply oblivious_sampler_open|].
  intros [s0|]; [|apply oblivious_ret].
  apply oblivious_bind; [|intros; apply oblivious_sampler_close].
  apply oblivious_while. intros. apply oblivious_sampler_body.
Qed.

Lemma oblivious_sampler_join (ss : SamplerSt) :
  Oblivious (sampler_join e env ss).
Proof.
  destruct ss as [|s|]; unfold sampler_join.
  - apply oblivious_bind; [apply oblivious_extract_frames|].
    intros. apply oblivious_ret.
  - apply (oblivious_finish_loop (sampler_fuel s) s).
  - apply oblivious_ret.
Qed.

Lemma oblivious_create_summary_report :
  Oblivious (create_summary_report e env).
Proof. unfold create_summary_report. repeat obl_step. Qed.

Lemma oblivious_cleanup : Oblivious (cleanup env).
Proof. unfold cleanup. repeat obl_step. Qed.

(** *** A step of the sampler, then the join, is the join *)

Lemma finish_loop_unfold (n : nat) (s : Sampler) (w : World) :
  finish_loop e env (S n) s w
  = match sampler_body e env s w with
    | (Val (inl s'), w1) => finish_loop e env n s' w1
    | (Val (inr s'), w1) =>
        (_ <- try_except (sampler_close s') extract_frames_except ;; ret tt) w1
    | (Exn x, w1) =>
        if is_Exception x
        then (_ <- extract_frames_except x ;; ret tt) w1
        else (Exn x, w1)
    | (Diverge, w1) => (Diverge, w1)
    end.
Proof.
  unfold finish_loop, bind, try_except. simpl while. unfold bind.
  destruct (sampler_body e env s w) as [[[s'|s']|x|] w1]; try reflexivity.
  destruct (is_Exception x); reflexivity.
Qed.

Lemma sampler_step_join (ss : SamplerSt) (w : World) :
  ss_ok ss ->
  exists ss1,
    fst (sampler_step e env ss w) = Val ss1 /\
    ss_ok ss1 /\
    sampler_join e env ss1 (snd (sampler_step e env ss w))
    = sampler_join e env ss w.
Proof.
  intros Hok. destruct ss as [|s|].
  - unfold sampler_step, sampler_join, extract_frames, extract_frames_try,
      try_except, bind.
    destruct (capture env) as [v|] eqn:Hc.
    + destruct (Qeq_bool (prop_fps v) 0) eqn:Hf.
      * unfold sampler_open. rewrite Hc, Hf. simpl.
        exists S_Done. now repeat split.
      * destruct (loop_reached e (prop_fps v)) eqn:Hl.
        { rewrite (sampler_open_Some e env v w Hc Hf Hl). cbn [fst snd].
          exists (S_Loop (initial_sampler e v)).
          split; [reflexivity|]. split; [reflexivity|].
          unfold ret, try_except, bind. reflexivity. }
        destruct (sampler_open_raises e env v w Hc Hf Hl)
          as (x & l & -> & Hx & _).
        rewrite Hx. simpl. exists S_Done. now repeat split.
    + unfold sampler_open. rewrite Hc. simpl.
      exists S_Done. now repeat split.
  - simpl in Hok.
    change (sampler_join e env (S_Loop s) w)
      with (finish_loop e env (S (Z.to_nat (s_end_frame s - frame_count s))) s w).
    rewrite finish_loop_unfold.
    unfold sampler_step, try_except, bind.
    pose proof (sampler_body_cases e env s w Hok) as C.
    destruct (sampler_body e env s w) as [r w1].
    inversion C; subst; clear C.
    + unfold sampler_close, try_except, bind, logger, get_metadata,
        set_metadata, ret. cbn [fst snd].
      exists S_Done. now repeat split.
    + unfold ret. cbn [fst snd]. exists (S_Loop (advance s (saved_count s))).
      split; [reflexivity|]. split; [reflexivity|].
      change (sampler_join e env (S_Loop (advance s (saved_count s))) w1)
        with (finish_loop e env
                (S (Z.to_nat (s_end_frame s - (frame_count s + 1))))
                (advance s (saved_count s)) w1).
      replace (S (Z.to_nat (s_end_frame s - (frame_count s + 1))))
        with (Z.to_nat (s_end_frame s - frame_count s)) by lia.
      reflexivity.
    + unfold ret. cbn [fst snd]. exists (S_Loop (advance s (saved_count s + 1))).
      split; [reflexivity|]. split; [reflexivity|].
      change (sampler_join e env (S_Loop (advance s (saved_count s + 1)))
                (after_call e w (call_for e s f') written0))
        with (finish_loop e env
                (S (Z.to_nat (s_end_frame s - (frame_count s + 1))))
                (advance s (saved_count s + 1))
                (after_call e w (call_for e s f') written0)).
      replace (S (Z.to_nat (s_end_frame s - (frame_count s + 1))))
        with (Z.to_nat (s_end_frame s - frame_count s)) by lia.
      reflexivity.
    + cbn [is_Exception fst snd]. unfold extract_frames_except, bind, logger, ret.
      cbn [fst snd]. exists S_Done. now repeat split.
    + rewrite H6. unfold extract_frames_except, bind, logger, ret.
      cbn [fst snd]. exists S_Done. now repeat split.
    + cbn [is_Exception fst snd]. unfold extract_frames_except, bind, logger, ret.
      cbn [fst snd]. exists S_Done. now repeat split.
  - exists S_Done. now repeat split.
Qed.

End SamplerOblivious.

(** ** Playback does not interfere with the sampling *)

Section NonInterference.

Variables (e : VideoFrameExtractor) (env : Env).

Lemma Agree_refl {A} (x : result A * World) : Agree x x.
Proof. split; [reflexivity | apply SameButLog_refl]. Qed.

Lemma Agree_trans {A} (x y z : result A * World) :
  Agree x y -> Agree y z -> Agree x z.
Proof.
  intros [R1 S1] [R2 S2]. split; [congruence|].
  eapply SameButLog_trans; eassumption.
Qed.

Lemma oblivious_agree {A} (m : M A) (w1 w2 : World) :
  Oblivious m -> SameButLog w1 w2 -> Agree (m w1) (m w2).
Proof. intros Hm H. exact (Hm w1 w2 H). Qed.

(** However the scheduler interleaves the two tasks, joining the sampler
    afterwards leaves what the sampler on its own leaves, the log apart. *)
Lemma interleave_then_join (sched : list Tid) :
  forall (ss : SamplerSt) (ps : PlayerSt) (w : World),
    ss_ok ss ->
    exists ss' ps',
      fst (interleave e env sched ss ps w) = Val (ss', ps') /\
      ss_ok ss' /\
      Agree (sampler_join e env ss' (snd (interleave e env sched ss ps w)))
            (sampler_join e env ss w).
Proof.
  induction sched as [|t sched IH]; intros ss ps w Hok.
  - exists ss, ps. simpl. split; [reflexivity|]. split; [exact Hok|].
    apply Agree_refl.
  - destruct t; simpl; unfold bind.
    + destruct (sampler_step_join e env ss w Hok) as (ss1 & Hr & Hok1 & Hj).
      destruct (sampler_step e env ss w) as [r w1]. simpl in Hr, Hj. subst r.
      destruct (IH ss1 ps w1 Hok1) as (ss' & ps' & Hi & Hok' & Ha).
      exists ss', ps'. split; [exact Hi|]. split; [exact Hok'|].
      rewrite <- Hj. exact Ha.
    + destruct (player_step_spec e env ps w) as (ps1 & Hr & Hs).
      destruct (player_step e env ps w) as [r w1]. simpl in Hr, Hs. subst r.
      destruct (IH ss ps1 w1 Hok) as (ss' & ps' & Hi & Hok' & Ha).
      exists ss', ps'. split; [exact Hi|]. split; [exact Hok'|].
      eapply Agree_trans; [exact Ha|].
      apply oblivious_agree; [apply oblivious_sampler_join|].
      now apply SameButLog_sym.
Qed.

Lemma ss_refl (w : World) : SameSampling w w.
Proof. now split. Qed.

Lemma ss_trans (a b c : World) :
  SameSampling a b -> SameSampling b c -> SameSampling a c.
Proof. intros [H1 H2] [H3 H4]. split; congruence. Qed.

Lemma ss_SameButLog (a b : World) : SameButLog a b -> SameSampling a b.
Proof. intros (_ & H1 & H2 & _). now split. Qed.

Lemma ss_logger (l : LogLevel) (t : string) : Keeps SameSampling (logger l t).
Proof. intros w. now split. Qed.

Lemma ss_write_file (f : File) : Keeps SameSampling (write_file f).
Proof. intros w. now split. Qed.

Lemma ss_check_interrupt (st : Stage) :
  Keeps SameSampling (check_interrupt env st).
Proof. unfold check_interrupt. keeps_all ss_refl ss_trans. Qed.

Lemma ss_create_summary_report :
  Keeps SameSampling (create_summary_report e env).
Proof.
  pose proof ss_logger. pose proof ss_write_file.
  unfold create_summary_report. keeps_all ss_refl ss_trans.
Qed.

Lemma ss_cleanup : Keeps SameSampling (cleanup env).
Proof.
  pose proof ss_logger.
  assert (forall name, Keeps SameSampling (os_remove env name)).
  { intros name. unfold os_remove.
    destruct (remove_ok env); [|apply (keeps_raise _ ss_refl)].
    intros w. now split. }
  unfold cleanup. keeps_all ss_refl ss_trans.
Qed.

(** What is left of [extract_frames] ends. *)
Lemma sampler_join_returns (ss : SamplerSt) (w : World) :
  ss_ok ss -> fst (sampler_join e env ss w) = Val tt.
Proof.
  intros Hok. destruct ss as [|s|]; unfold sampler_join.
  - unfold bind.
    destruct (extract_frames_trace e env w) as (n & new & R & _).
    destruct (extract_frames e env w) as [r w1]. simpl in R. now subst r.
  - unfold bind, try_except.
    pose proof (loop_terminates e env (sampler_fuel s) s w Hok) as T.
    assert (Hf : (Z.to_nat (s_end_frame s - frame_count s) < sampler_fuel s)%nat)
      by (unfold sampler_fuel; lia).
    specialize (T Hf).
    destruct (while _ _ _ _) as [[s'|x|] w1]; simpl in *.
    + reflexivity.
    + now rewrite T.
    + contradiction.
  - reflexivity.
Qed.

(** A run of the two tasks leaves the calls of [imwrite] and the metadata
    the sampler on its own leaves, also when the player never returns; when
    the player returns, the run leaves what the sampler on its own leaves,
    the log apart. *)
Lemma playback_does_not_interfere (w : World) :
  interrupt env = None ->
  AgreeUnlessDiverges
    (run_with_playback e env w)
    ((check_interrupt env AtExtraction ;;;
      _ <- extract_frames e env ;; ret tt) w).
Proof.
  intros Hi. unfold run_with_playback, check_interrupt. rewrite Hi.
  change ((ret tt ;;; (_ <- extract_frames e env ;; ret tt)) w)
    with (sampler_join e env S_New w).
  unfold bind at 1.
  destruct (interleave_then_join (schedule env) S_New P_New w I)
    as (ss' & ps' & Hr & Hok & Ha).
  destruct (interleave e env (schedule env) S_New P_New w) as [r w1].
  simpl in Hr, Ha. subst r. cbn beta iota. cbn [fst snd].
  unfold bind at 1.
  pose proof (sampler_join_returns ss' w1 Hok) as Hj.
  destruct (sampler_join e env ss' w1) as [rj w2]. simpl in Hj. subst rj.
  destruct Ha as [Hy Hs]. simpl in Hy, Hs.
  unfold bind at 1. unfold ret at 1. cbn beta iota.
  unfold bind at 1.
  destruct (player_finish_spec e env ps' w2) as [Hp Hl].
  destruct (player_finish e env ps' w2) as [rp w3]. simpl in Hp, Hl.
  assert (S3 : SameButLog w3 (snd (sampler_join e env S_New w))).
  { eapply SameButLog_trans; [|exact Hs]. now apply SameButLog_sym. }
  destruct Hp as [-> | ->].
  - right. unfold ret. split; [exact Hy | exact S3].
  - left. split; [reflexivity|]. now apply ss_SameButLog.
Qed.

Lemma aud_refl {A} (x : result A * World) : AgreeUnlessDiverges x x.
Proof. right. apply Agree_refl. Qed.

Lemma aud_bind_same {A B} (m : M A) (k1 k2 : A -> M B) :
  (forall a w, AgreeUnlessDiverges (k1 a w) (k2 a w)) ->
  forall w, AgreeUnlessDiverges (bind m k1 w) (bind m k2 w).
Proof.
  intros H w. unfold bind.
  destruct (m w) as [[a|x|] w1]; [apply H | apply aud_refl | apply aud_refl].
Qed.

Lemma aud_bind_branch {A B} (m1 m2 : M A) (k : A -> M B) :
  (forall w, AgreeUnlessDiverges (m1 w) (m2 w)) ->
  (forall a, Oblivious (k a)) ->
  (forall a, Keeps SameSampling (k a)) ->
  forall w, AgreeUnlessDiverges (bind m1 k w) (bind m2 k w).
Proof.
  intros H Hk Kk w. unfold bind. specialize (H w).
  destruct (m1 w) as [r1 w1], (m2 w) as [r2 w2].
  destruct H as [[H S]|[H S]]; simpl in *.
  - subst r1. left. split; [reflexivity|].
    destruct r2 as [a|x|]; try exact S.
    eapply ss_trans; [exact S|]. apply Kk.
  - subst r2. destruct r1 as [a|x|].
    + right. now apply Hk.
    + right. now split.
    + left. split; [reflexivity|]. now apply ss_SameButLog.
Qed.

Lemma aud_run_except (m1 m2 : M bool) (w : World) :
  AgreeUnlessDiverges (m1 w) (m2 w) ->
  AgreeUnlessDiverges (run_except m1 w) (run_except m2 w).
Proof.
  unfold run_except. intros H.
  destruct (m1 w) as [r1 w1], (m2 w) as [r2 w2].
  destruct H as [[H S]|[H S]]; simpl in *.
  - subst r1. left. split; [reflexivity|].
    destruct r2 as [b|x|]; try exact S.
    eapply ss_trans; [exact S|].
    destruct x;
      (apply (keeps_bind _ ss_trans (logger _ _) (fun _ => ret false));
       [apply ss_logger | intros; apply (keeps_ret _ ss_refl)]).
  - subst r2. destruct r1 as [b|x|].
    + right. now split.
    + right. destruct x;
        (apply (oblivious_agree (logger _ _ ;;; ret false));
         [apply oblivious_bind;
          [apply oblivious_logger | intros; apply oblivious_ret]
         | exact S]).
    + left. split; [reflexivity|]. now apply ss_SameButLog.
Qed.

Lemma aud_try_finally {A} (m1 m2 : M A) (c : M unit) (w : World) :
  Oblivious c ->
  Keeps SameSampling c ->
  AgreeUnlessDiverges (m1 w) (m2 w) ->
  AgreeUnlessDiverges (try_finally m1 c w) (try_finally m2 c w).
Proof.
  unfold try_finally. intros Hc Kc H.
  destruct (m1 w) as [r1 w1], (m2 w) as [r2 w2].
  destruct H as [[H S]|[H S]]; simpl in *.
  - subst r1. left. split; [reflexivity|].
    pose proof (Kc w2) as K2.
    destruct r2 as [a|x|]; try exact S;
      (destruct (c w2) as [[u|y|] u2]; simpl in *;
       (eapply ss_trans; [exact S | exact K2])).
  - subst r2. destruct (Hc w1 w2 S) as [Hr Hw].
    destruct (c w1) as [q1 u1], (c w2) as [q2 u2]. simpl in *. subst q2.
    destruct r1 as [a|x|].
    + destruct q1 as [u|y|];
        first [ right; now split
              | left; split; [reflexivity | now apply ss_SameButLog] ].
    + destruct q1 as [u|y|];
        first [ right; now split
              | left; split; [reflexivity | now apply ss_SameButLog] ].
    + left. split; [reflexivity | now apply ss_SameButLog].
Qed.

(** The body of the [try] of [run], with and without playback. *)
Lemma run_try_agrees (cr : bool) (w : World) :
  interrupt env = None ->
  AgreeUnlessDiverges (run_try e env true cr w) (run_try e env false cr w).
Proof.
  intros Hi. unfold run_try. revert w.
  apply aud_bind_same. intros ok.
  destruct (negb ok); [intros; apply aud_refl|].
  apply aud_bind_same. intros _.
  apply aud_bind_same. intros _.
  match goal with |- context [if ?b then _ else _] => destruct b end;
    [intros; apply aud_refl|].
  apply aud_bind_branch.
  - intros w. now apply playback_does_not_interfere.
  - intros _. apply oblivious_bind.
    + apply oblivious_when. apply oblivious_bind.
      * apply oblivious_check_interrupt.
      * intros _. apply oblivious_create_summary_report.
    + intros _. apply oblivious_bind; [apply oblivious_logger|].
      intros _. apply oblivious_ret.
  - intros _. apply (keeps_bind _ ss_trans).
    + apply (keeps_when _ ss_refl). apply (keeps_bind _ ss_trans).
      * apply ss_check_interrupt.
      * intros _. apply ss_create_summary_report.
    + intros _. apply (keeps_bind _ ss_trans); [apply ss_logger|].
      intros _. apply (keeps_ret _ ss_refl).
Qed.

(** [run], with and without playback. *)
Lemma run_agrees (cr : bool) (w : World) :
  interrupt env = None ->
  AgreeUnlessDiverges (run e env true cr w) (run e env false cr w).
Proof.
  intros Hi. unfold run. revert w.
  apply aud_bind_same. intros _ w.
  apply aud_try_finally; [apply oblivious_cleanup | apply ss_cleanup|].
  apply aud_run_except. now apply run_try_agrees.
Qed.

End NonInterference.




(** ** File names *)

Section FileNames.

Lemma chars_append (a b : string) :
  chars (String.append a b) = chars a ++ chars b.
Proof.
  induction a as [|c a IH]; simpl; [reflexivity|].
  unfold chars in *. simpl. now rewrite IH.
Qed.

Lemma collapse_cons (c : ascii) (r : string) :
  collapse_underscores (String c r)
  = if Ascii.eqb c "_" && leads r then collapse_underscores r
    else String c (collapse_underscores r).
Proof.
  destruct r as [|c' r']; simpl.
  - destruct (Ascii.eqb c "_"); reflexivity.
  - destruct (Ascii.eqb c "_"), (Ascii.eqb c' "_"); reflexivity.
Qed.

Lemma collapse_leads (s : string) :
  leads (collapse_underscores s) = leads s.
Proof.
  induction s as [|c r IH]; [reflexivity|].
  rewrite collapse_cons.
  destruct (Ascii.eqb c "_") eqn:Ec, (leads r) eqn:El; simpl;
    rewrite ?Ec; try reflexivity.
  now rewrite IH.
Qed.

Lemma collapse_no_double (s : string) :
  double_underscore (collapse_underscores s) = false.
Proof.
  induction s as [|c r IH]; [reflexivity|].
  rewrite collapse_cons.
  destruct (Ascii.eqb c "_" && leads r) eqn:E; [exact IH|].
  cbn [double_underscore]. now rewrite IH, collapse_leads, E.
Qed.

Lemma collapse_chars (s : string) (c : ascii) :
  In c (chars (collapse_underscores s)) -> In c (chars s).
Proof.
  induction s as [|a r IH]; [easy|].
  rewrite collapse_cons.
  destruct (Ascii.eqb a "_" && leads r).
  - intros H. right. now apply IH.
  - intros [H|H]; [now left | right; now apply IH].
Qed.

Lemma replace_reserved_chars (s : string) (c : ascii) :
  In c (chars (replace_reserved s)) -> reserved c = false.
Proof.
  induction s as [|a r IH]; [easy|].
  intros [H|H]; [|now apply IH].
  subst c. destruct (reserved a) eqn:E; [reflexivity | exact E].
Qed.

Lemma replace_reserved_fixed (s : string) :
  (forall c, In c (chars s) -> reserved c = false) ->
  replace_reserved s = s.
Proof.
  induction s as [|a r IH]; [reflexivity|].
  intros H. cbn [replace_reserved]. rewrite (H a) by now left.
  rewrite IH; [reflexivity|]. intros c Hc. apply H. now right.
Qed.

Lemma collapse_fixed (s : string) :
  double_underscore s = false -> collapse_underscores s = s.
Proof.
  induction s as [|a r IH]; [reflexivity|].
  cbn [double_underscore]. intros H.
  apply orb_false_iff in H. destruct H as [H1 H2].
  now rewrite collapse_cons, H1, IH.
Qed.

Lemma significant_replace (s : string) :
  filter significant (chars (replace_reserved s))
  = filter significant (chars s).
Proof.
  induction s as [|a r IH]; [reflexivity|].
  unfold chars in *. cbn [replace_reserved list_ascii_of_string filter].
  rewrite IH. destruct (reserved a) eqn:E; [|reflexivity].
  change (significant "_") with false.
  unfold significant. now rewrite E.
Qed.

Lemma significant_collapse (s : string) :
  filter significant (chars (collapse_underscores s))
  = filter significant (chars s).
Proof.
  induction s as [|a r IH]; [reflexivity|].
  rewrite collapse_cons.
  assert (Hs : Ascii.eqb a "_" = true -> significant a = false)
    by (intros E; unfold significant; now rewrite E, andb_false_r).
  unfold chars in *.
  destruct (Ascii.eqb a "_" && leads r) eqn:E;
    cbn [list_ascii_of_string filter]; rewrite IH; [|reflexivity].
  apply andb_true_iff in E. now rewrite (Hs (proj1 E)).
Qed.

(** A string of underscores collapses to one underscore. *)
Lemma collapse_underscores_only (s : string) :
  (forall c, In c (chars s) -> c = "_"%char) ->
  collapse_underscores (String "_" s) = "_"%string.
Proof.
  induction s as [|b r IH]; [reflexivity|].
  intros H.
  assert (Hb : b = "_"%char) by (apply H; now left). subst b.
  rewrite collapse_cons. simpl (Ascii.eqb _ _ && _).
  apply IH. intros c Hc. apply H. now right.
Qed.

Lemma digits_significant (d : Decimal.uint) :
  Forall (fun c => significant c = true)
         (chars (DecimalString.NilEmpty.string_of_uint d)).
Proof.
  unfold chars.
  induction d; simpl; constructor; try reflexivity; assumption.
Qed.

(** A number is written with digits and a sign. *)
Lemma str_significant (n : Z) :
  Forall (fun c => significant c = true) (chars (str n)).
Proof.
  assert (H : forall d, Forall (fun c => significant c = true)
                          (chars (DecimalString.NilZero.string_of_uint d))).
  { intros d. unfold DecimalString.NilZero.string_of_uint.
    destruct d; try apply digits_significant.
    constructor; [reflexivity | constructor]. }
  unfold str, DecimalString.NilZero.string_of_int.
  destruct (Z.to_int n) as [d|d]; [apply H|].
  unfold chars. simpl. constructor; [reflexivity | apply H].
Qed.

Lemma significant_not_reserved (c : ascii) :
  significant c = true -> reserved c = false /\ Ascii.eqb c "_" = false.
Proof.
  unfold significant. intros H. apply andb_true_iff in H.
  destruct H as [H1 H2]. now apply negb_true_iff in H1, H2.
Qed.

Lemma no_underscore_no_double (s : string) :
  (forall c, In c (chars s) -> Ascii.eqb c "_" = false) ->
  leads s = false /\ double_underscore s = false.
Proof.
  induction s as [|a r IH]; [easy|].
  intros H.
  assert (Ha : Ascii.eqb a "_" = false) by (apply H; now left).
  destruct IH as [_ IH]; [intros c Hc; apply H; now right|].
  cbn [leads double_underscore]. now rewrite Ha, IH.
Qed.

(** The tail of the two time-stamped names: the number and the extension. *)
Lemma stamp_significant (n : Z) (c : ascii) :
  In c (chars (String.append (str n) ".mp4")) -> significant c = true.
Proof.
  rewrite chars_append. intros H. apply in_app_or in H.
  destruct H as [H|H].
  - pose proof (str_significant n) as S. rewrite Forall_forall in S.
    now apply S.
  - simpl in H. repeat (destruct H as [<-|H]; [reflexivity|]). contradiction.
Qed.

Lemma fallback_name_chars (now : Z) (c : ascii) :
  In c (chars (fallback_name now)) -> reserved c = false.
Proof.
  unfold fallback_name. rewrite chars_append. intros H.
  apply in_app_or in H. destruct H as [H|H].
  - simpl in H. repeat (destruct H as [<-|H]; [reflexivity|]). contradiction.
  - now apply significant_not_reserved, stamp_significant with (n := now).
Qed.

Lemma fallback_name_no_double (now : Z) :
  double_underscore (fallback_name now) = false.
Proof.
  unfold fallback_name.
  destruct (no_underscore_no_double (String.append (str now) ".mp4")) as [L D].
  { intros c Hc. now apply significant_not_reserved, stamp_significant with (n := now). }
  cbn [String.append double_underscore leads].
  rewrite L, D. reflexivity.
Qed.

Lemma sanitize_filename_unfold (now : Z) (s : string) :
  sanitize_filename now s
  = if String.eqb (collapse_underscores (replace_reserved s)) EmptyString
       || String.eqb (collapse_underscores (replace_reserved s)) "_"
    then fallback_name now
    else collapse_underscores (replace_reserved s).
Proof. reflexivity. Qed.

(** A name with a significant character is not replaced by the default. *)
Lemma sanitize_filename_significant (now : Z) (s : string) (c : ascii) :
  In c (chars s) -> significant c = true ->
  sanitize_filename now s = collapse_underscores (replace_reserved s).
Proof.
  intros Hin Hc. rewrite sanitize_filename_unfold.
  assert (F : In c (filter significant
                      (chars (collapse_underscores (replace_reserved s))))).
  { rewrite significant_collapse, significant_replace.
    apply filter_In. now split. }
  destruct (collapse_underscores (replace_reserved s)) as [|a [|b r]];
    try reflexivity.
  - contradiction.
  - simpl in F. destruct (significant a) eqn:Ea; [|contradiction].
    destruct (significant_not_reserved a Ea) as [_ Eu].
    cbn [String.eqb orb]. now rewrite Eu.
  - cbn [String.eqb orb]. destruct (Ascii.eqb a "_"); reflexivity.
Qed.

Lemma collapse_length (s : string) :
  (List.length (chars (collapse_underscores s))
   <= List.length (chars s))%nat.
Proof.
  induction s as [|a r IH]; [reflexivity|].
  rewrite collapse_cons. unfold chars in *.
  destruct (Ascii.eqb a "_" && leads r); simpl; lia.
Qed.

Lemma replace_reserved_length (s : string) :
  List.length (chars (replace_reserved s)) = List.length (chars s).
Proof.
  induction s as [|a r IH]; [reflexivity|].
  unfold chars in *. simpl. now rewrite IH.
Qed.

Lemma has_char_In (c : ascii) (s : string) :
  has_char c s = true <-> In c (chars s).
Proof.
  unfold has_char, chars. rewrite existsb_exists. split.
  - intros (x & Hx & E). apply Ascii.eqb_eq in E. now subst.
  - intros H. exists c. split; [exact H | apply Ascii.eqb_refl].
Qed.

End FileNames.

(** X1. Whatever the name and the clock, what [sanitize_filename] returns
    holds none of the reserved characters (so no path separator), never two
    underscores side by side, and is neither empty nor a lone underscore. *)
Theorem sanitize_filename_gives_a_safe_name (now : Z) (s : string) :
  (forall c, In c (chars (sanitize_filename now s)) -> reserved c = false) /\
  double_underscore (sanitize_filename now s) = false /\
  sanitize_filename now s <> EmptyString /\
  sanitize_filename now s <> "_"%string.
Proof.
  rewrite sanitize_filename_unfold.
  destruct (String.eqb (collapse_underscores (replace_reserved s)) EmptyString)
    eqn:E1; [|destruct (String.eqb (collapse_underscores (replace_reserved s)) "_")
                eqn:E2]; cbn [orb].
  1,2: split; [apply fallback_name_chars|];
       split; [apply fallback_name_no_double|];
       split; discriminate.
  split; [|split; [apply collapse_no_double|]].
  - intros c Hc. apply (replace_reserved_chars s). now apply collapse_chars.
  - split; now apply String.eqb_neq.
Qed.

(** X2. A name that holds no reserved character and no two underscores
    side by side, and is neither empty nor a lone underscore, is returned
    as it is. *)
Theorem sanitize_filename_keeps_clean_names (now : Z) (s : string) :
  (forall c, In c (chars s) -> reserved c = false) ->
  double_underscore s = false ->
  s <> EmptyString ->
  s <> "_"%string ->
  sanitize_filename now s = s.
Proof.
  intros Hc Hd He Hu. rewrite sanitize_filename_unfold.
  rewrite (replace_reserved_fixed s Hc), (collapse_fixed s Hd).
  apply String.eqb_neq in He, Hu. now rewrite He, Hu.
Qed.

Lemma sanitize_filename_keeps_clean_names_witness :
  sanitize_filename 0 "normal_video.mp4" = "normal_video.mp4"%string.
Proof.
  apply sanitize_filename_keeps_clean_names.
  - intros c H. simpl in H.
    repeat (destruct H as [<-|H]; [reflexivity|]). contradiction.
  - reflexivity.
  - discriminate.
  - discriminate.
Defined.

(** X3. Sanitizing twice is sanitizing once, whatever the clock says the
    second time. *)
Theorem sanitize_filename_is_idempotent (now now' : Z) (s : string) :
  sanitize_filename now' (sanitize_filename now s) = sanitize_filename now s.
Proof.
  assert (K : forall t : string,
            (forall c, In c (chars t) -> reserved c = false) ->
            double_underscore t = false ->
            String.eqb t EmptyString || String.eqb t "_" = false ->
            sanitize_filename now' t = t).
  { intros t Hc Hd Hn. rewrite sanitize_filename_unfold.
    now rewrite (replace_reserved_fixed t Hc), (collapse_fixed t Hd), Hn. }
  rewrite (sanitize_filename_unfold now s).
  destruct (String.eqb (collapse_underscores (replace_reserved s)) EmptyString
            || String.eqb (collapse_underscores (replace_reserved s)) "_")
    eqn:E.
  - apply K; [apply fallback_name_chars | apply fallback_name_no_double
             | reflexivity].
  - apply K; [|apply collapse_no_double | exact E].
    intros c Hc. apply (replace_reserved_chars s). now apply collapse_chars.
Qed.

(** X4. When the name holds a character that is neither reserved nor an
    underscore, sanitizing keeps all such characters, in their order, and
    the result is not longer than the name. *)
Theorem sanitize_filename_keeps_significant_characters
    (now : Z) (s : string) (c : ascii) :
  In c (chars s) ->
  significant c = true ->
  filter significant (chars (sanitize_filename now s))
  = filter significant (chars s) /\
  (List.length (chars (sanitize_filename now s)) <= List.length (chars s))%nat.
Proof.
  intros Hin Hc. rewrite (sanitize_filename_significant now s c Hin Hc).
  split.
  - now rewrite significant_collapse, significant_replace.
  - rewrite <- (replace_reserved_length s). apply collapse_length.
Qed.

Lemma sanitize_filename_keeps_significant_characters_witness :
  filter significant (chars (sanitize_filename 0 "a__b<c>.mp4"))
  = filter significant (chars "a__b<c>.mp4") /\
  (List.length (chars (sanitize_filename 0 "a__b<c>.mp4"))
   <= List.length (chars "a__b<c>.mp4"))%nat.
Proof.
  apply (sanitize_filename_keeps_significant_characters 0 "a__b<c>.mp4" "a").
  - simpl. now left.
  - reflexivity.
Defined.

(** X5. A name made of reserved characters and underscores only, the empty
    name among them, is replaced by the default [video_<clock>.mp4]. *)
Theorem sanitize_filename_falls_back (now : Z) (s : string) :
  (forall c, In c (chars s) -> significant c = false) ->
  sanitize_filename now s
  = String.append "video_" (String.append (str now) ".mp4").
Proof.
  intros H. rewrite sanitize_filename_unfold.
  assert (U : forall c, In c (chars (replace_reserved s)) -> c = "_"%char).
  { clear -H. induction s as [|a r IH]; [easy|].
    intros c [Hc|Hc].
    - subst c. destruct (reserved a) eqn:E; [reflexivity|].
      assert (Ha : significant a = false) by (apply H; now left).
      unfold significant in Ha. rewrite E in Ha. simpl in Ha.
      apply negb_false_iff, Ascii.eqb_eq in Ha. exact Ha.
    - apply IH; [|exact Hc]. intros c' Hc'. apply H. now right. }
  destruct (replace_reserved s) as [|a r]; [reflexivity|].
  assert (Ha : a = "_"%char) by (apply U; now left). subst a.
  rewrite collapse_underscores_only; [reflexivity|].
  intros c Hc. apply U. now right.
Qed.

Lemma sanitize_filename_falls_back_witness :
  sanitize_filename 1700000000 "<_>" = "video_1700000000.mp4"%string.
Proof.
  apply (sanitize_filename_falls_back 1700000000 "<_>").
  intros c H. simpl in H.
  repeat (destruct H as [<-|H]; [reflexivity|]). contradiction.
Defined.

(** X6. The name [download_video] gives the file, whatever the path of the
    URL and the clock: it holds no reserved character, so no path separator,
    and no two underscores side by side; it holds a dot; and the default of
    [sanitize_filename] is never used for it. *)
Theorem download_filename_is_safe (now now' : Z) (path : string) :
  (forall c, In c (chars (download_filename now now' path)) ->
             reserved c = false) /\
  double_underscore (download_filename now now' path) = false /\
  has_char "." (download_filename now now' path) = true /\
  download_filename now now' path = download_filename now 0 path.
Proof.
  unfold download_filename.
  set (f := if String.eqb (basename path) EmptyString
               || negb (has_char "." (basename path))
            then String.append "downloaded_video_"
                               (String.append (str now) ".mp4")
            else basename path).
  assert (Hdot : In "."%char (chars f)).
  { subst f.
    destruct (String.eqb (basename path) EmptyString); cbn [orb].
    - rewrite !chars_append. apply in_or_app. right. apply in_or_app. right.
      simpl. now left.
    - destruct (has_char "." (basename path)) eqn:E; cbn [negb].
      + now apply has_char_In.
      + rewrite !chars_append. apply in_or_app. right. apply in_or_app. right.
        simpl. now left. }
  rewrite (sanitize_filename_significant now' f "." Hdot eq_refl).
  rewrite (sanitize_filename_significant 0 f "." Hdot eq_refl).
  split; [|split; [apply collapse_no_double|split; [|reflexivity]]].
  - intros c Hc. apply (replace_reserved_chars f). now apply collapse_chars.
  - apply has_char_In.
    assert (F : In "."%char
                  (filter significant
                     (chars (collapse_underscores (replace_reserved f))))).
    { rewrite significant_collapse, significant_replace.
      apply filter_In. now split. }
    apply filter_In in F. exact (proj1 F).
Qed.

(** ** The check of the URL *)

Lemma lower_append (a b : string) :
  lower (String.append a b) = String.append (lower a) (lower b).
Proof. induction a as [|c a IH]; simpl; [reflexivity | now rewrite IH]. Qed.

Lemma endswith_append (a b : string) : endswith (String.append a b) b = true.
Proof.
  induction a as [|c a IH].
  - destruct b; simpl; [reflexivity|].
    now rewrite Ascii.eqb_refl, String.eqb_refl.
  - simpl String.append. cbn [endswith]. rewrite IH. apply orb_true_r.
Qed.

(** X7. [validate_url] accepts every URL whose path ends, in any letter
    case, with one of the eight video extensions, whatever the answer to the
    [HEAD] request is, be it a content type of another kind or a failure. *)
Theorem validate_url_accepts_video_extensions
    (head : option string) (stem ext : string) :
  In (lower ext) video_extensions ->
  validate_url head (String.append stem ext) = true.
Proof.
  intros H. unfold validate_url. destruct head as [ct|]; [|reflexivity].
  destruct (contains "video" (lower ct)); [reflexivity|].
  replace (existsb _ video_extensions) with true; [reflexivity|].
  symmetry. apply existsb_exists. exists (lower ext). split; [exact H|].
  rewrite lower_append. apply endswith_append.
Qed.

Lemma validate_url_accepts_video_extensions_witness :
  validate_url (Some "text/html"%string) "/clips/Holiday.MP4" = true.
Proof.
  apply (validate_url_accepts_video_extensions
           (Some "text/html"%string) "/clips/Holiday" ".MP4").
  simpl. tauto.
Defined.

(** ** What [extract_frames] does in every case *)

Section ExtractAlways.

Variables (e : VideoFrameExtractor) (env : Env).

Lemma calls_nil (w : World) (new : list SavedFrame) :
  imwrite_calls w = imwrite_calls w ++ new -> new = [].
Proof.
  intros H. rewrite <- (app_nil_r (imwrite_calls w)) in H at 1.
  apply app_inv_head in H. now subst.
Qed.

(** The loop calls [imwrite] for no frame before the one it stands at. *)
Lemma loop_lower_bound (fuel : nat) :
  forall (s : Sampler) (w : World) (new : list SavedFrame),
    cap_pos (s_cap s) = frame_count s ->
    imwrite_calls (snd (while fuel (sampler_body e env) s w))
    = imwrite_calls w ++ new ->
    Forall (fun sf => frame_count s <= frame_index sf) new.
Proof.
  induction fuel as [|n IH]; intros s w new Hpos H.
  - simpl in H. apply calls_nil in H. subst. constructor.
  - simpl in H. unfold bind in H.
    pose proof (sampler_body_cases e env s w Hpos) as C.
    destruct (sampler_body e env s w) as [r w1].
    inversion C; subst; clear C; simpl in H.
    + apply calls_nil in H. subst. constructor.
    + specialize (IH (advance s (saved_count s)) w1 new eq_refl H).
      eapply Forall_impl; [|exact IH]. simpl. intros sf Hsf. lia.
    + match type of H with
      | context [after_call e w (call_for e s f') ?b] =>
          destruct (loop_trace e env n (advance s (saved_count s + 1))
                      (after_call e w (call_for e s f') b) eq_refl)
            as (new' & (Cw & _) & _)
      end.
      pose proof (IH (advance s (saved_count s + 1)) _ new' eq_refl Cw) as B.
      rewrite Cw in H. simpl in H. rewrite <- app_assoc in H.
      apply app_inv_head in H. subst new. constructor; [simpl; lia|].
      eapply Forall_impl; [|exact B]. simpl. intros sf Hsf. lia.
    + apply calls_nil in H. subst. constructor.
    + apply calls_nil in H. subst. constructor.
    + apply app_inv_head in H. subst new.
      constructor; [simpl; lia | constructor].
Qed.

(** The calls of [imwrite] that [extract_frames] adds are those of its
    loop. *)
Lemma extract_frames_calls (v : Video) (w : World) :
  capture env = Some v ->
  Qeq_bool (prop_fps v) 0 = false ->
  loop_reached e (prop_fps v) = true ->
  imwrite_calls (snd (extract_frames e env w))
  = imwrite_calls
      (snd (while (sampler_fuel (initial_sampler e v)) (sampler_body e env)
                  (initial_sampler e v)
                  (mkWorld (files w) (log w ++ [mkLog INFO "Extracting frames"])
                           (imwrite_calls w) (metadata w) (video_path w)))).
Proof.
  intros Hc Hf Hl.
  unfold extract_frames, try_except, extract_frames_try, bind.
  rewrite (sampler_open_Some e env v w Hc Hf Hl).
  destruct (while _ _ _ _) as [[s'|x|] w1]; simpl; try reflexivity.
  destruct (is_Exception x); reflexivity.
Qed.

Lemma unreached_calls (v : Video) (w : World) :
  capture env = Some v ->
  Qeq_bool (prop_fps v) 0 = false ->
  loop_reached e (prop_fps v) = false ->
  imwrite_calls (snd (extract_frames e env w)) = imwrite_calls w.
Proof.
  intros Hc Hf Hl.
  unfold extract_frames, try_except, extract_frames_try, bind.
  destruct (sampler_open_raises e env v w Hc Hf Hl) as (x & l & -> & Hx & _).
  now rewrite Hx.
Qed.

Lemma zero_rate_calls (v : Video) (w : World) :
  capture env = Some v ->
  Qeq_bool (prop_fps v) 0 = true ->
  imwrite_calls (snd (extract_frames e env w)) = imwrite_calls w.
Proof.
  intros Hc Hf.
  unfold extract_frames, try_except, extract_frames_try, bind, sampler_open.
  rewrite Hc, Hf. reflexivity.
Qed.

Lemma unopened_calls (w : World) :
  capture env = None ->
  imwrite_calls (snd (extract_frames e env w)) = imwrite_calls w.
Proof.
  intros Hc.
  unfold extract_frames, try_except, extract_frames_try, bind, sampler_open.
  rewrite Hc. reflexivity.
Qed.

End ExtractAlways.


(** X9. A video that cannot be opened, or that reports a frame rate of 0:
    [extract_frames] returns 0, hands no frame to [imwrite], writes no
    file, leaves [self.metadata] as it was (no [frames_extracted] is
    recorded) and logs one line, an error. *)
Theorem unreadable_video_extracts_nothing
    (e : VideoFrameExtractor) (env : Env) (w : World) :
  capture env = None \/
  (exists v, capture env = Some v /\ (prop_fps v == 0)%Q) ->
  fst (extract_frames e env w) = Val 0 /\
  imwrite_calls (snd (extract_frames e env w)) = imwrite_calls w /\
  files (snd (extract_frames e env w)) = files w /\
  metadata (snd (extract_frames e env w)) = metadata w /\
  exists text,
    log (snd (extract_frames e env w)) = log w ++ [mkLog ERROR text].
Proof.
  intros [Hc | (v & Hc & Hf)];
    unfold extract_frames, try_except, extract_frames_try, bind, sampler_open;
    rewrite Hc.
  - simpl. repeat split. now exists "Could not open video file"%string.
  - apply Qeq_bool_iff in Hf. rewrite Hf. simpl. repeat split.
    now exists "Error extracting frames"%string.
Qed.

Lemma unreadable_video_extracts_nothing_witness :
  fst (extract_frames (init "u" "frames" 2 95 None 0 None)
                      (quiet_env (Some (uniform_video 0 48 1080 1920)))
                      empty_world) = Val 0 /\
  imwrite_calls (snd (extract_frames (init "u" "frames" 2 95 None 0 None)
                        (quiet_env (Some (uniform_video 0 48 1080 1920)))
                        empty_world)) = [].
Proof.
  destruct (unreadable_video_extracts_nothing
              (init "u" "frames" 2 95 None 0 None)
              (quiet_env (Some (uniform_video 0 48 1080 1920)))
              empty_world) as (R & C & _).
  - right. exists (uniform_video 0 48 1080 1920). split; reflexivity.
  - split; [exact R | exact C].
Defined.

(** X10. When [extract_frames] returns a positive number, that number is
    the count of the calls of [imwrite] it made, it is what
    [self.metadata] holds under [frames_extracted], and no warning or error
    was logged. *)
Theorem positive_count_is_recorded
    (e : VideoFrameExtractor) (env : Env) (w : World) (n : Z) :
  fst (extract_frames e env w) = Val n ->
  0 < n ->
  frames_extracted (metadata (snd (extract_frames e env w))) = Some n /\
  exists new,
    imwrite_calls (snd (extract_frames e env w)) = imwrite_calls w ++ new /\
    Z.of_nat (List.length new) = n /\
    exists l, log (snd (extract_frames e env w)) = log w ++ l /\ quiet_log l.
Proof.
  unfold extract_frames, try_except.
  destruct (extract_frames_try e env w) as [[m|x|] w'] eqn:E; simpl.
  - intros Hm Hn. inversion Hm; subst m.
    destruct (capture env) as [v|] eqn:Hc.
    + destruct (extract_frames_try_normal e env v w w' n Hc E)
        as (new & stop & Cw & Hl & Hm' & _ & _ & _ & _ & _ & _ & L).
      split; [exact Hm'|]. exists new. repeat split; [exact Cw | now symmetry | exact L].
    + unfold extract_frames_try, bind, sampler_open in E. rewrite Hc in E.
      simpl in E. inversion E. lia.
  - destruct (is_Exception x); simpl; intros Hm Hn; [|discriminate].
    inversion Hm. lia.
  - discriminate.
Qed.

Lemma positive_count_is_recorded_witness :
  frames_extracted
    (metadata (snd (extract_frames (init "u" "frames" 2 95 None 0 None)
                      (quiet_env (Some (uniform_video 24 96 1080 1920)))
                      empty_world))) = Some 2.
Proof.
  apply (positive_count_is_recorded
           (init "u" "frames" 2 95 None 0 None)
           (quiet_env (Some (uniform_video 24 96 1080 1920)))
           empty_world 2).
  - vm_compute. reflexivity.
  - lia.
Defined.

(** X11. Every frame [extract_frames] hands to [imwrite], also in a run
    that an exception stops, lies in the window: its index is at least
    [start_frame], below [end_frame] and below the frame count the container
    reports, and it is a frame that could be read; its time stamp is the
    double that its index divided by the frame rate is rounded to. *)
Theorem sampled_frames_lie_in_the_window
    (e : VideoFrameExtractor) (env : Env) (v : Video) (w : World) :
  capture env = Some v ->
  exists new,
    imwrite_calls (snd (extract_frames e env w)) = imwrite_calls w ++ new /\
    forall sf, In sf new ->
      start_frame_of e (prop_fps v) <= frame_index sf /\
      frame_index sf < end_frame_of e (prop_fps v) (prop_frame_count v) /\
      frame_index sf < prop_frame_count v /\
      0 <= frame_index sf < Z.of_nat (List.length (decodable v)) /\
      timestamp sf = Py.div (Py.of_int (frame_index sf)) (prop_fps v).
Proof.
  intros Hc.
  destruct (extract_frames_trace e env w)
    as (n & new & _ & Cw & _ & _ & _ & _ & Ok).
  exists new. split; [exact Cw|].
  intros sf Hin. specialize (Ok v Hc). rewrite Forall_forall in Ok.
  destruct (Ok sf Hin) as (f & f' & Hf & _ & _ & _ & Ht & _ & _ & _ & He).
  assert (Hlo : start_frame_of e (prop_fps v) <= frame_index sf).
  { destruct (Qeq_bool (prop_fps v) 0) eqn:Hz.
    - exfalso.
      rewrite (zero_rate_calls e env v w Hc Hz) in Cw. apply calls_nil in Cw. now subst.
    - destruct (loop_reached e (prop_fps v)) eqn:Hl.
      + rewrite (extract_frames_calls e env v w Hc Hz Hl) in Cw.
        pose proof (loop_lower_bound e env _ (initial_sampler e v) _ new
                      eq_refl Cw) as B.
        rewrite Forall_forall in B. exact (B sf Hin).
      + exfalso.
        rewrite (unreached_calls e env v w Hc Hz Hl) in Cw.
        apply calls_nil in Cw. now subst. }
  assert (Htot : frame_index sf < prop_frame_count v).
  { destruct (loop_reached e (prop_fps v)) eqn:Hl.
    - destruct (loop_reached_values e (prop_fps v) (prop_frame_count v) Hl)
        as (_ & Ve & _).
      unfold end_frame, and_then in Ve.
      destruct (match end_time e with
                | Some t => if Py.truthyQ (Some t)
                            then int_float (Py.mul t (prop_fps v))
                            else Val (prop_frame_count v)
                | None => Val (prop_frame_count v)
                end) as [m| |]; try discriminate.
      inversion Ve as [Hm]. rewrite <- Hm in He. lia.
    - unfold start_frame_of in Hlo. unfold end_frame_of in He.
      rewrite Hl in Hlo, He. lia. }
  split; [exact Hlo|]. split; [exact He|].
  split; [exact Htot|].
  split; [|exact Ht].
  apply frame_at_Some_iff. rewrite Hf. discriminate.
Qed.

Lemma sampled_frames_lie_in_the_window_witness :
  exists new,
    imwrite_calls
      (snd (extract_frames (init "u" "frames" 2 95 None 10 (Some 20%Q))
              (quiet_env (Some (uniform_video 24 480 1080 1920)))
              empty_world))
    = new /\
    forall sf, In sf new -> 240 <= frame_index sf < 480.
Proof.
  destruct (sampled_frames_lie_in_the_window
              (init "u" "frames" 2 95 None 10 (Some 20%Q))
              (quiet_env (Some (uniform_video 24 480 1080 1920)))
              (uniform_video 24 480 1080 1920) empty_world eq_refl)
    as (new & Cw & B).
  exists new. split; [exact Cw|].
  intros sf Hin. destruct (B sf Hin) as (Lo & Hi & _).
  replace (start_frame_of _ _) with 240 in Lo by (vm_compute; reflexivity).
  replace (end_frame_of _ _ _) with 480 in Hi by (vm_compute; reflexivity).
  lia.
Defined.

(** X12. An extractor built by the constructor hands every frame to
    [imwrite] with a JPEG quality between 1 and 100, whatever quality the
    constructor was given. *)
Theorem every_frame_is_written_with_a_valid_quality
    (url folder : string) (i : Q) (q : Z) (mw : option Z) (st : Q)
    (et : option Q) (env : Env) (w : World) :
  exists new,
    imwrite_calls (snd (extract_frames (init url folder i q mw st et) env w))
    = imwrite_calls w ++ new /\
    forall sf, In sf new ->
      jpeg_quality sf = Z.max 1 (Z.min 100 q) /\ 1 <= jpeg_quality sf <= 100.
Proof.
  destruct (extract_frames_trace (init url folder i q mw st et) env w)
    as (n & new & _ & Cw & _ & _ & _ & _ & Ok).
  exists new. split; [exact Cw|].
  intros sf Hin.
  destruct (capture env) as [v|] eqn:Hc.
  - specialize (Ok v eq_refl). rewrite Forall_forall in Ok.
    destruct (Ok sf Hin) as (f & f' & _ & _ & _ & _ & _ & Hq & _).
    rewrite Hq. simpl. lia.
  - exfalso.
    rewrite (unopened_calls (init url folder i q mw st et) env w Hc) in Cw. apply calls_nil in Cw. now subst.
Qed.

(** ** The player *)

Section PlayerTurns.

Variables (env : Env) (st : Q) (et : option Q) (sc : bool).

(** What showing a frame leaves of the player: it ends, raises nothing but
    an exception derived from [Exception], and when it goes on to the key
    it has read one frame and the display works. *)
Lemma player_show_spec (p : Player) (w : World) :
  match player_show env et p w with
  | (Val (stop, p1), w1) =>
      w1 = w /\
      p_keys p1 = p_keys p /\ p_delay p1 = p_delay p /\
      p_fps p1 = p_fps p /\ p_total_frames p1 = p_total_frames p /\
      p_paused p1 = p_paused p /\
      cap_video (p_cap p1) = cap_video (p_cap p) /\
      (stop = false ->
       headless env = false /\
       0 <= cap_pos (p_cap p) /\
       cap_pos (p_cap p1) = cap_pos (p_cap p) + 1 /\
       cap_pos (p_cap p)
       < Z.of_nat (List.length (decodable (cap_video (p_cap p)))))
  | (Exn x, _) => is_Exception x = true
  | (Diverge, _) => False
  end.
Proof.
  unfold player_show, cap_read.
  destruct ((0 <=? cap_pos (p_cap p))
            && (cap_pos (p_cap p)
                <? Z.of_nat (List.length (decodable (cap_video (p_cap p))))))
    eqn:G.
  - apply andb_true_iff in G. destruct G as [G0 G1].
    apply Z.leb_le in G0. apply Z.ltb_lt in G1.
    destruct (nth_error _ _) as [f|].
    + match goal with |- context [if ?b then ret (true, _) else _] =>
        destruct b end.
      * simpl. repeat split; intros; discriminate.
      * unfold bind, lift.
        destruct (tame_display_frame f) as [Td Tx].
        destruct (display_frame f) as [f'|x|]; [|now apply Tx|contradiction].
        destruct (Qeq_bool (p_fps p) 0); [reflexivity|].
        destruct (headless env) eqn:Hh; [reflexivity|].
        simpl. repeat split; assumption.
    + simpl. repeat split; intros; discriminate.
  - simpl. repeat split; intros; discriminate.
Qed.

Lemma waitKey_ext (p p1 : Player) :
  p_keys p1 = p_keys p -> p_delay p1 = p_delay p ->
  waitKey p1 = waitKey p /\ waits_for_ever p1 = waits_for_ever p.
Proof. intros Hk Hd. unfold waitKey, waits_for_ever. now rewrite Hk, Hd. Qed.

Lemma next_press_idle (ks : list Z) (k : Z) (r : list Z) :
  Forall idle_key ks -> next_press ks = Some (k, r) ->
  idle_key k /\ Forall idle_key r.
Proof.
  induction 1 as [|a l Ha Hl IH]; simpl; [discriminate|].
  destruct (a =? -1); [exact IH|].
  intros H. inversion H; subst. now split.
Qed.

(** The key an idle keyboard gives is none of [q], [p] and [r]. *)
Lemma waitKey_idle (p : Player) :
  Forall idle_key (p_keys p) ->
  fst (waitKey p) <> ord_q /\ fst (waitKey p) <> ord_p /\
  fst (waitKey p) <> ord_r /\ Forall idle_key (snd (waitKey p)).
Proof.
  intros H. unfold waitKey.
  assert (N : 255 <> ord_q /\ 255 <> ord_p /\ 255 <> ord_r /\
              Forall idle_key []).
  { repeat split; try discriminate. constructor. }
  destruct (p_delay p <=? 0).
  - destruct (next_press (p_keys p)) as [[k r]|] eqn:E; [|exact N].
    destruct (next_press_idle _ _ _ H E) as [(Hq & Hp & Hr) Hrest].
    now repeat split.
  - destruct (p_keys p) as [|k r]; [exact N|].
    inversion H as [|? ? (Hq & Hp & Hr) Hrest]; subst. now repeat split.
Qed.

(** The key read when no key is pressed within a positive delay. *)
Lemma player_key_no_key (p : Player) (w : World) :
  0 < p_delay p -> c_int (p_delay p) = true -> p_keys p = [] ->
  player_key st sc p w
  = (Val (inl (mkPlayer (p_cap p) (p_fps p) (p_delay p) (p_total_frames p)
                        (p_paused p) (p_current_frame p) [])), w).
Proof.
  intros Hd Hc Hk. unfold player_key, waits_for_ever, waitKey.
  assert (D : (p_delay p <=? 0) = false) by (apply Z.leb_gt; lia).
  rewrite Hc, D, Hk. reflexivity.
Qed.

Lemma c_int_iff (n : Z) :
  c_int n = true <-> -2147483648 <= n <= 2147483647.
Proof. unfold c_int. rewrite andb_true_iff, !Z.leb_le. tauto. Qed.

(** The key read from an idle keyboard: the call does not return, or the
    loop goes on with the pause as it was. *)
Lemma player_key_idle (p : Player) (w : World) :
  Forall idle_key (p_keys p) ->
  (exists x, Py.mul 10 (p_fps p) = Py.Fin x) ->
  c_int (p_delay p) = true ->
  fst (player_key st sc p w) = Diverge \/
  exists p' w',
    player_key st sc p w = (Val (inl p'), w') /\
    p_paused p' = p_paused p /\ p_fps p' = p_fps p /\
    p_delay p' = p_delay p /\
    Forall idle_key (p_keys p').
Proof.
  intros Hk [x Hx] Hc. unfold player_key. rewrite Hc. cbn [negb].
  destruct (waits_for_ever p); [now left|right].
  destruct (waitKey_idle p Hk) as (Hq & Hp & Hr & Hrest).
  destruct (waitKey p) as [key rest]. simpl in *.
  apply Z.eqb_neq in Hq, Hp, Hr. rewrite Hq, Hp, Hr.
  unfold bind, lift. rewrite Hx. simpl.
  destruct (key =? ord_f); [|destruct (key =? ord_b)];
    destruct sc; simpl;
    (eexists; eexists; split; [reflexivity|]; simpl; now repeat split).
Qed.

(** What the seek keys do to the read position. *)
Lemma player_key_seek (p p' : Player) (w w' : World) :
  player_key st sc p w = (Val (inl p'), w') ->
  p_current_frame p' = p_current_frame p /\
  (fst (waitKey p) = ord_f ->
   exists step,
     int_float (Py.mul 10 (p_fps p)) = Val step /\
     cap_pos (p_cap p')
     = Z.min (p_current_frame p + step) (p_total_frames p - 1)) /\
  (fst (waitKey p) = ord_b ->
   exists step,
     int_float (Py.mul 10 (p_fps p)) = Val step /\
     cap_pos (p_cap p') = Z.max (p_current_frame p - step) 0).
Proof.
  unfold player_key.
  destruct (negb (c_int (p_delay p))); [discriminate|].
  destruct (waits_for_ever p); [discriminate|].
  destruct (waitKey p) as [key rest].
  cbn [fst p_cap p_fps p_delay p_total_frames p_paused p_current_frame p_keys].
  destruct (key =? ord_q) eqn:Eq; [discriminate|].
  destruct (key =? ord_p) eqn:Ep.
  { apply Z.eqb_eq in Ep. subst key.
    destruct sc; simpl; intros H; inversion H; subst; simpl;
      (split; [reflexivity|split; intros C; vm_compute in C; discriminate]). }
  destruct (key =? ord_r) eqn:Er.
  { apply Z.eqb_eq in Er. subst key. unfold bind, lift.
    destruct (if Py.gt0 st then _ else _) as [n|x|]; [|discriminate..].
    destruct sc; simpl; intros H; inversion H; subst; simpl;
      (split; [reflexivity|split; intros C; vm_compute in C; discriminate]). }
  destruct (key =? ord_f) eqn:Ef.
  { apply Z.eqb_eq in Ef. subst key. unfold bind, lift.
    destruct (int_float (Py.mul 10 (p_fps p))) as [n|x|]; [|discriminate..].
    destruct sc; simpl; intros H; inversion H; subst; simpl;
      (split; [reflexivity|split; [intros _; now exists n|intros C; vm_compute in C; discriminate]]). }
  destruct (key =? ord_b) eqn:Eb.
  { apply Z.eqb_eq in Eb. subst key. unfold bind, lift.
    destruct (int_float (Py.mul 10 (p_fps p))) as [n|x|]; [|discriminate..].
    destruct sc; simpl; intros H; inversion H; subst; simpl;
      (split; [reflexivity|split; [intros C; vm_compute in C; discriminate|intros _; now exists n]]). }
  apply Z.eqb_neq in Ef, Eb.
  intros H; inversion H; subst; simpl.
  split; [reflexivity|]. split; intros; contradiction.
Qed.

(** One turn of a player that is not paused and gets no key within its
    delay: the loop is left, or a catchable exception is raised, or one
    frame has been read. *)
Lemma unattended_turn (p : Player) (w : World) :
  p_paused p = false ->
  p_keys p = [] ->
  0 < p_delay p ->
  match fst (player_body env st et sc p w) with
  | Val (inl p') =>
      p_paused p' = false /\ p_keys p' = [] /\ 0 < p_delay p' /\
      cap_video (p_cap p') = cap_video (p_cap p) /\
      0 <= cap_pos (p_cap p) /\
      (S (frames_left p') = frames_left p)%nat
  | Val (inr _) => True
  | Exn x => is_Exception x = true
  | Diverge => False
  end.
Proof.
  intros Hp Hk Hd.
  unfold player_body, bind. rewrite Hp.
  pose proof (player_show_spec p w) as S.
  destruct (player_show env et p w) as [[[stop p1]|x|] w1]; simpl;
    [|exact S|contradiction].
  destruct S as (-> & Sk & Sd & _ & _ & Sp & Sv & Sn).
  destruct stop; [exact I|].
  destruct (Sn eq_refl) as (_ & N0 & N1 & N2).
  destruct (c_int (p_delay p1)) eqn:Ci.
  - rewrite player_key_no_key by congruence. simpl.
    repeat split; try congruence; try lia.
    unfold frames_left; simpl. rewrite Sv, N1. lia.
  - unfold player_key. rewrite Ci. reflexivity.
Qed.

(** An unattended player leaves its loop after at most one turn for each
    frame left, and one more. *)
Lemma unattended_loop (fuel : nat) : forall (p : Player) (w : World),
  p_paused p = false ->
  p_keys p = [] ->
  0 < p_delay p ->
  (frames_left p < fuel)%nat ->
  match fst (while fuel (player_body env st et sc) p w) with
  | Val _ => True
  | Exn x => is_Exception x = true
  | Diverge => False
  end.
Proof.
  induction fuel as [|n IH]; intros p w Hp Hk Hd Hf; [lia|].
  simpl. unfold bind.
  pose proof (unattended_turn p w Hp Hk Hd) as T.
  destruct (player_body env st et sc p w) as [[[p'|p']|x|] w1]; simpl in T.
  - destruct T as (Hp' & Hk' & Hd' & _ & _ & Hl).
    apply IH; [assumption | assumption | assumption | lia].
  - exact I.
  - exact T.
  - contradiction.
Qed.

(** One turn of a player that cannot show a frame: the loop is left or a
    catchable exception is raised. *)
Lemma headless_turn (p : Player) (w : World) :
  headless env = true ->
  p_paused p = false ->
  match fst (player_body env st et sc p w) with
  | Val (inl _) => False
  | Val (inr _) => True
  | Exn x => is_Exception x = true
  | Diverge => False
  end.
Proof.
  intros Hh Hp.
  unfold player_body, bind. rewrite Hp.
  pose proof (player_show_spec p w) as S.
  destruct (player_show env et p w) as [[[stop p1]|x|] w1]; simpl;
    [|exact S|contradiction].
  destruct S as (_ & _ & _ & _ & _ & _ & _ & Sn).
  destruct stop; [exact I|].
  destruct (Sn eq_refl) as (N & _). congruence.
Qed.

(** One turn of a paused player that gets an idle key, or none: the call of
    [waitKey] does not return, or the player stays paused and the loop goes
    on. *)
Lemma paused_turn (p : Player) (w : World) :
  p_paused p = true ->
  Forall idle_key (p_keys p) ->
  (exists x, Py.mul 10 (p_fps p) = Py.Fin x) ->
  c_int (p_delay p) = true ->
  fst (player_body env st et sc p w) = Diverge \/
  exists p' w',
    player_body env st et sc p w = (Val (inl p'), w') /\
    p_paused p' = true /\ Forall idle_key (p_keys p') /\
    p_fps p' = p_fps p /\ p_delay p' = p_delay p.
Proof.
  intros Hp Hk Hx Hc.
  unfold player_body, bind. rewrite Hp. unfold ret at 1. cbn beta iota.
  destruct (player_key_idle p w Hk Hx Hc)
    as [D|(p' & w' & E & Pp & Pf & Pd & Pk)].
  - now left.
  - right. exists p', w'. split; [exact E|]. split; [congruence|].
    now repeat split.
Qed.

End PlayerTurns.

(** X13. [play] raises nothing, whatever OpenCV does, and changes nothing
    but the log: no file, no call of [imwrite], not [self.metadata] and not
    [self.video_path]. *)
Theorem play_changes_only_the_log
    (env : Env) (st : Q) (et : option Q) (sc : bool) (w : World) :
  (fst (play env st et sc w) = Val tt \/
   fst (play env st et sc w) = Diverge) /\
  files (snd (play env st et sc w)) = files w /\
  imwrite_calls (snd (play env st et sc w)) = imwrite_calls w /\
  metadata (snd (play env st et sc w)) = metadata w /\
  video_path (snd (play env st et sc w)) = video_path w.
Proof.
  assert (K : Keeps SameButLog (play env st et sc)).
  { apply keeps_play.
    - exact SameButLog_refl.
    - exact SameButLog_trans.
    - intros l t w0. now repeat split. }
  assert (N : NoRaise (play env st et sc)).
  { unfold play. apply noraise_try_except; [|apply noraise_player_except].
    apply catchable_bind; [apply catchable_player_open|].
    intros [p0|]; [|apply catchable_ret].
    apply catchable_bind; [|intros; apply catchable_ret].
    apply catchable_while. intros. apply catchable_player_body. }
  specialize (K w). specialize (N w).
  destruct (play env st et sc w) as [[[]|x|] w1]; simpl in *.
  - split; [now left | exact K].
  - exfalso. now apply (N x).
  - split; [now right | exact K].
Qed.

(** The loop of [play], inside its handler, from the player [p]. *)
Lemma play_from_open (env : Env) (st : Q) (et : option Q) (sc : bool)
    (w : World) :
  (forall p w1,
     fst (player_open env st sc w) = Val (Some p) ->
     match fst (while (play_fuel env) (player_body env st et sc) p w1) with
     | Val _ => True
     | Exn x => is_Exception x = true
     | Diverge => False
     end) ->
  fst (play env st et sc w) = Val tt.
Proof.
  intros H. unfold play, try_except, bind.
  pose proof (ends_player_open env st sc w) as E.
  pose proof (catchable_player_open env st sc w) as C.
  destruct (player_open env st sc w) as [[[p0|]|x|] w1] eqn:O; simpl in *.
  - specialize (H p0 w1 eq_refl).
    destruct (while _ _ _ _) as [[p'|x|] w2]; simpl in *.
    + reflexivity.
    + now rewrite H.
    + contradiction.
  - reflexivity.
  - now rewrite (C x eq_refl).
  - contradiction.
Qed.

(** The delay between two frames: [int(1000 / fps) if fps > 0 else 33]
    is at least one millisecond at a frame rate of 1000 at most. *)
Lemma delay_positive (fps : Q) (d : Z) :
  (fps <= 1000)%Q ->
  (if Py.gt0 fps then int_float (Py.div 1000 fps) else Val 33) = Val d ->
  0 < d.
Proof.
  intros Hf. destruct (Py.gt0 fps) eqn:G.
  - apply gt0_true in G. intros H.
    apply int_float_Val in H. destruct H as (q & E & ->).
    apply fl_Fin in E. subst q.
    assert (H1 : (1 <= 1000 / fps)%Q).
    { apply Qle_shift_div_l; [exact G|]. now rewrite Qmult_1_l. }
    pose proof (nearest_le_compat _ _ H1) as M.
    assert (N1 : (Py.nearest 1 == 1)%Q)
      by (apply Qeq_bool_iff; vm_compute; reflexivity).
    rewrite N1 in M.
    assert (P : (0 <= Py.nearest (1000 / fps))%Q) by lra.
    rewrite (int_nonneg_floor _ P).
    apply Z.lt_le_trans with (Qfloor 1); [reflexivity|].
    now apply Qfloor_resp_le.
  - intros H. inversion H. lia.
Qed.

Lemma player_open_state (env : Env) (st : Q) (sc : bool) (w : World)
    (p : Player) :
  fst (player_open env st sc w) = Val (Some p) ->
  p_paused p = false /\ p_keys p = keys env /\
  capture env = Some (cap_video (p_cap p)) /\
  ((prop_fps (cap_video (p_cap p)) <= 1000)%Q -> 0 < p_delay p).
Proof.
  unfold player_open. destruct (capture env) as [v|]; [|discriminate].
  unfold bind, lift.
  destruct (if Py.gt0 (prop_fps v) then _ else _) as [d|x|] eqn:D;
    [|discriminate..].
  destruct (if Py.gt0 st then _ else _) as [c|x|] eqn:C; [|discriminate..].
  assert (Hc : cap_video c = v).
  { destruct (Py.gt0 st); [|now inversion C].
    destruct (int_float (Py.mul st (prop_fps v))); simpl in C; inversion C.
    reflexivity. }
  destruct sc; simpl; intros H; inversion H; subst; simpl;
    (split; [reflexivity|split; [reflexivity|split; [reflexivity|]]]);
    intros Hf; exact (delay_positive _ _ Hf D).
Qed.

(** X14. Without a key press, playback ends: at a frame rate of 1000 at
    most, so that the delay between two frames is at least a millisecond,
    and when the loop of [play] can make one turn more than the video has
    frames to decode, [play] returns, whatever the window and the
    display. *)
Theorem playback_ends_without_keys
    (env : Env) (st : Q) (et : option Q) (sc : bool) (w : World) :
  keys env = [] ->
  (forall v, capture env = Some v ->
             (prop_fps v <= 1000)%Q /\
             (List.length (decodable v) < play_fuel env)%nat) ->
  fst (play env st et sc w) = Val tt.
Proof.
  intros Hk Hf. apply play_from_open. intros p w1 O.
  destruct (player_open_state env st sc w p O) as (Hp & Hkp & Hc & Hd).
  destruct (Hf _ Hc) as [Hr Hl].
  apply unattended_loop; [exact Hp | congruence | now apply Hd |].
  unfold frames_left. lia.
Qed.

Lemma playback_ends_without_keys_witness :
  fst (play (mkEnv "video.mp4" DownloadOk
                   (Some (uniform_video 24 48 1080 1920)) (fun _ => WriteOk)
                   true true true false [] [] 49 None)
            0 None true empty_world) = Val tt.
Proof.
  apply playback_ends_without_keys.
  - reflexivity.
  - intros v Hv. inversion Hv; subst. split; [discriminate|simpl; lia].
Defined.

(** X15. A paused player waits for a key: as long as no key quits,
    toggles the pause or restarts, ten seconds of frames are a number that
    a double holds and the delay is one that a C [int] holds, so that
    neither a seek key nor [waitKey] raises, the loop of [play] never ends,
    however many turns it is given. *)
Theorem paused_playback_waits_for_a_key
    (env : Env) (st : Q) (et : option Q) (sc : bool) (fuel : nat)
    (p : Player) (w : World) :
  p_paused p = true ->
  Forall idle_key (p_keys p) ->
  (exists x, Py.mul 10 (p_fps p) = Py.Fin x) ->
  -2147483648 <= p_delay p <= 2147483647 ->
  fst (while fuel (player_body env st et sc) p w) = Diverge.
Proof.
  revert p w.
  induction fuel as [|n IH]; intros p w Hp Hk Hx Hd; [reflexivity|].
  simpl. unfold bind.
  destruct (paused_turn env st et sc p w Hp Hk Hx (proj2 (c_int_iff _) Hd))
    as [D|(p' & w' & E & Hp' & Hk' & Hf' & Hd')].
  - destruct (player_body env st et sc p w) as [r w1]. simpl in D. now subst r.
  - rewrite E. apply IH; [assumption..| |]; [now rewrite Hf'|now rewrite Hd'].
Qed.

Lemma paused_playback_waits_for_a_key_witness :
  fst (while 100
         (player_body (quiet_env (Some (uniform_video 24 48 1080 1920)))
                      0 None true)
         (mkPlayer (mkCapture (uniform_video 24 48 1080 1920) 5) 24 41 48 true
                   5 [102; 98; 120])
         empty_world) = Diverge.
Proof.
  apply paused_playback_waits_for_a_key.
  - reflexivity.
  - repeat constructor; discriminate.
  - eexists. vm_compute. reflexivity.
  - simpl. lia.
Defined.

(** X16. Where the display cannot show a frame, playback stops at the first
    frame: [play] returns as soon as its loop can make one turn, whatever
    the keys. *)
Theorem headless_playback_stops_at_once
    (env : Env) (st : Q) (et : option Q) (sc : bool) (w : World) :
  headless env = true ->
  play_fuel env <> O ->
  fst (play env st et sc w) = Val tt.
Proof.
  intros Hh Hf. apply play_from_open. intros p w1 O.
  destruct (player_open_state env st sc w p O) as (Hp & _ & _).
  destruct (play_fuel env) as [|n]; [contradiction|].
  simpl. unfold bind.
  pose proof (headless_turn env st et sc p w1 Hh Hp) as T.
  destruct (player_body env st et sc p w1) as [[[p'|p']|x|] w2]; simpl in *;
    solve [contradiction | exact I | exact T].
Qed.

Lemma headless_playback_stops_at_once_witness :
  fst (play (mkEnv "video.mp4" DownloadOk
                   (Some (uniform_video 24 48 1080 1920)) (fun _ => WriteOk)
                   true true true true [112] [] 1 None)
            0 None true empty_world) = Val tt.
Proof.
  apply headless_playback_stops_at_once.
  - reflexivity.
  - discriminate.
Defined.

(** X17. The seek keys keep the read position in range: after [f] it is at
    most the last frame the container reports, and with a frame rate that
    is not negative it is not before the frame just shown unless that bound
    cuts it; after [b] it is never negative, and never after the frame just
    shown. *)
Theorem seek_keys_stay_in_range
    (env : Env) (st : Q) (et : option Q) (sc : bool) (p p' : Player)
    (w w' : World) :
  player_body env st et sc p w = (Val (inl p'), w') ->
  (fst (waitKey p) = ord_f ->
   cap_pos (p_cap p') <= p_total_frames p - 1 /\
   ((0 <= p_fps p)%Q ->
    Z.min (p_current_frame p') (p_total_frames p - 1) <= cap_pos (p_cap p'))) /\
  (fst (waitKey p) = ord_b ->
   0 <= cap_pos (p_cap p') /\
   ((0 <= p_fps p)%Q ->
    cap_pos (p_cap p') <= Z.max (p_current_frame p') 0)).
Proof.
  assert (Hn : forall step, (0 <= p_fps p)%Q ->
                 int_float (Py.mul 10 (p_fps p)) = Val step -> 0 <= step).
  { intros step H. apply int_float_nonneg.
    apply Qmult_le_0_compat; [discriminate|exact H]. }
  unfold player_body, bind.
  destruct ((if p_paused p then ret (false, p) else player_show env et p) w)
    as [[[stop p1]|x|] w1] eqn:S; [|discriminate..].
  assert (Hsame : p_keys p1 = p_keys p /\ p_delay p1 = p_delay p /\
                  p_fps p1 = p_fps p /\
                  p_total_frames p1 = p_total_frames p).
  { destruct (p_paused p); [inversion S; now subst|].
    pose proof (player_show_spec env et p w) as T. rewrite S in T.
    destruct T as (_ & Tk & Td & Tf & Tt & _). now repeat split. }
  destruct Hsame as (Hk & Hd & Hfps & Ht).
  destruct stop; [discriminate|].
  intros B.
  destruct (player_key_seek st sc p1 p' w1 w' B) as (Hc & Kf & Kb).
  destruct (waitKey_ext p p1 Hk Hd) as [Hw _]. rewrite Hw in Kf, Kb.
  rewrite Hfps, Ht in Kf. rewrite Hfps in Kb.
  split.
  - intros Ef. destruct (Kf Ef) as (step & Es & ->). split; [lia|].
    intros Hq. specialize (Hn step Hq Es). lia.
  - intros Eb. destruct (Kb Eb) as (step & Es & ->). split; [lia|].
    intros Hq. specialize (Hn step Hq Es). lia.
Qed.

Lemma seek_keys_stay_in_range_witness :
  exists p' w',
    player_body (quiet_env (Some (uniform_video 24 48 1080 1920))) 0 None true
      (mkPlayer (mkCapture (uniform_video 24 48 1080 1920) 5) 24 41 48 false 5
                [102])
      empty_world
    = (Val (inl p'), w') /\
    cap_pos (p_cap p') <= 47.
Proof.
  destruct (player_body (quiet_env (Some (uniform_video 24 48 1080 1920)))
              0 None true
              (mkPlayer (mkCapture (uniform_video 24 48 1080 1920) 5) 24 41 48
                        false 5 [102])
              empty_world) as [[[p'|p']|x|] w'] eqn:H;
    try (vm_compute in H; discriminate).
  exists p', w'. split; [reflexivity|].
  exact (proj1 (proj1 (seek_keys_stay_in_range _ _ _ _ _ _ _ _ H) eq_refl)).
Defined.

(** ** The coordinator *)

Section RunAlways.

Variables (e : VideoFrameExtractor) (env : Env).

Lemma returns_ends {A} (P : A -> Prop) (m : M A) : Returns P m -> Ends m.
Proof.
  intros H w. specialize (H w). destruct (fst (m w)); [discriminate..|contradiction].
Qed.

Lemma ends_check_interrupt (s : Stage) : Ends (check_interrupt env s).
Proof. apply (returns_ends (fun _ => True)), returns_check_interrupt. Qed.

Lemma ends_extract_frames : Ends (extract_frames e env).
Proof.
  intros w. destruct (extract_frames_trace e env w) as (n & new & R & _).
  rewrite R. discriminate.
Qed.

Lemma get_video_metadata_returns (w : World) :
  fst (get_video_metadata e env w) = Val tt.
Proof.
  unfold get_video_metadata, try_except, bind.
  destruct (capture env); [|reflexivity].
  destruct (metadata_write_ok env); reflexivity.
Qed.

Lemma create_summary_report_returns (w : World) :
  fst (create_summary_report e env w) = Val tt.
Proof.
  unfold create_summary_report, try_except, bind.
  destruct (report_write_ok env); reflexivity.
Qed.

Lemma ends_run_try (cr : bool) : Ends (run_try e env false cr).
Proof.
  unfold run_try.
  apply ends_bind;
    [apply (returns_ends (fun _ => True)), returns_download_video|].
  intros ok. destruct (negb ok); [apply ends_ret|].
  apply ends_bind; [apply ends_check_interrupt|intros _].
  apply ends_bind;
    [apply (returns_ends (fun _ => True)), returns_get_video_metadata|intros _].
  match goal with |- Ends (if ?b then _ else _) => destruct b end.
  - apply ends_bind; [apply ends_logger|intros _]. apply ends_ret.
  - apply ends_bind.
    + apply ends_bind; [apply ends_check_interrupt|intros _].
      apply ends_bind; [apply ends_extract_frames|intros _]. apply ends_ret.
    + intros _. apply ends_bind.
      * apply ends_when. apply ends_bind; [apply ends_check_interrupt|intros _].
        intros w. rewrite create_summary_report_returns. discriminate.
      * intros _. apply ends_bind; [apply ends_logger|intros _]. apply ends_ret.
Qed.

(** What the body of the [try] of [run] returns when nothing interrupts
    it. *)
Lemma run_try_value (cr : bool) (w : World) :
  interrupt env = None ->
  match fst (run_try e env false cr w) with
  | Val b => b = download_succeeds env && negb (window_rejected e)
  | Exn _ => download_succeeds env = false
  | Diverge => False
  end.
Proof.
  intros Hi. unfold run_try, bind, download_succeeds.
  unfold download_video, try_except, bind.
  destruct (download_outcome env); simpl; try reflexivity.
  unfold check_interrupt. rewrite Hi. simpl.
  match goal with |- context [get_video_metadata e env ?w0] =>
    pose proof (get_video_metadata_returns w0) as G;
    destruct (get_video_metadata e env w0) as [r w1]; simpl in G; subst r
  end.
  fold (window_rejected e). destruct (window_rejected e); [reflexivity|].
  simpl.
  match goal with |- context [extract_frames e env ?w0] =>
    destruct (extract_frames_trace e env w0) as (n & new & R & _);
    destruct (extract_frames e env w0) as [r w2]; simpl in R; subst r
  end.
  simpl. destruct cr; simpl; [|reflexivity].
  match goal with |- context [create_summary_report e env ?w0] =>
    pose proof (create_summary_report_returns w0) as G;
    destruct (create_summary_report e env w0) as [r w3]; simpl in G; subst r
  end.
  reflexivity.
Qed.

End RunAlways.


(** X19. Unless the user interrupts it, what [run] returns depends on the
    download and on the window only: [True] when the transfer completed
    and the window is not rejected, [False] otherwise. A video that cannot
    be opened, a failed write of a frame, of the metadata or of the report,
    and a failed removal of the download do not change the result. *)
Theorem run_result_is_download_and_window
    (e : VideoFrameExtractor) (env : Env) (pv cr : bool) (w : World) :
  interrupt env = None ->
  fst (run e env pv cr w) <> Diverge ->
  fst (run e env pv cr w)
  = Val (download_succeeds env && negb (window_rejected e)).
Proof.
  intros Hi Hd.
  assert (F : fst (run e env false cr w)
              = Val (download_succeeds env && negb (window_rejected e))).
  { rewrite run_result.
    pose proof (run_try_value e env cr
                  (snd (logger INFO "=== Video Frame Extractor ===" w)) Hi) as V.
    destruct (fst (run_try e env false cr _)) as [b|x|];
      [now subst | now rewrite V | contradiction]. }
  destruct pv; [|exact F].
  destruct (run_agrees e env cr w Hi) as [[D _] | [R _]]; [contradiction|].
  now rewrite R.
Qed.

Lemma run_result_is_download_and_window_witness :
  fst (run (init "u" "frames" 2 95 None 0 None)
           (mkEnv "video.mp4" DownloadOk None (fun _ => WriteFalse)
                  false false false false [] [] 0 None)
           false true empty_world) = Val true.
Proof.
  apply (run_result_is_download_and_window
           (init "u" "frames" 2 95 None 0 None)
           (mkEnv "video.mp4" DownloadOk None (fun _ => WriteFalse)
                  false false false false [] [] 0 None)
           false true empty_world).
  - reflexivity.
  - vm_compute. discriminate.
Defined.

(** X20. When the download does not complete, be it a failure or an
    interruption, [run] returns [False] and does nothing more than try to
    remove the partial file: no frame is handed to [imwrite], no metadata
    is read, and no file is there afterwards that was not there before,
    the partial download apart. *)
Theorem failed_download_writes_no_output
    (e : VideoFrameExtractor) (env : Env) (pv cr : bool) (w : World) :
  download_succeeds env = false ->
  fst (run e env pv cr w) = Val false /\
  imwrite_calls (snd (run e env pv cr w)) = imwrite_calls w /\
  metadata (snd (run e env pv cr w)) = metadata w /\
  forall f, In f (files (snd (run e env pv cr w))) ->
            In f (files w) \/ f = VideoFile (download_name env).
Proof.
  unfold download_succeeds. intros Hd.
  assert (Hin : forall name f l,
            In f (filter (fun f => negb (is_video_file name f)) l) -> In f l).
  { intros name f l H. apply filter_In in H. tauto. }
  unfold run, bind, try_finally, run_except, run_try, bind,
    download_video, try_except, bind, cleanup, bind, path_exists, os_remove,
    try_except, bind.
  destruct (download_outcome env); try discriminate; simpl;
    repeat match goal with
           | |- context [match video_path w with _ => _ end] =>
               destruct (video_path w); simpl
           | |- context [if ?b then _ else _] => destruct b; simpl
           end;
    (split; [reflexivity | split; [reflexivity | split; [reflexivity|]]]);
    intros f H; try (apply Hin in H); try (apply in_app_or in H; simpl in H);
    intuition auto.
Qed.

Lemma failed_download_writes_no_output_witness :
  fst (run (init "u" "frames" 2 95 None 0 None)
           (mkEnv "video.mp4" TransferFails
                  (Some (uniform_video 24 48 1080 1920)) (fun _ => WriteOk)
                  true true true false [] [] 0 None)
           true true empty_world) = Val false.
Proof.
  apply (failed_download_writes_no_output
           (init "u" "frames" 2 95 None 0 None)
           (mkEnv "video.mp4" TransferFails
                  (Some (uniform_video 24 48 1080 1920)) (fun _ => WriteOk)
                  true true true false [] [] 0 None)
           true true empty_world).
  reflexivity.
Defined.

Section RunFiles.

Variables (e : VideoFrameExtractor) (env : Env).

(** The download sets [self.video_path], whatever was there. *)
Lemma download_forgets_path (w : World) :
  download_outcome env <> InterruptedInValidate ->
  download_video env w = download_video env (with_path env w).
Proof.
  intros H. unfold download_video, try_except, bind, with_path.
  destruct (download_outcome env); try reflexivity. contradiction.
Qed.

Lemma run_forgets_path (pv cr : bool) (w : World) :
  download_outcome env <> InterruptedInValidate ->
  run e env pv cr w = run e env pv cr (with_path env w).
Proof.
  intros H.
  change (run e env pv cr w)
    with (try_finally (run_except (run_try e env pv cr)) (cleanup env)
            (snd (logger INFO "=== Video Frame Extractor ===" w))).
  change (run e env pv cr (with_path env w))
    with (try_finally (run_except (run_try e env pv cr)) (cleanup env)
            (with_path env
               (snd (logger INFO "=== Video Frame Extractor ===" w)))).
  unfold try_finally, run_except, run_try. unfold bind at 1 3.
  now rewrite (download_forgets_path _ H).
Qed.

End RunFiles.

(** X22. A file that was already there under the name of the download is
    removed as well: once the name has been set, which happens before the
    request is made, a run that ends and whose removal does not fail
    leaves no file of that name, whether the download created it or not. *)
Theorem run_removes_any_file_of_that_name
    (e : VideoFrameExtractor) (env : Env) (pv cr : bool) (w : World) :
  remove_ok env = true ->
  download_outcome env <> InterruptedInValidate ->
  fst (run e env pv cr w) <> Diverge ->
  ~ In (VideoFile (download_name env)) (files (snd (run e env pv cr w))).
Proof.
  intros Hr Ho. rewrite (run_forgets_path e env pv cr w Ho). intros Hend.
  destruct (run_world e env pv cr _ Hend) as (w1 & Hw & (F & _ & _ & P)).
  rewrite Hw. apply cleanup_removes; [exact Hr|].
  apply (pk_same_files env _ _ F P).
  apply (pk_run_try e env pv cr).
  intros _. reflexivity.
Qed.

Lemma run_removes_any_file_of_that_name_witness :
  ~ In (VideoFile "video.mp4")
       (files (snd (run (init "u" "frames" 2 95 None 0 None)
                        (quiet_env (Some (uniform_video 24 48 1080 1920)))
                        false true
                        (mkWorld [VideoFile "video.mp4"] [] []
                                 (mkMeta false None) None)))).
Proof.
  apply (run_removes_any_file_of_that_name
           (init "u" "frames" 2 95 None 0 None)
           (quiet_env (Some (uniform_video 24 48 1080 1920)))
           false true
           (mkWorld [VideoFile "video.mp4"] [] [] (mkMeta false None) None)).
  - reflexivity.
  - discriminate.
  - vm_compute. discriminate.
Defined.

(** ** The context manager *)

Lemma exit_spec (env : Env) (w : World) :
  fst (__exit__ env w) = Val tt /\
  log (snd (__exit__ env w)) = log w /\
  imwrite_calls (snd (__exit__ env w)) = imwrite_calls w /\
  metadata (snd (__exit__ env w)) = metadata w /\
  video_path (snd (__exit__ env w)) = video_path w /\
  (remove_ok env = true ->
   forall name, video_path w = Some name -> name <> EmptyString ->
                ~ In (VideoFile name) (files (snd (__exit__ env w)))).
Proof.
  unfold __exit__, bind, get_video_path, path_exists, try_except_all,
    os_remove.
  simpl. destruct (video_path w) as [name|] eqn:P; simpl.
  2:{ do 5 (split; [first [reflexivity | exact P]|]).
      intros _ n Hn. discriminate. }
  destruct (String.eqb name EmptyString) eqn:N; simpl.
  { do 5 (split; [first [reflexivity | exact P]|]).
    intros _ n Hn Hne. inversion Hn; subst n.
    apply String.eqb_eq in N. contradiction. }
  destruct (existsb (is_video_file name) (files w)) eqn:X; simpl.
  - destruct (remove_ok env); simpl.
    + do 5 (split; [first [reflexivity | exact P]|]).
      intros _ n Hn _ Hin. inversion Hn; subst n.
      apply filter_In in Hin. destruct Hin as [_ Hin]. simpl in Hin.
      now rewrite String.eqb_refl in Hin.
    + do 5 (split; [first [reflexivity | exact P]|]). discriminate.
  - do 5 (split; [first [reflexivity | exact P]|]).
    intros _ n Hn _ Hin. inversion Hn; subst n.
    assert (existsb (is_video_file name) (files w) = true).
    { apply existsb_exists. exists (VideoFile name). split; [exact Hin|].
      simpl. apply String.eqb_refl. }
    congruence.
Qed.

(** X24. [__exit__] raises nothing, whatever the removal does, and logs
    nothing; it leaves [self.metadata], [self.video_path] and the calls of
    [imwrite] as they are; and when the removal does not fail, no file is
    left under the name [self.video_path] holds, unless that name is
    empty. *)
Theorem exit_removes_the_download_quietly (env : Env) (w : World) :
  fst (__exit__ env w) = Val tt /\
  log (snd (__exit__ env w)) = log w /\
  imwrite_calls (snd (__exit__ env w)) = imwrite_calls w /\
  metadata (snd (__exit__ env w)) = metadata w /\
  video_path (snd (__exit__ env w)) = video_path w /\
  (remove_ok env = true ->
   forall name, video_path w = Some name -> name <> EmptyString ->
                ~ In (VideoFile name) (files (snd (__exit__ env w)))).
Proof. exact (exit_spec env w). Qed.

Lemma exit_removes_the_download_quietly_witness :
  ~ In (VideoFile "video.mp4")
       (files (snd (__exit__ (quiet_env None)
                      (mkWorld [VideoFile "video.mp4"; ReportFile "frames"]
                               [] [] (mkMeta false None)
                               (Some "video.mp4"%string))))).
Proof.
  apply (proj2 (proj2 (proj2 (proj2 (proj2
           (exit_removes_the_download_quietly (quiet_env None)
              (mkWorld [VideoFile "video.mp4"; ReportFile "frames"]
                       [] [] (mkMeta false None)
                       (Some "video.mp4"%string)))))))
         eq_refl "video.mp4"%string eq_refl).
  discriminate.
Defined.

(** X25. A [with] block over the extractor passes on what its body
    returns or raises, an exception is not swallowed, and leaves the log of
    the body; when the body ends and the removal does not fail, no file is
    left under the name the body stored in [self.video_path]. *)
Theorem with_block_removes_the_download
    {A : Type} (env : Env) (body : M A) (w : World) :
  fst (with_extractor env body w) = fst (body w) /\
  log (snd (with_extractor env body w)) = log (snd (body w)) /\
  (remove_ok env = true ->
   fst (body w) <> Diverge ->
   forall name, video_path (snd (body w)) = Some name ->
                name <> EmptyString ->
                ~ In (VideoFile name)
                     (files (snd (with_extractor env body w)))).
Proof.
  unfold with_extractor, try_finally.
  destruct (body w) as [r w1]. simpl.
  destruct (exit_spec env w1) as (R & L & _ & _ & _ & Rm).
  destruct (__exit__ env w1) as [r2 w2]. simpl in R, L, Rm. subst r2.
  destruct r as [a|x|]; simpl; (split; [reflexivity|]).
  - split; [exact L|]. intros Hr _. now apply Rm.
  - split; [exact L|]. intros Hr _. now apply Rm.
  - split; [reflexivity|]. intros _ H. now destruct H.
Qed.

Lemma with_block_removes_the_download_witness :
  ~ In (VideoFile "video.mp4")
       (files (snd (with_extractor
                      (quiet_env None)
                      (set_video_path "video.mp4" ;;;
                       write_file (VideoFile "video.mp4") ;;;
                       raise (A := unit) KeyboardInterrupt)
                      empty_world))).
Proof.
  apply (proj2 (proj2
           (with_block_removes_the_download
              (quiet_env None)
              (set_video_path "video.mp4" ;;;
               write_file (VideoFile "video.mp4") ;;;
               raise (A := unit) KeyboardInterrupt)
              empty_world))
         eq_refl)
    with (name := "video.mp4"%string).
  - discriminate.
  - reflexivity.
  - discriminate.
Defined.

(** ** An end time of zero *)

Section SameLaws.

Lemma same_refl {A} (m : M A) : Same m m.
Proof. intros w. reflexivity. Qed.

Lemma same_bind {A B} (m1 m2 : M A) (k1 k2 : A -> M B) :
  Same m1 m2 -> (forall a, Same (k1 a) (k2 a)) -> Same (bind m1 k1) (bind m2 k2).
Proof.
  intros Hm Hk w. unfold bind. rewrite (Hm w).
  destruct (m2 w) as [[a|x|] w1]; try reflexivity. apply Hk.
Qed.

Lemma same_try_except {A} (m1 m2 : M A) (h : exn -> M A) :
  Same m1 m2 -> Same (try_except m1 h) (try_except m2 h).
Proof. intros Hm w. unfold try_except. now rewrite (Hm w). Qed.

Lemma same_unless_stuck {A} (m1 m2 : M A) :
  Same m1 m2 -> Same (unless_stuck m1) (unless_stuck m2).
Proof. intros Hm w. unfold unless_stuck. now rewrite (Hm w). Qed.

Lemma same_while {S} (b1 b2 : S -> M (S + S)) :
  (forall s, Same (b1 s) (b2 s)) ->
  forall fuel s, Same (while fuel b1 s) (while fuel b2 s).
Proof.
  intros Hb fuel. induction fuel as [|n IH]; intros s; [apply same_refl|].
  simpl. apply same_bind; [apply Hb|].
  intros [s'|s']; [apply IH | apply same_refl].
Qed.

End SameLaws.

Section ZeroEnd.

Variables (u f : string) (i : Q) (q : Z) (mw : option Z) (s t : Q) (env : Env).
Hypothesis t_zero : (t == 0)%Q.

Lemma zero_end_sampler_open :
  Same (sampler_open (mkExtractor u f i q mw s (Some t)) env)
       (sampler_open (mkExtractor u f i q mw s None) env).
Proof.
  intros w. unfold sampler_open, end_frame. cbn [end_time].
  rewrite (proj2 (truthyQ_Some_false t) t_zero). reflexivity.
Qed.

Lemma zero_end_extract_frames :
  Same (extract_frames (mkExtractor u f i q mw s (Some t)) env)
       (extract_frames (mkExtractor u f i q mw s None) env).
Proof.
  unfold extract_frames, extract_frames_try.
  apply same_try_except. apply same_bind; [apply zero_end_sampler_open|].
  intros a. apply same_refl.
Qed.

Lemma zero_end_player_body (sc : bool) (p : Player) :
  Same (player_body env s (Some t) sc p) (player_body env s None sc p).
Proof.
  unfold player_body. apply same_bind; [|intros a; apply same_refl].
  destruct (p_paused p); [apply same_refl|].
  intros w. unfold player_show.
  rewrite (proj2 (truthyQ_Some_false t) t_zero). reflexivity.
Qed.

Lemma zero_end_sampler_step (ss : SamplerSt) :
  Same (sampler_step (mkExtractor u f i q mw s (Some t)) env ss)
       (sampler_step (mkExtractor u f i q mw s None) env ss).
Proof.
  destruct ss as [|sm|]; try apply same_refl.
  simpl. apply same_try_except.
  apply same_bind; [apply zero_end_sampler_open | intros a; apply same_refl].
Qed.

Lemma zero_end_sampler_join (ss : SamplerSt) :
  Same (sampler_join (mkExtractor u f i q mw s (Some t)) env ss)
       (sampler_join (mkExtractor u f i q mw s None) env ss).
Proof.
  destruct ss as [|sm|]; try apply same_refl.
  unfold sampler_join.
  apply same_bind; [apply zero_end_extract_frames | intros a; apply same_refl].
Qed.

Lemma zero_end_player_loop (p : Player) :
  Same (try_except
          (_ <- while (play_fuel env) (player_body env s (Some t) true) p ;;
           ret tt) player_except)
       (try_except
          (_ <- while (play_fuel env) (player_body env s None true) p ;;
           ret tt) player_except).
Proof.
  apply same_try_except. apply same_bind; [|intros a; apply same_refl].
  apply same_while. intros p'. apply zero_end_player_body.
Qed.

Lemma zero_end_player_step (ps : PlayerSt) :
  Same (player_step (mkExtractor u f i q mw s (Some t)) env ps)
       (player_step (mkExtractor u f i q mw s None) env ps).
Proof.
  destruct ps as [|p| |]; try apply same_refl.
  simpl. apply same_bind; [|intros a; apply same_refl].
  apply same_unless_stuck. apply same_try_except.
  apply same_bind; [apply zero_end_player_body | intros a; apply same_refl].
Qed.

Lemma zero_end_player_finish (ps : PlayerSt) :
  Same (player_finish (mkExtractor u f i q mw s (Some t)) env ps)
       (player_finish (mkExtractor u f i q mw s None) env ps).
Proof.
  destruct ps as [|p| |]; try apply same_refl.
  - unfold player_finish, play_video. apply same_bind; [apply same_refl|].
    intros ok. destruct ok; [|apply same_refl].
    unfold play. cbn [start_time end_time].
    apply same_try_except. apply same_bind; [apply same_refl|].
    intros [p0|]; [|apply same_refl].
    apply same_bind; [|intros a; apply same_refl].
    apply same_while. intros p'. apply zero_end_player_body.
  - apply zero_end_player_loop.
Qed.

Lemma zero_end_interleave (sched : list Tid) :
  forall ss ps,
    Same (interleave (mkExtractor u f i q mw s (Some t)) env sched ss ps)
         (interleave (mkExtractor u f i q mw s None) env sched ss ps).
Proof.
  induction sched as [|tid sched IH]; intros ss ps; [apply same_refl|].
  destruct tid; simpl.
  - apply same_bind; [apply zero_end_sampler_step | intros a; apply IH].
  - apply same_bind; [apply zero_end_player_step | intros a; apply IH].
Qed.

Lemma zero_end_run_try (pv cr : bool) :
  Same (run_try (mkExtractor u f i q mw s (Some t)) env pv cr)
       (run_try (mkExtractor u f i q mw s None) env pv cr).
Proof.
  unfold run_try. apply same_bind; [apply same_refl|].
  intros ok. destruct (negb ok); [apply same_refl|].
  apply same_bind; [apply same_refl|intros _].
  apply same_bind; [apply same_refl|intros _].
  cbn [end_time start_time]. rewrite (proj2 (truthyQ_Some_false t) t_zero).
  cbn [andb Py.truthyQ].
  apply same_bind; [|intros a; apply same_refl].
  destruct pv.
  - unfold run_with_playback.
    apply same_bind; [apply zero_end_interleave|intros sp].
    apply same_bind; [apply zero_end_sampler_join|intros _].
    apply same_bind; [apply same_refl|intros _].
    apply same_bind; [apply zero_end_player_finish|intros _].
    apply same_refl.
  - apply same_bind; [apply same_refl|intros _].
    apply same_bind; [apply zero_end_extract_frames | intros a; apply same_refl].
Qed.

End ZeroEnd.

(** X27. An end time of zero is no end time. With [end_time] set to 0 (or
    to 0.0), the window is not checked, the sampler runs to the last frame
    and the player does not stop early: [run] returns what it returns with
    no end time at all, hands the same frames to [imwrite], writes the same
    frame files and logs the same lines, and [extract_frames] does in every
    world exactly what it does with no end time.  (The metadata file records
    the end time as it was given; its content is outside the model.) *)
Theorem zero_end_time_is_no_end_time
    (e : VideoFrameExtractor) (env : Env) (pv cr : bool) (w : World) (t : Q) :
  end_time e = Some t ->
  (t == 0)%Q ->
  fst (run e env pv cr w) = fst (run (without_end_time e) env pv cr w) /\
  imwrite_calls (snd (run e env pv cr w))
  = imwrite_calls (snd (run (without_end_time e) env pv cr w)) /\
  frame_files (files (snd (run e env pv cr w)))
  = frame_files (files (snd (run (without_end_time e) env pv cr w))) /\
  log (snd (run e env pv cr w))
  = log (snd (run (without_end_time e) env pv cr w)) /\
  extract_frames e env w = extract_frames (without_end_time e) env w.
Proof.
  intros He Ht. destruct e as [u f i q mw s et]. simpl in He. subst et.
  unfold without_end_time. cbn [video_url output_folder interval quality
                                max_width start_time].
  assert (R : run (mkExtractor u f i q mw s (Some t)) env pv cr w
              = run (mkExtractor u f i q mw s None) env pv cr w).
  { change (run (mkExtractor u f i q mw s (Some t)) env pv cr w)
      with (try_finally
              (run_except
                 (run_try (mkExtractor u f i q mw s (Some t)) env pv cr))
              (cleanup env)
              (snd (logger INFO "=== Video Frame Extractor ===" w))).
    change (run (mkExtractor u f i q mw s None) env pv cr w)
      with (try_finally
              (run_except (run_try (mkExtractor u f i q mw s None) env pv cr))
              (cleanup env)
              (snd (logger INFO "=== Video Frame Extractor ===" w))).
    unfold try_finally, run_except.
    now rewrite (zero_end_run_try u f i q mw s t env Ht pv cr). }
  rewrite R. repeat split. now apply zero_end_extract_frames.
Qed.

Lemma zero_end_time_is_no_end_time_witness :
  extract_frames (init "u" "frames" 2 95 None 0 (Some 0%Q))
                 (quiet_env (Some (uniform_video 24 48 1080 1920)))
                 empty_world
  = extract_frames (init "u" "frames" 2 95 None 0 None)
                   (quiet_env (Some (uniform_video 24 48 1080 1920)))
                   empty_world.
Proof.
  apply (zero_end_time_is_no_end_time
           (init "u" "frames" 2 95 None 0 (Some 0%Q))
           (quiet_env (Some (uniform_video 24 48 1080 1920)))
           false true empty_world 0).
  - reflexivity.
  - reflexivity.
Defined.

(** ** Runs with playback that end *)

Section PlaybackEnds.

Variables (e : VideoFrameExtractor) (env : Env).

(** A property of the player that holds when the loop starts, is kept by
    every turn, and makes the loop end. *)
Variable Inv : Player -> Prop.
Hypothesis Inv_open : forall w p,
  fst (player_open env (start_time e) true w) = Val (Some p) -> Inv p.
Hypothesis Inv_turn : forall p w p',
  Inv p ->
  fst (player_body env (start_time e) (end_time e) true p w) = Val (inl p') ->
  Inv p'.
Hypothesis Inv_ends : forall p w,
  Inv p ->
  fst (while (play_fuel env)
             (player_body env (start_time e) (end_time e) true) p w)
  <> Diverge.

(** A turn from a state that satisfies [Inv] ends. *)
Lemma Inv_turn_ends (p : Player) (w : World) :
  Inv p ->
  fst (player_body env (start_time e) (end_time e) true p w) <> Diverge.
Proof.
  intros Hi D. apply (Inv_ends p w Hi).
  destruct (play_fuel env) as [|n]; [reflexivity|].
  simpl. unfold bind.
  destruct (player_body env (start_time e) (end_time e) true p w) as [r w1].
  simpl in D. now subst r.
Qed.

Lemma player_step_inv (ps : PlayerSt) (w : World) :
  ps_ok Inv ps ->
  exists ps', fst (player_step e env ps w) = Val ps' /\ ps_ok Inv ps'.
Proof.
  intros Hok.
  destruct (player_step_spec e env ps w) as (ps' & R & _).
  exists ps'. split; [exact R|].
  destruct ps as [|p| |]; simpl in R.
  - unfold bind in R.
    destruct (play_video_guard w) as [[[|]|x|] w1]; simpl in R;
      try discriminate.
    + unfold try_except, bind in R.
      destruct (player_open env (start_time e) true w1)
        as [[[p0|]|x|] w2] eqn:O; simpl in R.
      * inversion R; subst. simpl. apply (Inv_open w1). now rewrite O.
      * inversion R; subst. exact I.
      * destruct (is_Exception x); simpl in R; [|discriminate].
        inversion R; subst. exact I.
      * discriminate.
    + inversion R; subst. exact I.
  - unfold bind, unless_stuck, try_except in R. unfold bind in R.
    pose proof (Inv_turn_ends p w Hok) as T.
    destruct (player_body env (start_time e) (end_time e) true p w)
      as [[[p'|p']|x|] w1] eqn:B; simpl in R, T.
    + inversion R; subst. simpl. apply (Inv_turn p w); [exact Hok|].
      now rewrite B.
    + inversion R; subst. exact I.
    + destruct (is_Exception x); simpl in R; [|discriminate].
      inversion R; subst. exact I.
    + contradiction.
  - contradiction.
  - inversion R; subst. exact I.
Qed.

Lemma interleave_inv (sched : list Tid) :
  forall (ss : SamplerSt) (ps : PlayerSt) (w : World),
    ss_ok ss -> ps_ok Inv ps ->
    exists ss' ps',
      fst (interleave e env sched ss ps w) = Val (ss', ps') /\
      ss_ok ss' /\ ps_ok Inv ps'.
Proof.
  induction sched as [|t sched IH]; intros ss ps w Hs Hp.
  - exists ss, ps. now repeat split.
  - destruct t; simpl; unfold bind.
    + destruct (sampler_step_join e env ss w Hs) as (ss1 & Hr & Hs1 & _).
      destruct (sampler_step e env ss w) as [r w1]. simpl in Hr. subst r.
      now apply IH.
    + destruct (player_step_inv ps w Hp) as (ps1 & Hr & Hp1).
      destruct (player_step e env ps w) as [r w1]. simpl in Hr. subst r.
      now apply IH.
Qed.

Lemma player_finish_ends (ps : PlayerSt) (w : World) :
  ps_ok Inv ps -> fst (player_finish e env ps w) = Val tt.
Proof.
  intros Hok.
  destruct (player_finish_spec e env ps w) as [[R|R] _]; [exact R|].
  exfalso. destruct ps as [|p| |]; simpl in R.
  - unfold play_video, bind in R.
    pose proof (ends_play_video_guard w) as G.
    destruct (play_video_guard w) as [[[|]|x|] w1]; simpl in R, G;
      try discriminate; try contradiction.
    unfold play, try_except, bind in R.
    destruct (player_open env (start_time e) true w1)
      as [[[p0|]|x|] w2] eqn:O; simpl in R; try discriminate.
    + assert (Hi : Inv p0) by (apply (Inv_open w1); now rewrite O).
      pose proof (Inv_ends p0 w2 Hi) as E.
      destruct (while _ _ _ _) as [[p'|x|] w3]; simpl in *;
        try discriminate; [|contradiction].
      destruct (is_Exception x); discriminate.
    + destruct (is_Exception x); discriminate.
    + pose proof (ends_player_open env (start_time e) true w1) as E.
      rewrite O in E. now apply E.
  - unfold try_except, bind in R.
    pose proof (Inv_ends p w Hok) as E.
    destruct (while _ _ _ _) as [[p'|x|] w3]; simpl in *;
      try discriminate; [|contradiction].
    destruct (is_Exception x); discriminate.
  - contradiction.
  - discriminate.
Qed.

Lemma run_with_playback_ends : Ends (run_with_playback e env).
Proof.
  intros w. unfold run_with_playback, bind.
  destruct (interleave_inv (schedule env) S_New P_New w I I)
    as (ss' & ps' & R & Hs & Hp).
  destruct (interleave e env (schedule env) S_New P_New w) as [r w1].
  simpl in R. subst r. simpl.
  pose proof (sampler_join_returns e env ss' w1 Hs) as J.
  destruct (sampler_join e env ss' w1) as [r w2]. simpl in J. subst r.
  pose proof (ends_check_interrupt env AtPlayback w2) as C1.
  destruct (check_interrupt env AtPlayback w2) as [[[]|x|] w3]; simpl in *;
    [|discriminate|contradiction].
  pose proof (player_finish_ends ps' w3 Hp) as F.
  destruct (player_finish e env ps' w3) as [r w4]. simpl in F. subst r.
  apply ends_check_interrupt.
Qed.

Lemma run_ends (pv cr : bool) (w : World) :
  exists b, fst (run e env pv cr w) = Val b.
Proof.
  assert (E : Ends (run_try e env pv cr)).
  { destruct pv; [|apply ends_run_try].
    unfold run_try.
    apply ends_bind;
      [apply (returns_ends (fun _ => True)), returns_download_video|].
    intros ok. destruct (negb ok); [apply ends_ret|].
    apply ends_bind; [apply ends_check_interrupt|intros _].
    apply ends_bind;
      [apply (returns_ends (fun _ => True)), returns_get_video_metadata|intros _].
    match goal with |- Ends (if ?b then _ else _) => destruct b end.
    - apply ends_bind; [apply ends_logger|intros _]. apply ends_ret.
    - apply ends_bind; [apply run_with_playback_ends|].
      intros _. apply ends_bind.
      + apply ends_when.
        apply ends_bind; [apply ends_check_interrupt|intros _].
        intros w0. rewrite create_summary_report_returns. discriminate.
      + intros _. apply ends_bind; [apply ends_logger|intros _]. apply ends_ret. }
  rewrite run_result. specialize (E (snd (logger INFO "=== Video Frame Extractor ===" w))).
  destruct (fst (run_try e env pv cr _)) as [b|x|];
    [now exists b | now exists false | contradiction].
Qed.

End PlaybackEnds.

(** X28. Where the display cannot show a frame, a run with playback ends,
    whatever the keys and the schedule of the two tasks, as soon as the
    loop of the player can make one turn; and unless the user interrupts
    it, it returns what the run without playback returns and leaves the
    same files and the same calls of [imwrite]. *)
Theorem headless_run_ends
    (e : VideoFrameExtractor) (env : Env) (cr : bool) (w : World) :
  headless env = true ->
  play_fuel env <> O ->
  (exists b, fst (run e env true cr w) = Val b) /\
  (interrupt env = None ->
   fst (run e env true cr w) = fst (run e env false cr w) /\
   files (snd (run e env true cr w)) = files (snd (run e env false cr w)) /\
   imwrite_calls (snd (run e env true cr w))
   = imwrite_calls (snd (run e env false cr w))).
Proof.
  intros Hh Hf.
  assert (E : exists b, fst (run e env true cr w) = Val b).
  { apply (run_ends e env (fun p => p_paused p = false)).
    - intros w0 p O. exact (proj1 (player_open_state env _ _ w0 p O)).
    - intros p w0 p' Hp B.
      pose proof (headless_turn env (start_time e) (end_time e) true p w0 Hh Hp)
        as T.
      rewrite B in T. contradiction.
    - intros p w0 Hp. destruct (play_fuel env) as [|n]; [contradiction|].
      simpl. unfold bind.
      pose proof (headless_turn env (start_time e) (end_time e) true p w0 Hh Hp)
        as T.
      destruct (player_body env (start_time e) (end_time e) true p w0)
        as [[[p'|p']|x|] w1]; simpl in *; try discriminate; contradiction. }
  split; [exact E|]. intros Hi.
  destruct (run_agrees e env cr w Hi) as [[D _] | [R (Sf & Sc & _)]].
  - destruct E as [b E]. congruence.
  - split; [exact R|]. split; congruence.
Qed.

Lemma headless_run_ends_witness :
  exists b,
    fst (run (init "u" "frames" 2 95 None 0 None)
             (mkEnv "video.mp4" DownloadOk
                    (Some (uniform_video 24 48 1080 1920)) (fun _ => WriteOk)
                    true true true true [112]
                    [PlayerTask; SamplerTask; PlayerTask] 1 None)
             true true empty_world) = Val b.
Proof.
  apply (headless_run_ends
           (init "u" "frames" 2 95 None 0 None)
           (mkEnv "video.mp4" DownloadOk
                  (Some (uniform_video 24 48 1080 1920)) (fun _ => WriteOk)
                  true true true true [112]
                  [PlayerTask; SamplerTask; PlayerTask] 1 None)
           true empty_world).
  - reflexivity.
  - discriminate.
Defined.

(** X29. Without a key press, a run with playback ends, whatever the
    schedule of the two tasks, at a frame rate of 1000 at most, so that the
    delay between two frames is at least a millisecond, and when the loop of
    the player can make one turn more than the video has frames to decode;
    and unless the user interrupts it, it returns what the run without
    playback returns and leaves the same files and the same calls of
    [imwrite]. *)
Theorem unattended_run_ends
    (e : VideoFrameExtractor) (env : Env) (cr : bool) (w : World) :
  keys env = [] ->
  (forall v, capture env = Some v ->
             (prop_fps v <= 1000)%Q /\
             (List.length (decodable v) < play_fuel env)%nat) ->
  (exists b, fst (run e env true cr w) = Val b) /\
  (interrupt env = None ->
   fst (run e env true cr w) = fst (run e env false cr w) /\
   files (snd (run e env true cr w)) = files (snd (run e env false cr w)) /\
   imwrite_calls (snd (run e env true cr w))
   = imwrite_calls (snd (run e env false cr w))).
Proof.
  intros Hk Hf.
  assert (E : exists b, fst (run e env true cr w) = Val b).
  { apply (run_ends e env (unattended (play_fuel env))).
    - intros w0 p O.
      destruct (player_open_state env _ _ w0 p O) as (Hp & Hkp & Hc & Hd).
      destruct (Hf _ Hc) as [Hr Hl].
      split; [exact Hp|]. split; [congruence|]. split; [now apply Hd|].
      unfold frames_left. lia.
    - intros p w0 p' (Hp & Hkp & Hd & Hl) B.
      pose proof (unattended_turn env (start_time e) (end_time e) true p w0
                    Hp Hkp Hd) as T.
      rewrite B in T. destruct T as (Hp' & Hk' & Hd' & _ & _ & Hl').
      split; [exact Hp'|]. split; [exact Hk'|]. split; [exact Hd'|]. lia.
    - intros p w0 (Hp & Hkp & Hd & Hl).
      pose proof (unattended_loop env (start_time e) (end_time e) true
                    (play_fuel env) p w0 Hp Hkp Hd Hl) as T.
      destruct (fst (while _ _ _ _)); [discriminate..|contradiction]. }
  split; [exact E|]. intros Hi.
  destruct (run_agrees e env cr w Hi) as [[D _] | [R (Sf & Sc & _)]].
  - destruct E as [b E]. congruence.
  - split; [exact R|]. split; congruence.
Qed.

Lemma unattended_run_ends_witness :
  exists b,
    fst (run (init "u" "frames" 2 95 None 0 None)
             (mkEnv "video.mp4" DownloadOk
                    (Some (uniform_video 24 48 1080 1920)) (fun _ => WriteOk)
                    true true true false []
                    [PlayerTask; SamplerTask; PlayerTask] 49 None)
             true true empty_world) = Val b.
Proof.
  apply (unattended_run_ends
           (init "u" "frames" 2 95 None 0 None)
           (mkEnv "video.mp4" DownloadOk
                  (Some (uniform_video 24 48 1080 1920)) (fun _ => WriteOk)
                  true true true false []
                  [PlayerTask; SamplerTask; PlayerTask] 49 None)
           true empty_world).
  - reflexivity.
  - intros v Hv. inversion Hv; subst. split; [discriminate|simpl; lia].
Defined.
